(** * generate-stats: a shallow embedding of [scripts/generate-stats.mjs]

    The script fetches a GitHub profile page by page, aggregates commit
    counts and language sizes, and renders a terminal styled SVG.  This file
    embeds its pure parts as Rocq functions and proves the properties the
    specification states about them.

    Conventions of the embedding.
    - A JavaScript string is the list of its UTF-16 code units.
    - Counts and sizes are GraphQL [Int]s; they are embedded as [Z].  Sums of
      such values stay far below 2^53, where JavaScript addition and
      subtraction of Numbers are exact.
    - The one place where the script leaves the integers,
      [(x.size / total) * 100], is embedded with the binary64 operations of
      the Standard Library's [SpecFloat].
    - The tally [langSizes] is embedded as a map from names to integers,
      which is what it is as long as no language has a name that
      [Object.prototype] defines and the sums stay below 2^53.  Module
      [PlainObject] embeds the aggregation loop on the plain object that
      [langSizes] is, with the prototype chain and the additions of Numbers,
      and [PlainFacts] shows where the two agree. *)

From Stdlib Require Import String Ascii.
From Stdlib Require Import ZArith NArith PArith List Bool Lia.
From Stdlib Require Import Permutation Sorted.
From Stdlib Require Import SpecFloat.
From Stdlib Require Import DecimalPos DecimalN.
Import ListNotations.

Set Implicit Arguments.

(* ================================================================== *)
(** * JavaScript strings *)
(* ================================================================== *)

Module JsString.

Definition codeunit := N.
Definition jsstring := list codeunit.

(** An ASCII literal of the source text. *)
Definition lit (s : string) : jsstring :=
  map N_of_ascii (list_ascii_of_string s).

(** Template text that contains double quotes is written with a backquote
    (code unit 96) standing for each double quote (code unit 34); the source
    text between its template delimiters contains no backquote. *)
Definition unquote (c : codeunit) : codeunit :=
  if N.eqb c 96 then 34%N else c.

Definition tpl (s : string) : jsstring := map unquote (lit s).

Definition eqb (a b : jsstring) : bool :=
  if list_eq_dec N.eq_dec a b then true else false.

(** [s.padEnd(n)] and [s.padStart(n)] with the default filler, a space.
    A string of [n] or more code units is returned unchanged. *)
Definition padEnd (n : nat) (s : jsstring) : jsstring :=
  s ++ repeat 32%N (n - length s).

Definition padStart (n : nat) (s : jsstring) : jsstring :=
  repeat 32%N (n - length s) ++ s.

(** [s.startsWith(p)] *)
Fixpoint startsWith (p s : jsstring) : bool :=
  match p, s with
  | [], _ => true
  | _ :: _, [] => false
  | a :: p', b :: s' => N.eqb a b && startsWith p' s'
  end.

(** [s.endsWith(p)] *)
Definition endsWith (p s : jsstring) : bool :=
  startsWith (rev p) (rev s).

(** [xs.join(sep)] *)
Fixpoint join (sep : jsstring) (xs : list jsstring) : jsstring :=
  match xs with
  | [] => []
  | [x] => x
  | x :: rest => x ++ sep ++ join sep rest
  end.

(** [s.replaceAll(c, rep)] for a search string [c] of one code unit. *)
Definition replaceAll (c : codeunit) (rep : jsstring) (s : jsstring)
  : jsstring :=
  flat_map (fun x => if N.eqb x c then rep else [x]) s.

(** Decimal digits of a natural number, most significant first. *)
Fixpoint digits_of_uint (u : Decimal.uint) : jsstring :=
  match u with
  | Decimal.Nil => []
  | Decimal.D0 u => 48%N :: digits_of_uint u
  | Decimal.D1 u => 49%N :: digits_of_uint u
  | Decimal.D2 u => 50%N :: digits_of_uint u
  | Decimal.D3 u => 51%N :: digits_of_uint u
  | Decimal.D4 u => 52%N :: digits_of_uint u
  | Decimal.D5 u => 53%N :: digits_of_uint u
  | Decimal.D6 u => 54%N :: digits_of_uint u
  | Decimal.D7 u => 55%N :: digits_of_uint u
  | Decimal.D8 u => 56%N :: digits_of_uint u
  | Decimal.D9 u => 57%N :: digits_of_uint u
  end.

Definition decimal (n : N) : jsstring := digits_of_uint (N.to_uint n).

(** [String(z)] for an integral Number [z] (below 10^21, where JavaScript
    prints all digits). *)
Definition String_of_int (z : Z) : jsstring :=
  match z with
  | Zneg p => 45%N :: decimal (Npos p)
  | _ => decimal (Z.to_N z)
  end.

End JsString.

Import JsString.

(* ================================================================== *)
(** * JavaScript Numbers *)
(* ================================================================== *)

Module JsNumber.

Open Scope Z_scope.

(** A Number is an IEEE 754 binary64 value. *)
Definition prec : Z := 53.
Definition emax : Z := 1024.

(** The Number that an integer literal or an integral value denotes
    (exact up to 2^53 in absolute value, rounded to nearest even above). *)
Definition toNumber (z : Z) : spec_float := binary_normalize prec emax z 0 false.

(** [x / y] and [x * y] *)
Definition div (x y : spec_float) : spec_float := SFdiv prec emax x y.
Definition mul (x y : spec_float) : spec_float := SFmul prec emax x y.

(** The result of an operation that returns an integral Number, or one of
    the three values that are not integers. *)
Inductive integral :=
  | IntVal (z : Z)
  | NaNVal
  | InfVal (negative : bool).

(** [Math.round(x)]: the nearest integer, a tie going to the larger one. *)
Definition Math_round (x : spec_float) : integral :=
  match x with
  | S754_zero _ => IntVal 0
  | S754_nan => NaNVal
  | S754_infinity s => InfVal s
  | S754_finite s m e =>
      let v := if s then Zneg m else Zpos m in
      match e with
      | Zneg k => IntVal ((2 * v + 2 ^ Zpos k) / 2 ^ (Zpos k + 1))
      | _ => IntVal (v * 2 ^ e)
      end
  end.

(** [String(x)] for such a value. *)
Definition String_of_integral (x : integral) : jsstring :=
  match x with
  | IntVal z => String_of_int z
  | NaNVal => lit "NaN"
  | InfVal false => lit "Infinity"
  | InfVal true => lit "-Infinity"
  end.

End JsNumber.

Import JsNumber.

(* ================================================================== *)
(** * JavaScript arrays and objects *)
(* ================================================================== *)

Module JsArray.

Section Sort.
Variable A : Type.
(** The comparator's result; an element [a] goes before [b] when
    [cmp a b < 0]. *)
Variable cmp : A -> A -> Z.

(** [insert x l] puts [x], which the array holds before the elements of
    [l], in front of the first element it does not have to follow. *)
Fixpoint insert (x : A) (l : list A) : list A :=
  match l with
  | [] => [x]
  | y :: l' => if (cmp x y <=? 0)%Z then x :: l else y :: insert x l'
  end.

(** [xs.sort(cmp)].  ECMAScript leaves the algorithm open but requires the
    result to be sorted and stable; for a consistent comparator that
    determines the result, which insertion from the right computes. *)
Definition sort (l : list A) : list A := fold_right insert [] l.
End Sort.

(** [xs.slice(0, n)] *)
Definition slice0 (A : Type) (n : nat) (l : list A) : list A := firstn n l.

(** [xs.map((x, i) => f(x, i))] *)
Fixpoint mapi_from (A B : Type) (f : A -> nat -> B) (i : nat) (l : list A)
  : list B :=
  match l with
  | [] => []
  | x :: l' => f x i :: mapi_from f (S i) l'
  end.

Definition mapi (A B : Type) (f : A -> nat -> B) (l : list A) : list B :=
  mapi_from f 0 l.

End JsArray.

Module JsObject.

(** An object used as a map from names to Numbers: its own properties in the
    order in which they were created.  The names that [Object.prototype]
    defines ([constructor], [toString], ...) are no language names and stay
    outside this embedding: a lookup finds own properties only.  The lookup
    through the prototype chain is [PlainObject.get]. *)
Definition t := list (jsstring * Z).

(** [o[k]], [None] for [undefined]. *)
Fixpoint get (o : t) (k : jsstring) : option Z :=
  match o with
  | [] => None
  | (k', v) :: o' => if eqb k k' then Some v else get o' k
  end.

(** [o[k] = v]: an existing property keeps its place, a new one goes last. *)
Fixpoint set (o : t) (k : jsstring) (v : Z) : t :=
  match o with
  | [] => [(k, v)]
  | (k', v') :: o' =>
      if eqb k k' then (k, v) :: o' else (k', v') :: set o' k v
  end.

Definition is_digit (c : codeunit) : bool := (48 <=? c)%N && (c <=? 57)%N.

Definition digits_value (s : jsstring) : N :=
  fold_left (fun acc c => (10 * acc + (c - 48))%N) s 0%N.

(** A property name is an array index when it is the canonical decimal
    numeral of an integer below 2^32 - 1. *)
Definition array_index (k : jsstring) : option N :=
  match k with
  | [] => None
  | c :: rest =>
      if forallb is_digit k
         && (negb (N.eqb c 48) || Nat.eqb (length rest) 0)
         && (Nat.leb (length k) 10)
         && (digits_value k <? 2 ^ 32 - 1)%N
      then Some (digits_value k)
      else None
  end.

Definition is_index (p : jsstring * Z) : bool :=
  match array_index (fst p) with Some _ => true | None => false end.

Definition index_of (p : jsstring * Z) : Z :=
  match array_index (fst p) with Some i => Z.of_N i | None => 0%Z end.

(** [Object.entries(o)]: the properties whose names are array indices in
    ascending index order, then the others in creation order
    (OrdinaryOwnPropertyKeys). *)
Definition entries (o : t) : list (jsstring * Z) :=
  JsArray.sort (fun a b => (index_of a - index_of b)%Z) (filter is_index o)
  ++ filter (fun p => negb (is_index p)) o.

(** The names are pairwise distinct, as the keys of an object are. *)
Definition wf (o : t) : Prop := NoDup (map fst o).

End JsObject.

(* ================================================================== *)
(** * The script *)
(* ================================================================== *)

Module Stats.

Open Scope Z_scope.

(** ** Rendering *)

(** [esc(s)]: five calls of [replaceAll], the ampersand first. *)
Definition esc (s : jsstring) : jsstring :=
  replaceAll 39%N (lit "&#39;")
    (replaceAll 34%N (lit "&quot;")
      (replaceAll 62%N (lit "&gt;")
        (replaceAll 60%N (lit "&lt;")
          (replaceAll 38%N (lit "&amp;") s)))).

(** A comma goes after every digit that is followed by a positive multiple
    of three digits. *)
Fixpoint group_thousands (ds : jsstring) : jsstring :=
  match ds with
  | [] => []
  | d :: rest =>
      if negb (Nat.eqb (length rest) 0) && Nat.eqb (length rest mod 3) 0
      then d :: 44%N :: group_thousands rest
      else d :: group_thousands rest
  end.

(** [formatNumber(n)]: [Intl.NumberFormat("en-US")] on an integer below 2^53
    in absolute value, where [Number(n)] is [n] and all its digits are
    printed. *)
Definition formatNumber (n : Z) : jsstring :=
  match n with
  | Zneg p => 45%N :: group_thousands (decimal (Npos p))
  | _ => group_thousands (decimal (Z.to_N n))
  end.

(** An element of [topLangs]. *)
Record TopLang := { l_name : jsstring; l_percent : integral }.

(** The argument of [renderTerminalSvg]. *)
Record RenderInput := {
  name : jsstring;
  followers : Z;
  publicRepos : Z;
  totalCommitsApprox : Z;
  topLangs : list TopLang
}.

Definition W : Z := 760.
Definition H : Z := 280.
Definition pad : Z := 22.

Definition bg : jsstring := lit "#0b0f0e".
Definition border : jsstring := lit "#1f2a27".
Definition green : jsstring := lit "#22c55e".
Definition dim : jsstring := lit "#86efac".
Definition mono : jsstring :=
  lit "ui-monospace, SFMono-Regular, Menlo, Monaco, Consolas, 'Liberation Mono', 'Courier New', monospace".

Definition lineHeight : Z := 18.
Definition startY : Z := 48.
Definition maxLines : nat := Z.to_nat ((H - startY - 22) / lineHeight).

Definition LF : jsstring := [10%N].

Section Render.
(** The account handle, read from the environment when the script starts;
    the script stops at once when it is empty. *)
Variable USERNAME : jsstring.

Definition title (r : RenderInput) : jsstring :=
  match name r with [] => USERNAME | _ :: _ => name r end.

(** The line of one entry of [topLangs]. *)
Definition langLine (l : TopLang) : jsstring :=
  padEnd 14 (l_name l) ++ lit " "
  ++ padStart 5 (String_of_integral (l_percent l)) ++ lit "%".

Definition lines (r : RenderInput) : list jsstring :=
  [ USERNAME ++ lit "@github:~$ whoami";
    title r;
    [];
    USERNAME ++ lit "@github:~$ stats --summary";
    lit "followers: " ++ formatNumber (followers r);
    lit "public_repos: " ++ formatNumber (publicRepos r);
    lit "total_commits (approx): " ++ formatNumber (totalCommitsApprox r);
    [];
    USERNAME ++ lit "@github:~$ stats --top-languages" ]
  ++ map langLine (topLangs r)
  ++ [ [];
       USERNAME ++ lit "@github:~$ _" ].

Definition clipped (r : RenderInput) : list jsstring :=
  JsArray.slice0 maxLines (lines r).

Definition color (line : jsstring) : jsstring :=
  if startsWith (USERNAME ++ lit "@github") line then green
  else if eqb line [] then dim
  else if endsWith (lit "$ _") line then green
  else dim.

Definition textNode (line : jsstring) (i : nat) : jsstring :=
  let y := startY + Z.of_nat i * lineHeight in
  tpl "<text x=`" ++ String_of_int pad ++ tpl "` y=`" ++ String_of_int y
  ++ tpl "` font-family=`" ++ mono ++ tpl "` font-size=`14` fill=`"
  ++ color line ++ tpl "`>" ++ esc line ++ lit "</text>".

Definition textNodes (r : RenderInput) : jsstring :=
  join LF (JsArray.mapi textNode (clipped r)).

Definition renderTerminalSvg (r : RenderInput) : jsstring :=
  join LF
    [ tpl "<?xml version=`1.0` encoding=`UTF-8`?>";
      tpl "<svg width=`" ++ String_of_int W ++ tpl "` height=`"
        ++ String_of_int H ++ tpl "` viewBox=`0 0 " ++ String_of_int W
        ++ lit " " ++ String_of_int H
        ++ tpl "` xmlns=`http://www.w3.org/2000/svg` role=`img` aria-label=`Terminal GitHub stats for "
        ++ esc USERNAME ++ tpl "`>";
      tpl "  <defs>";
      tpl "    <filter id=`shadow` x=`-20%` y=`-20%` width=`140%` height=`140%`>";
      tpl "      <feDropShadow dx=`0` dy=`10` stdDeviation=`10` flood-color=`#000` flood-opacity=`0.45`/>";
      tpl "    </filter>";
      tpl "    <linearGradient id=`scan` x1=`0` y1=`0` x2=`0` y2=`1`>";
      tpl "      <stop offset=`0%` stop-color=`#ffffff` stop-opacity=`0.02`/>";
      tpl "      <stop offset=`100%` stop-color=`#ffffff` stop-opacity=`0.00`/>";
      tpl "    </linearGradient>";
      tpl "  </defs>";
      [];
      tpl "  <rect x=`0` y=`0` width=`" ++ String_of_int W ++ tpl "` height=`"
        ++ String_of_int H ++ tpl "` rx=`16` fill=`" ++ bg
        ++ tpl "` filter=`url(#shadow)`/>";
      tpl "  <rect x=`1` y=`1` width=`" ++ String_of_int (W - 2)
        ++ tpl "` height=`" ++ String_of_int (H - 2)
        ++ tpl "` rx=`15` fill=`none` stroke=`" ++ border ++ tpl "`/>";
      [];
      tpl "  <!-- Terminal header dots -->";
      tpl "  <g transform=`translate(" ++ String_of_int pad ++ tpl ", 18)`>";
      tpl "    <circle cx=`8` cy=`8` r=`5` fill=`#ef4444`/>";
      tpl "    <circle cx=`28` cy=`8` r=`5` fill=`#f59e0b`/>";
      tpl "    <circle cx=`48` cy=`8` r=`5` fill=`#22c55e`/>";
      tpl "    <text x=`76` y=`12` font-family=`" ++ mono
        ++ tpl "` font-size=`12` fill=`#9ca3af`>" ++ esc USERNAME
        ++ lit " " ++ [8212%N] ++ lit " stats</text>";
      tpl "  </g>";
      [];
      tpl "  <!-- Scanline overlay -->";
      tpl "  <rect x=`0` y=`0` width=`" ++ String_of_int W ++ tpl "` height=`"
        ++ String_of_int H ++ tpl "` rx=`16` fill=`url(#scan)`/>";
      [];
      lit "  " ++ textNodes r;
      lit "</svg>" ].
End Render.

(** ** Aggregation *)

(** An element of [entries] in [computeTopLanguages]. *)
Record Entry := { e_name : jsstring; e_size : Z }.

Definition entry_of (p : jsstring * Z) : Entry :=
  {| e_name := fst p; e_size := snd p |}.

(** The comparator [(a, b) => b.size - a.size]. *)
Definition by_size_desc (a b : Entry) : Z := e_size b - e_size a.

Definition sum_sizes (l : list Entry) : Z :=
  fold_left (fun s x => s + e_size x) l 0.

(** [s || 1] *)
Definition or_one (s : Z) : Z := if s =? 0 then 1 else s.

Definition percent_of (size total : Z) : integral :=
  Math_round (mul (div (toNumber size) (toNumber total)) (toNumber 100)).

(** The last two statements of [computeTopLanguages]: [total] and the
    returned array. *)
Definition percentages (top : list Entry) : list TopLang :=
  let total := or_one (sum_sizes top) in
  map (fun x => {| l_name := e_name x;
                   l_percent := percent_of (e_size x) total |}) top.

Definition computeTopLanguages (langSizeMap : JsObject.t) : list TopLang :=
  let entries := map entry_of (JsObject.entries langSizeMap) in
  let sorted := JsArray.sort by_size_desc entries in
  let top := JsArray.slice0 6 sorted in
  percentages top.

(** A language edge of a repository.  [e?.node?.name] is [node_name] of
    [edge_node]; [None] stands for [null] and [undefined]. *)
Record LanguageNode := { node_name : option jsstring }.

Record LanguageEdge := {
  edge_size : option Z;
  edge_node : option LanguageNode
}.

(** A repository node.  [history_totalCount] is the whole chain
    [r?.defaultBranchRef?.target?.history?.totalCount]; [languages_edges] is
    [r?.languages?.edges]. *)
Record Repo := {
  isArchived : bool;
  history_totalCount : option Z;
  languages_edges : option (list (option LanguageEdge))
}.

(** [x ?? d] *)
Definition nullish (A : Type) (x : option A) (d : A) : A :=
  match x with Some v => v | None => d end.

(** The state of the aggregation loop: [totalCommitsApprox] and
    [langSizes]. *)
Definition AggState : Type := Z * JsObject.t.

(** The body of [for (const e of edges)], for an edge whose name
    [Object.prototype] does not define and sizes that are added without
    rounding; [PlainObject.add_edge] is the body for every edge. *)
Definition add_edge (langSizes : JsObject.t) (e : option LanguageEdge)
  : JsObject.t :=
  let name :=
    match e with
    | Some e' =>
        match edge_node e' with Some n => node_name n | None => None end
    | None => None
    end in
  let size :=
    nullish (match e with Some e' => edge_size e' | None => None end) 0 in
  match name with
  | None => langSizes
  | Some [] => langSizes
  | Some n =>
      JsObject.set langSizes n (nullish (JsObject.get langSizes n) 0 + size)
  end.

(** The body of [for (const r of allRepos)]. *)
Definition add_repo (st : AggState) (r : option Repo) : AggState :=
  match r with
  | None => st
  | Some r' =>
      if isArchived r' then st
      else
        let repoCommitCount := nullish (history_totalCount r') 0 in
        let edges := nullish (languages_edges r') [] in
        (fst st + repoCommitCount, fold_left add_edge edges (snd st))
  end.

Definition aggregate (allRepos : list (option Repo)) : AggState :=
  fold_left add_repo allRepos (0, []).

(** ** Fetching *)

Record PageInfo := {
  hasNextPage : bool;
  endCursor : option jsstring
}.

Record Repositories := {
  pageInfo : option PageInfo;
  totalCount : option Z;
  nodes : option (list (option Repo))
}.

(** [data.user]; [followers_totalCount] is [user?.followers?.totalCount]. *)
Record User := {
  user_name : option jsstring;
  followers_totalCount : option Z;
  repositories : option Repositories
}.

(** What a call of [gql] does: it throws, or it returns [data] with its
    [user] field. *)
Inductive Response :=
  | Throws
  | Data (user : option User).

(** The remote end: the answer to the [n]-th request, given the cursor
    [after] the request carries. *)
Definition Api : Type := nat -> option jsstring -> Response.

(** The variables of [main] that the fetch loop assigns. *)
Record FetchState := {
  after : option jsstring;
  allRepos : list (option Repo);
  userName : jsstring;
  fetchedFollowers : Z;
  fetchedPublicRepos : Z
}.

Definition initial : FetchState :=
  {| after := None; allRepos := []; userName := [];
     fetchedFollowers := 0; fetchedPublicRepos := 0 |}.

(** A run of the loop: the cursors of the requests issued, in order, and the
    final state, or [None] when a request threw. *)
Definition Fetched : Type := list (option jsstring) * option FetchState.

Definition user_repositories (user : option User) : option Repositories :=
  match user with Some u => repositories u | None => None end.

(** The statements of the loop body after the call of [gql]; the second
    component tells whether the loop goes on ([true]) or breaks. *)
Definition page_body (page : nat) (user : option User) (st : FetchState)
  : FetchState * bool :=
  let st1 :=
    if Nat.eqb page 0 then
      {| after := after st;
         allRepos := allRepos st;
         userName :=
           nullish (match user with Some u => user_name u | None => None end)
                   [];
         fetchedFollowers :=
           nullish (match user with
                    | Some u => followers_totalCount u
                    | None => None
                    end) 0;
         fetchedPublicRepos :=
           nullish (match user_repositories user with
                    | Some rs => totalCount rs
                    | None => None
                    end) 0 |}
    else st in
  let repos :=
    nullish (match user_repositories user with
             | Some rs => nodes rs
             | None => None
             end) [] in
  let st2 :=
    {| after := after st1;
       allRepos := allRepos st1 ++ repos;
       userName := userName st1;
       fetchedFollowers := fetchedFollowers st1;
       fetchedPublicRepos := fetchedPublicRepos st1 |} in
  let pi :=
    match user_repositories user with
    | Some rs => pageInfo rs
    | None => None
    end in
  match pi with
  | Some p =>
      if hasNextPage p then
        ({| after := endCursor p;
            allRepos := allRepos st2;
            userName := userName st2;
            fetchedFollowers := fetchedFollowers st2;
            fetchedPublicRepos := fetchedPublicRepos st2 |}, true)
      else (st2, false)
  | None => (st2, false)
  end.

(** [for (let page = 0; page < 3; page++)], run from [page] with
    [remaining = 3 - page] iterations left before the test [page < 3]
    fails. *)
Fixpoint fetch_from (gql : Api) (remaining page : nat) (st : FetchState)
  : Fetched :=
  match remaining with
  | O => ([], Some st)
  | S remaining' =>
      match gql page (after st) with
      | Throws => ([after st], None)
      | Data user =>
          let (st', more) := page_body page user st in
          if more then
            let (reqs, res) := fetch_from gql remaining' (S page) st' in
            (after st :: reqs, res)
          else ([after st], Some st')
      end
  end.

Definition fetch (gql : Api) : Fetched := fetch_from gql 3 0 initial.

(** ** The whole run *)

(** Steps 2 and 3 of [main]: aggregation and rendering of what was
    fetched. *)
Definition summary (st : FetchState) : RenderInput :=
  let (total, langSizes) := aggregate (allRepos st) in
  {| name := userName st;
     followers := fetchedFollowers st;
     publicRepos := fetchedPublicRepos st;
     totalCommitsApprox := total;
     topLangs := computeTopLanguages langSizes |}.

Definition summarize (USERNAME : jsstring) (st : FetchState) : jsstring :=
  renderTerminalSvg USERNAME (summary st).

(** [main()]: the requests issued and the text written to
    [assets/stats.svg], or [None] when the run failed. *)
Definition main (USERNAME : jsstring) (gql : Api)
  : list (option jsstring) * option jsstring :=
  let (reqs, res) := fetch gql in
  (reqs, option_map (summarize USERNAME) res).

End Stats.

(* ================================================================== *)
(** * Vocabulary of the properties *)
(* ================================================================== *)

Module Spec.

Import Stats.
Open Scope Z_scope.

(** ** Escaped text *)

(** The five characters that [esc] replaces. *)
Definition reserved (c : codeunit) : bool :=
  N.eqb c 38 || N.eqb c 60 || N.eqb c 62 || N.eqb c 34 || N.eqb c 39.

(** What one code unit becomes. *)
Definition entity (c : codeunit) : jsstring :=
  if N.eqb c 38 then lit "&amp;"
  else if N.eqb c 60 then lit "&lt;"
  else if N.eqb c 62 then lit "&gt;"
  else if N.eqb c 34 then lit "&quot;"
  else if N.eqb c 39 then lit "&#39;"
  else [c].

(** Text in escaped form: a sequence of code units that are not reserved
    and of entities that stand for reserved ones. *)
Inductive Escaped : jsstring -> Prop :=
  | Escaped_nil : Escaped []
  | Escaped_plain c s :
      reserved c = false -> Escaped s -> Escaped (c :: s)
  | Escaped_entity c s :
      reserved c = true -> Escaped s -> Escaped (entity c ++ s).

(** Reading escaped text back: an entity gives the character it stands
    for. *)
Fixpoint unesc_fuel (fuel : nat) (s : jsstring) : jsstring :=
  match fuel with
  | O => []
  | S fuel' =>
      match s with
      | [] => []
      | c :: rest =>
          if N.eqb c 38 then
            if startsWith (lit "amp;") rest
            then 38%N :: unesc_fuel fuel' (skipn 4 rest)
            else if startsWith (lit "lt;") rest
            then 60%N :: unesc_fuel fuel' (skipn 3 rest)
            else if startsWith (lit "gt;") rest
            then 62%N :: unesc_fuel fuel' (skipn 3 rest)
            else if startsWith (lit "quot;") rest
            then 34%N :: unesc_fuel fuel' (skipn 5 rest)
            else if startsWith (lit "#39;") rest
            then 39%N :: unesc_fuel fuel' (skipn 4 rest)
            else c :: unesc_fuel fuel' rest
          else c :: unesc_fuel fuel' rest
      end
  end.

Definition unesc (s : jsstring) : jsstring := unesc_fuel (length s) s.

(** ** Sorted arrays *)

(** The elements of rank [v]. *)
Definition ranked (A : Type) (rank : A -> Z) (v : Z) (a : A) : bool :=
  rank a =? v.

(** [a] may stand before [b]. *)
Definition before (A : Type) (rank : A -> Z) (a b : A) : Prop :=
  rank a <= rank b.

(** Entries are ranked by size, the largest first. *)
Definition size_rank (x : Entry) : Z := - e_size x.

Definition same_size (v : Z) (x : Entry) : bool := e_size x =? v.

Definition descending (a b : Entry) : Prop := e_size b <= e_size a.

(** [l'] is [l] sorted by size, descending, entries of one size in the
    order they have in [l]: what ECMAScript asks of
    [l.sort((a, b) => b.size - a.size)], whatever the algorithm. *)
Definition StableSortedDesc (l l' : list Entry) : Prop :=
  Permutation l l'
  /\ StronglySorted descending l'
  /\ forall v, filter (same_size v) l' = filter (same_size v) l.

(** ** Tallies *)

(** The entries of a tally in the order in which its languages were first
    met. *)
Definition first_met (o : JsObject.t) : list Entry := map entry_of o.

Definition tally_total (o : JsObject.t) : Z :=
  fold_right (fun p s => snd p + s) 0 o.

Definition total_size (l : list Entry) : Z :=
  fold_right (fun x s => e_size x + s) 0 l.

(** The entries that [computeTopLanguages] retains. *)
Definition retained (o : JsObject.t) : list Entry :=
  JsArray.slice0 6
    (JsArray.sort by_size_desc (map entry_of (JsObject.entries o))).

(** No language name reads as an array index. *)
Definition plain_names (o : JsObject.t) : Prop :=
  Forall (fun p => JsObject.is_index p = false) o.

(** A repository that the aggregation loop passes over. *)
Definition skipped (r : option Repo) : bool :=
  match r with
  | None => true
  | Some r' => isArchived r'
  end.

(** The language name that an edge counts under, if it counts. *)
Definition edge_name (e : option LanguageEdge) : option jsstring :=
  match e with
  | Some e' =>
      match edge_node e' with
      | Some n =>
          match node_name n with
          | Some (c :: s) => Some (c :: s)
          | _ => None
          end
      | None => None
      end
  | None => None
  end.

(** The names counted, in the order of the edges. *)
Definition edge_names (edges : list (option LanguageEdge)) : list jsstring :=
  flat_map (fun e => match edge_name e with Some n => [n] | None => [] end)
           edges.

Definition repo_names (r : option Repo) : list jsstring :=
  match r with
  | None => []
  | Some r' =>
      if isArchived r' then []
      else edge_names (nullish (languages_edges r') [])
  end.

(** [note ks n]: the names met so far, after meeting [n]. *)
Definition note (ks : list jsstring) (n : jsstring) : list jsstring :=
  if existsb (eqb n) ks then ks else ks ++ [n].

(** The distinct names of a sequence in the order of their first
    occurrences. *)
Definition first_seen (names : list jsstring) : list jsstring :=
  fold_left note names [].

(** ** Numbers *)

(** Bits were lost in a shift. *)
Definition inexact (r : shr_record) : bool := shr_r r || shr_s r.

(** [below c f]: [f] is a zero or a positive finite Number of value at most
    [c]. *)
Definition below (c : Z) (f : spec_float) : Prop :=
  match f with
  | S754_zero _ => True
  | S754_finite false m e => e <= 0 /\ Zpos m <= c * 2 ^ (- e)
  | _ => False
  end.

(** [r] is [w] rounded to the nearest integer, a tie going to the larger
    one. *)
Definition RoundsHalfUp (w : spec_float) (r : integral) : Prop :=
  match w with
  | S754_zero _ => r = IntVal 0
  | S754_nan => r = NaNVal
  | S754_infinity s => r = InfVal s
  | S754_finite s m e =>
      let v := if s then Zneg m else Zpos m in
      exists z,
        r = IntVal z
        /\ match e with
           | Zneg k =>
               (2 * z - 1) * 2 ^ Zpos k <= 2 * v < (2 * z + 1) * 2 ^ Zpos k
           | _ => z = v * 2 ^ e
           end
  end.

(** ** Fetching *)

(** The response asks for another page. *)
Definition has_next (r : Response) : bool :=
  match r with
  | Throws => false
  | Data user =>
      match user_repositories user with
      | Some rs =>
          match pageInfo rs with
          | Some p => hasNextPage p
          | None => false
          end
      | None => false
      end
  end.

(** [user?.name] *)
Definition display_name (user : option User) : option jsstring :=
  match user with Some u => user_name u | None => None end.

(** ** Rendering *)

(** The nine lines before the language lines. *)
Definition scaffold (USERNAME : jsstring) (r : RenderInput) : list jsstring :=
  [ USERNAME ++ lit "@github:~$ whoami";
    title USERNAME r;
    [];
    USERNAME ++ lit "@github:~$ stats --summary";
    lit "followers: " ++ formatNumber (followers r);
    lit "public_repos: " ++ formatNumber (publicRepos r);
    lit "total_commits (approx): " ++ formatNumber (totalCommitsApprox r);
    [];
    USERNAME ++ lit "@github:~$ stats --top-languages" ].

(** The last line, the prompt with the cursor. *)
Definition cursor_line (USERNAME : jsstring) : jsstring :=
  USERNAME ++ lit "@github:~$ _".

(** The opening tag of a text node: it depends on the line only through
    one of two colours. *)
Definition text_open (i : nat) (bright : bool) : jsstring :=
  tpl "<text x=`" ++ String_of_int pad ++ tpl "` y=`"
  ++ String_of_int (startY + Z.of_nat i * lineHeight)
  ++ tpl "` font-family=`" ++ mono ++ tpl "` font-size=`14` fill=`"
  ++ (if bright then green else dim) ++ tpl "`>".

(** The line is drawn in the bright colour. *)
Definition bright (USERNAME line : jsstring) : bool :=
  if startsWith (USERNAME ++ lit "@github") line then true
  else if eqb line [] then false
  else endsWith (lit "$ _") line.

(** The three stretches of the image around the two places where the
    header holds the account handle; they end where the text nodes begin. *)
Definition svg_head : jsstring :=
  tpl "<?xml version=`1.0` encoding=`UTF-8`?>" ++ LF
  ++ tpl "<svg width=`" ++ String_of_int W ++ tpl "` height=`"
  ++ String_of_int H ++ tpl "` viewBox=`0 0 " ++ String_of_int W
  ++ lit " " ++ String_of_int H
  ++ tpl "` xmlns=`http://www.w3.org/2000/svg` role=`img` aria-label=`Terminal GitHub stats for ".

Definition svg_mid : jsstring :=
  tpl "`>" ++ LF
  ++ tpl "  <defs>" ++ LF
  ++ tpl "    <filter id=`shadow` x=`-20%` y=`-20%` width=`140%` height=`140%`>" ++ LF
  ++ tpl "      <feDropShadow dx=`0` dy=`10` stdDeviation=`10` flood-color=`#000` flood-opacity=`0.45`/>" ++ LF
  ++ tpl "    </filter>" ++ LF
  ++ tpl "    <linearGradient id=`scan` x1=`0` y1=`0` x2=`0` y2=`1`>" ++ LF
  ++ tpl "      <stop offset=`0%` stop-color=`#ffffff` stop-opacity=`0.02`/>" ++ LF
  ++ tpl "      <stop offset=`100%` stop-color=`#ffffff` stop-opacity=`0.00`/>" ++ LF
  ++ tpl "    </linearGradient>" ++ LF
  ++ tpl "  </defs>" ++ LF
  ++ LF
  ++ tpl "  <rect x=`0` y=`0` width=`" ++ String_of_int W ++ tpl "` height=`"
  ++ String_of_int H ++ tpl "` rx=`16` fill=`" ++ bg
  ++ tpl "` filter=`url(#shadow)`/>" ++ LF
  ++ tpl "  <rect x=`1` y=`1` width=`" ++ String_of_int (W - 2)
  ++ tpl "` height=`" ++ String_of_int (H - 2)
  ++ tpl "` rx=`15` fill=`none` stroke=`" ++ border ++ tpl "`/>" ++ LF
  ++ LF
  ++ tpl "  <!-- Terminal header dots -->" ++ LF
  ++ tpl "  <g transform=`translate(" ++ String_of_int pad ++ tpl ", 18)`>" ++ LF
  ++ tpl "    <circle cx=`8` cy=`8` r=`5` fill=`#ef4444`/>" ++ LF
  ++ tpl "    <circle cx=`28` cy=`8` r=`5` fill=`#f59e0b`/>" ++ LF
  ++ tpl "    <circle cx=`48` cy=`8` r=`5` fill=`#22c55e`/>" ++ LF
  ++ tpl "    <text x=`76` y=`12` font-family=`" ++ mono
  ++ tpl "` font-size=`12` fill=`#9ca3af`>".

Definition svg_tail : jsstring :=
  lit " " ++ [8212%N] ++ lit " stats</text>" ++ LF
  ++ tpl "  </g>" ++ LF
  ++ LF
  ++ tpl "  <!-- Scanline overlay -->" ++ LF
  ++ tpl "  <rect x=`0` y=`0` width=`" ++ String_of_int W ++ tpl "` height=`"
  ++ String_of_int H ++ tpl "` rx=`16` fill=`url(#scan)`/>" ++ LF
  ++ LF
  ++ lit "  ".

(** ** The run, with the sort left to the engine *)

(** A run of aggregation and rendering in which [entries.sort] may return
    any array that ECMAScript allows. *)
Inductive Run (USERNAME : jsstring) (st : FetchState) : jsstring -> Prop :=
  | Run_intro total langSizes sorted :
      aggregate (allRepos st) = (total, langSizes) ->
      StableSortedDesc (map entry_of (JsObject.entries langSizes)) sorted ->
      Run USERNAME st
        (renderTerminalSvg USERNAME
           {| name := userName st;
              followers := fetchedFollowers st;
              publicRepos := fetchedPublicRepos st;
              totalCommitsApprox := total;
              topLangs := percentages (JsArray.slice0 6 sorted) |}).

(** ** The claims as the specification words them, where the script differs *)

(** Percentages over the sum of the retained sizes, whatever that sum is. *)
Definition claimed_percentages (top : list Entry) : list TopLang :=
  map (fun x => {| l_name := e_name x;
                   l_percent := percent_of (e_size x) (sum_sizes top) |}) top.

(** The exact percentage [100 * size / total] rounded half up, for a
    positive [total]. *)
Definition exact_percent (size total : Z) : Z :=
  (200 * size + total) / (2 * total).

(** The retained entries when ties follow the order in which the languages
    were first met. *)
Definition claimed_retained (o : JsObject.t) : list Entry :=
  JsArray.slice0 6 (JsArray.sort by_size_desc (first_met o)).

(** The rendered lines when a non-empty language list pushes out both the
    blank separator and the cursor line. *)
Definition claimed_clipped (USERNAME : jsstring) (r : RenderInput)
  : list jsstring :=
  match topLangs r with
  | [] => lines USERNAME r
  | _ :: _ => scaffold USERNAME r ++ firstn 2 (map langLine (topLangs r))
  end.

(** A language line with nothing between its two padded fields. *)
Definition claimed_langLine (l : TopLang) : jsstring :=
  padEnd 14 (l_name l)
  ++ padStart 5 (String_of_integral (l_percent l)) ++ lit "%".

(** ** Characters that XML allows *)

(** A code unit that may stand in an XML 1.0 document (the production
    [Char]): a tab, a line feed, a carriage return, or any code unit from
    U+0020 on except U+FFFE and U+FFFF.  Whether the surrogates are paired
    is left out. *)
Definition xml_unit (c : codeunit) : bool :=
  N.eqb c 9 || N.eqb c 10 || N.eqb c 13
  || ((32 <=? c)%N && negb (N.eqb c 65534) && negb (N.eqb c 65535)).

(** Text that holds no code unit that XML forbids: what well-formed markup
    is, at the least. *)
Definition xml_text (s : jsstring) : bool := forallb xml_unit s.

End Spec.

(* ================================================================== *)
(** * Sample data *)
(* ================================================================== *)

Module Samples.

Import Stats.
Open Scope Z_scope.

(** The tally of scenario C. *)
Definition scenario_C : JsObject.t :=
  [(lit "Go", 300); (lit "Rust", 100); (lit "TS", 100)].

Definition go_edge (n : Z) : option LanguageEdge :=
  Some {| edge_size := Some n;
          edge_node := Some {| node_name := Some (lit "Go") |} |}.

Definition live_repo : option Repo :=
  Some {| isArchived := false; history_totalCount := Some 10;
          languages_edges := Some [go_edge 300] |}.

Definition archived_repo : option Repo :=
  Some {| isArchived := true; history_totalCount := Some 5000;
          languages_edges := Some [go_edge 999999] |}.

(** A remote end with pages without end. *)
Definition endless : Api :=
  fun n _ =>
    Data (Some {| user_name := Some (lit "Mona");
                  followers_totalCount := Some 7;
                  repositories :=
                    Some {| pageInfo :=
                              Some {| hasNextPage := true;
                                      endCursor := Some (decimal (N.of_nat n)) |};
                            totalCount := Some 500;
                            nodes := Some [live_repo] |} |}).

Definition octocat : jsstring := lit "octocat".

Definition one_language : RenderInput :=
  {| name := lit "Mona"; followers := 12; publicRepos := 3;
     totalCommitsApprox := 456;
     topLangs := [ {| l_name := lit "Go"; l_percent := IntVal 100 |} ] |}.

(** A user without a display name, a remote end that answers with it in
    one page, and the state the loop ends in. *)
Definition nameless_user : option User :=
  Some {| user_name := None;
          followers_totalCount := Some 7;
          repositories :=
            Some {| pageInfo :=
                      Some {| hasNextPage := false; endCursor := None |};
                    totalCount := Some 1;
                    nodes := Some [] |} |}.

Definition nameless : Api := fun _ _ => Data nameless_user.

Definition nameless_state : FetchState :=
  {| after := None; allRepos := []; userName := [];
     fetchedFollowers := 7; fetchedPublicRepos := 1 |}.

(** A repository whose second language has a name that reads as an array
    index. *)
Definition index_named_repo : option Repo :=
  Some {| isArchived := false; history_totalCount := Some 3;
          languages_edges :=
            Some [ Some {| edge_size := Some 1;
                           edge_node :=
                             Some {| node_name := Some (lit "B") |} |};
                   Some {| edge_size := Some 1;
                           edge_node :=
                             Some {| node_name := Some (lit "0") |} |} ] |}.

Definition go_60 : TopLang := {| l_name := lit "Go"; l_percent := IntVal 60 |}.

Definition two_languages : RenderInput :=
  {| name := lit "Mona"; followers := 12; publicRepos := 3;
     totalCommitsApprox := 456;
     topLangs := [ go_60; {| l_name := lit "Rust"; l_percent := IntVal 40 |} ] |}.

(** A display name that holds the control character U+0001. *)
Definition control_named : RenderInput :=
  {| name := [65%N; 1%N]; followers := 0; publicRepos := 0;
     totalCommitsApprox := 0; topLangs := [] |}.

End Samples.

(* ================================================================== *)
(** * The rest of the script *)
(* ================================================================== *)

Module Gql.

Import Stats.

(** What [gql] sees of the reply to its POST: [res.ok], whether
    [json.errors] is truthy, and [json.data] with its [user] field
    ([None] for a [data] that is [null] or missing). *)
Record Reply := {
  res_ok : bool;
  json_errors : bool;
  json_data : option (option User)
}.

(** An exchange with the endpoint: [fetch] or [res.json()] rejected or the
    body was [null], so that [gql] throws before its test; or a reply was
    read. *)
Inductive Exchange :=
  | Rejected
  | Answered (r : Reply).

(** [gql(query, variables)] and the [data.user] that [main] reads from its
    result: a reply that is not ok or that carries errors throws in [gql], a
    reply without [data] throws at [data.user]. *)
Definition gql (x : Exchange) : Response :=
  match x with
  | Rejected => Throws
  | Answered r =>
      if negb (res_ok r) || json_errors r then Throws
      else
        match json_data r with
        | Some user => Data user
        | None => Throws
        end
  end.

(** The endpoint: the exchange that the [n]-th request with the cursor
    [after] leads to. *)
Definition Network : Type := nat -> option jsstring -> Exchange.

Definition api_of (net : Network) : Api := fun n a => gql (net n a).

End Gql.

Module SpecX.

Import Stats Spec.
Open Scope Z_scope.

(** ** Fetching *)

(** [pi.endCursor] of a response, [None] without page info. *)
Definition cursor_of (r : Response) : option jsstring :=
  match r with
  | Throws => None
  | Data user =>
      match user_repositories user with
      | Some rs =>
          match pageInfo rs with
          | Some p => endCursor p
          | None => None
          end
      | None => None
      end
  end.

(** [user?.repositories?.nodes ?? []] of a response. *)
Definition nodes_of (r : Response) : list (option Repo) :=
  match r with
  | Throws => []
  | Data user =>
      nullish (match user_repositories user with
               | Some rs => nodes rs
               | None => None
               end) []
  end.

(** The responses to the requests of a trace, request [i] being the
    [(page + i)]-th. *)
Fixpoint responses_from (gql : Api) (page : nat)
  (reqs : list (option jsstring)) : list Response :=
  match reqs with
  | [] => []
  | a :: reqs' => gql page a :: responses_from gql (S page) reqs'
  end.

Definition responses (gql : Api) (reqs : list (option jsstring))
  : list Response :=
  responses_from gql 0 reqs.

(** ** Aggregation *)

(** What a repository adds to the commit total. *)
Definition commits_of (r : option Repo) : Z :=
  match r with
  | None => 0
  | Some r' => if isArchived r' then 0 else nullish (history_totalCount r') 0
  end.

(** The name and size that an edge is counted with, if it is counted. *)
Definition edge_count (e : option LanguageEdge) : option (jsstring * Z) :=
  match edge_name e with
  | Some n =>
      Some (n, nullish (match e with
                        | Some e' => edge_size e'
                        | None => None
                        end) 0)
  | None => None
  end.

(** The counted edges of the repositories that are not passed over, in
    order. *)
Definition counted_edges (edges : list (option LanguageEdge))
  : list (jsstring * Z) :=
  flat_map (fun e => match edge_count e with Some p => [p] | None => [] end)
           edges.

Definition counted_of (r : option Repo) : list (jsstring * Z) :=
  match r with
  | None => []
  | Some r' =>
      if isArchived r' then []
      else counted_edges (nullish (languages_edges r') [])
  end.

Definition counted (repos : list (option Repo)) : list (jsstring * Z) :=
  flat_map counted_of repos.

(** The sum of the sizes counted under the name [n], [None] when there is
    none. *)
Definition size_under (n : jsstring) (l : list (jsstring * Z)) : option Z :=
  match filter (fun p => eqb n (fst p)) l with
  | [] => None
  | ps => Some (fold_right (fun p s => snd p + s) 0 ps)
  end.

(** One counted edge: the assignment
    [langSizes[name] = (langSizes[name] ?? 0) + size]. *)
Definition count_pair (o : JsObject.t) (p : jsstring * Z) : JsObject.t :=
  JsObject.set o (fst p) (nullish (JsObject.get o (fst p)) 0 + snd p).

(** Two sums of sizes put together, [None] standing for no size. *)
Definition merge_size (a b : option Z) : option Z :=
  match a, b with
  | Some x, Some y => Some (x + y)
  | Some x, None => Some x
  | None, _ => b
  end.

(** The names of a sequence without the later repeats of a name. *)
Fixpoint keep_first (names : list jsstring) : list jsstring :=
  match names with
  | [] => []
  | n :: names' =>
      n :: filter (fun m => negb (eqb m n)) (keep_first names')
  end.

(** ** Percentages *)

(** The integer that a percentage holds, 0 when it is none. *)
Definition percent_value (p : integral) : Z :=
  match p with IntVal z => z | _ => 0 end.

Definition percent_sum (l : list TopLang) : Z :=
  fold_right (fun x s => percent_value (l_percent x) + s) 0 l.

(** ** Formatted numbers *)

(** Reading a formatted number back: the sign, and the digits without the
    commas. *)
Definition unformat (s : jsstring) : Z :=
  let value ds :=
    Z.of_N (JsObject.digits_value
              (filter (fun c => negb (N.eqb c 44)) ds)) in
  match s with
  | c :: ds => if N.eqb c 45 then - value ds else value s
  | [] => 0
  end.

(** One step of reading a decimal numeral. *)
Definition digit_step (acc c : N) : N := (10 * acc + (c - 48))%N.

(** ** Exact sums *)

(** The numbers of a list are not negative and add up to less than 2^53:
    they are added without rounding, in any order. *)
Definition exact_sum (l : list Z) : Prop :=
  Forall (fun z => 0 <= z) l /\ fold_right Z.add 0 l < 2 ^ 53.

End SpecX.

(* ================================================================== *)
(** * The tally as a plain object *)
(* ================================================================== *)

Module PlainObject.

Import Stats Spec SpecX.
Open Scope Z_scope.

(** [langSizes] is created as [{}], so its prototype is [Object.prototype]:
    [langSizes[name]] finds what [Object.prototype] defines when [name] is
    no own property, and the additions are those of Numbers.  This module
    embeds the aggregation loop with both; [Stats.aggregate] is the same
    loop on names that [Object.prototype] does not define and on sums that
    stay exact. *)

(** What a property of [langSizes] can hold: a Number, or a String once a
    name that [Object.prototype] defines has been counted.  The text of
    such a String is left out: it starts with the text of a built-in
    function, which is implementation-defined, and nothing in the loop
    depends on it. *)
Inductive value :=
  | Num (x : spec_float)
  | Str.

(** The own properties, in the order in which they were created. *)
Definition t := list (jsstring * value).

Fixpoint own (o : t) (k : jsstring) : option value :=
  match o with
  | [] => None
  | (k', v) :: o' => if eqb k k' then Some v else own o' k
  end.

(** An own property is written: an existing one keeps its place, a new one
    goes last. *)
Fixpoint define (o : t) (k : jsstring) (v : value) : t :=
  match o with
  | [] => [(k, v)]
  | (k', v') :: o' =>
      if eqb k k' then (k, v) :: o' else (k', v') :: define o' k v
  end.

(** The function-valued properties of [Object.prototype]. *)
Definition methods : list jsstring :=
  [ lit "constructor"; lit "hasOwnProperty"; lit "isPrototypeOf";
    lit "propertyIsEnumerable"; lit "toLocaleString"; lit "toString";
    lit "valueOf"; lit "__defineGetter__"; lit "__defineSetter__";
    lit "__lookupGetter__"; lit "__lookupSetter__" ].

(** Its one accessor property. *)
Definition proto : jsstring := lit "__proto__".

(** A name that [Object.prototype] does not define. *)
Definition ordinary (k : jsstring) : bool :=
  negb (eqb k proto) && negb (existsb (eqb k) methods).

(** What [langSizes[k]] evaluates to. *)
Inductive found :=
  | Undefined
  | Own (v : value)
  | Method
  | ObjectPrototype.

Definition get (o : t) (k : jsstring) : found :=
  match own o k with
  | Some v => Own v
  | None =>
      if eqb k proto then ObjectPrototype
      else if existsb (eqb k) methods then Method
      else Undefined
  end.

(** [langSizes[k] = v] for a Number or String [v]: the setter of
    [__proto__] ignores a value that is no object; under any other name an
    own property is written. *)
Definition set (o : t) (k : jsstring) (v : value) : t :=
  match own o k with
  | Some _ => define o k v
  | None => if eqb k proto then o else define o k v
  end.

(** [x + y] on Numbers. *)
Definition add (x y : spec_float) : spec_float := SFadd prec emax x y.

(** [(langSizes[k] ?? 0) + size]: a sum of Numbers, or a String when the
    left operand is a String, a function or [Object.prototype]. *)
Definition plus (x : found) (size : Z) : value :=
  match x with
  | Undefined => Num (add (toNumber 0) (toNumber size))
  | Own (Num v) => Num (add v (toNumber size))
  | Own Str => Str
  | Method => Str
  | ObjectPrototype => Str
  end.

(** The body of [for (const e of edges)]. *)
Definition add_edge (langSizes : t) (e : option LanguageEdge) : t :=
  let name :=
    match e with
    | Some e' =>
        match edge_node e' with Some n => node_name n | None => None end
    | None => None
    end in
  let size :=
    nullish (match e with Some e' => edge_size e' | None => None end) 0 in
  match name with
  | None => langSizes
  | Some [] => langSizes
  | Some n => set langSizes n (plus (get langSizes n) size)
  end.

(** The body of [for (const r of allRepos)]. *)
Definition add_repo (st : spec_float * t) (r : option Repo)
  : spec_float * t :=
  match r with
  | None => st
  | Some r' =>
      if isArchived r' then st
      else
        let repoCommitCount := nullish (history_totalCount r') 0 in
        let edges := nullish (languages_edges r') [] in
        (add (fst st) (toNumber repoCommitCount),
         fold_left add_edge edges (snd st))
  end.

Definition aggregate (allRepos : list (option Repo)) : spec_float * t :=
  fold_left add_repo allRepos (toNumber 0, []).

(** A tally of integers as a plain object. *)
Definition embed (o : JsObject.t) : t :=
  map (fun p => (fst p, Num (toNumber (snd p)))) o.

End PlainObject.

Module SamplesX.

Import Stats Gql Samples.
Open Scope Z_scope.

(** The state the loop ends in at the remote end [endless]. *)
Definition endless_state : FetchState :=
  {| after := Some (lit "2");
     allRepos := [live_repo; live_repo; live_repo];
     userName := lit "Mona";
     fetchedFollowers := 7;
     fetchedPublicRepos := 500 |}.

(** The first response of [endless]. *)
Definition endless_user : option User :=
  Some {| user_name := Some (lit "Mona");
          followers_totalCount := Some 7;
          repositories :=
            Some {| pageInfo :=
                      Some {| hasNextPage := true;
                              endCursor := Some (lit "0") |};
                    totalCount := Some 500;
                    nodes := Some [live_repo] |} |}.

(** An endpoint that answers every request with the nameless user. *)
Definition sound_net : Network :=
  fun _ _ =>
    Answered {| res_ok := true; json_errors := false;
                json_data := Some nameless_user |}.

(** The first response of a user with a display name that needs
    escaping. *)
Definition named_user : option User :=
  Some {| user_name := Some (lit "R&D");
          followers_totalCount := Some 7;
          repositories :=
            Some {| pageInfo :=
                      Some {| hasNextPage := false; endCursor := None |};
                    totalCount := Some 1;
                    nodes := Some [] |} |}.

Definition named : Api := fun _ _ => Data named_user.

Definition named_state : FetchState :=
  {| after := None; allRepos := []; userName := lit "R&D";
     fetchedFollowers := 7; fetchedPublicRepos := 1 |}.

(** A tally of seven languages. *)
Definition seven_tally : JsObject.t :=
  [(lit "a", 7); (lit "b", 6); (lit "c", 5); (lit "d", 4);
   (lit "e", 3); (lit "f", 2); (lit "g", 1)].

(** A repository with one edge named [constructor], and one with an edge
    named [__proto__]. *)
Definition constructor_repo : option Repo :=
  Some {| isArchived := false; history_totalCount := Some 1;
          languages_edges :=
            Some [ Some {| edge_size := Some 5;
                           edge_node :=
                             Some {| node_name :=
                                       Some (lit "constructor") |} |} ] |}.

Definition proto_repo : option Repo :=
  Some {| isArchived := false; history_totalCount := Some 1;
          languages_edges :=
            Some [ Some {| edge_size := Some 5;
                           edge_node :=
                             Some {| node_name := Some (lit "__proto__") |} |} ] |}.

End SamplesX.

(* ================================================================== *)
(** * Properties of the JavaScript primitives *)
(* ================================================================== *)

Module JsStringFacts.

Lemma eqb_eq a b : eqb a b = true <-> a = b.
Proof.
  unfold eqb. destruct (list_eq_dec N.eq_dec a b); split; congruence.
Qed.

Lemma eqb_refl a : eqb a a = true.
Proof. now apply eqb_eq. Qed.

Lemma eqb_neq a b : eqb a b = false <-> a <> b.
Proof.
  unfold eqb. destruct (list_eq_dec N.eq_dec a b); split; congruence.
Qed.

End JsStringFacts.

(** ** Binary64 rounding

    The rounding of [SpecFloat] shifts the mantissa to 53 bits, keeping a
    round bit and a sticky bit, and rounds to nearest even.  The lemmas below
    bound its result from above by a value that the format represents. *)

Module Binary64.

Import Spec.
Local Open Scope Z_scope.
Lemma digits2_pos_size p : digits2_pos p = Pos.size p.
Proof. induction p; simpl; congruence. Qed.

Lemma Zdigits2_bound m k :
  0 <= m -> 0 <= k -> m < 2 ^ k -> Zdigits2 m <= k.
Proof.
  intros Hm Hk Hlt. destruct m as [|p|p]; simpl; try lia.
  rewrite digits2_pos_size.
  destruct (Z_le_gt_dec (Zpos (Pos.size p)) k) as [|Hgt]; [assumption|].
  exfalso.
  assert (Hle : (2 ^ Pos.size p <= p~0)%positive) by apply Pos.size_le.
  assert (Hz : 2 ^ Zpos (Pos.size p) <= 2 * Zpos p).
  { rewrite <- Pos2Z.inj_pow. change (2 * Zpos p) with (Zpos p~0).
    now apply Pos2Z.pos_le_pos. }
  assert (Hpow : 2 ^ (k + 1) <= 2 ^ Zpos (Pos.size p))
    by (apply Z.pow_le_mono_r; lia).
  rewrite Z.pow_add_r in Hpow by lia. lia.
Qed.

Lemma shr_1_m r : 0 <= shr_m r -> shr_m (shr_1 r) = shr_m r / 2.
Proof.
  destruct r as [m b s]; simpl. intros Hm.
  destruct m as [|[p|p|]|p]; cbn [shr_m shr_1]; try reflexivity; try lia.
  - apply Z.div_unique with (r := 1); lia.
  - apply Z.div_unique with (r := 0); lia.
Qed.

Lemma shr_1_inexact r q :
  0 <= shr_m r -> inexact r = false -> shr_m r = 2 * q ->
  inexact (shr_1 r) = false.
Proof.
  destruct r as [m b s]; unfold inexact; cbn [shr_m shr_r shr_s].
  intros Hm Hb Hq.
  apply orb_false_iff in Hb as [-> ->].
  destruct m as [|[p|p|]|p]; cbn [shr_m] in *;
    [ reflexivity
    | exfalso; rewrite (Pos2Z.inj_xI p) in Hq; lia
    | reflexivity
    | exfalso; lia
    | exfalso; lia ].
Qed.

Lemma iter_shr_1_m p : forall r,
  0 <= shr_m r -> shr_m (iter_pos shr_1 p r) = shr_m r / 2 ^ Zpos p.
Proof.
  induction p as [p IH|p IH|]; intros r Hr; simpl iter_pos.
  - assert (H1 : 0 <= shr_m (shr_1 r))
      by (rewrite shr_1_m by assumption; apply Z.div_pos; lia).
    assert (H2 : 0 <= shr_m (iter_pos shr_1 p (shr_1 r)))
      by (rewrite IH by assumption; apply Z.div_pos; lia).
    rewrite IH, IH, shr_1_m by assumption.
    rewrite !Z.div_div by lia. f_equal.
    rewrite (Pos2Z.inj_xI p), Z.pow_add_r, Z.pow_1_r by lia.
    replace (2 * Zpos p) with (Zpos p + Zpos p) by lia.
    rewrite Z.pow_add_r by lia. ring.
  - assert (H2 : 0 <= shr_m (iter_pos shr_1 p r))
      by (rewrite IH by assumption; apply Z.div_pos; lia).
    rewrite IH, IH by assumption.
    rewrite Z.div_div by lia. f_equal.
    rewrite (Pos2Z.inj_xO p).
    replace (2 * Zpos p) with (Zpos p + Zpos p) by lia.
    rewrite Z.pow_add_r by lia. ring.
  - rewrite shr_1_m by assumption. now rewrite Z.pow_1_r.
Qed.

Lemma iter_shr_1_inexact p : forall r q,
  0 <= shr_m r -> inexact r = false -> shr_m r = q * 2 ^ Zpos p ->
  inexact (iter_pos shr_1 p r) = false.
Proof.
  induction p as [p IH|p IH|]; intros r q Hr Hb Hq; simpl iter_pos.
  - rewrite (Pos2Z.inj_xI p), Z.pow_add_r, Z.pow_1_r in Hq by lia.
    replace (2 * Zpos p) with (Zpos p + Zpos p) in Hq by lia.
    rewrite Z.pow_add_r in Hq by lia.
    assert (H1 : 0 <= shr_m (shr_1 r))
      by (rewrite shr_1_m by assumption; apply Z.div_pos; lia).
    assert (E1 : shr_m (shr_1 r) = q * 2 ^ Zpos p * 2 ^ Zpos p).
    { rewrite shr_1_m by assumption. rewrite Hq.
      symmetry. apply Z.div_unique with (r := 0); lia. }
    assert (B1 : inexact (shr_1 r) = false).
    { apply shr_1_inexact with (q := q * 2 ^ Zpos p * 2 ^ Zpos p);
        [assumption|assumption|lia]. }
    assert (H2 : 0 <= shr_m (iter_pos shr_1 p (shr_1 r)))
      by (rewrite iter_shr_1_m by assumption; apply Z.div_pos; lia).
    apply IH with (q := q).
    + assumption.
    + apply IH with (q := q * 2 ^ Zpos p); assumption.
    + rewrite iter_shr_1_m, E1 by assumption.
      apply Z.div_mul. lia.
  - rewrite (Pos2Z.inj_xO p) in Hq.
    replace (2 * Zpos p) with (Zpos p + Zpos p) in Hq by lia.
    rewrite Z.pow_add_r in Hq by lia.
    assert (H2 : 0 <= shr_m (iter_pos shr_1 p r))
      by (rewrite iter_shr_1_m by assumption; apply Z.div_pos; lia).
    apply IH with (q := q).
    + assumption.
    + apply IH with (q := q * 2 ^ Zpos p); [assumption|assumption|lia].
    + rewrite iter_shr_1_m, Hq by assumption.
      rewrite Z.mul_assoc. apply Z.div_mul. lia.
  - rewrite Z.pow_1_r in Hq.
    apply shr_1_inexact with (q := q); [assumption|assumption|lia].
Qed.

Lemma shr_record_of_loc_m m l : shr_m (shr_record_of_loc m l) = m.
Proof. destruct l as [|[| |]]; reflexivity. Qed.

Lemma loc_of_shr_record_of_loc m l :
  loc_of_shr_record (shr_record_of_loc m l) = l.
Proof. destruct l as [|[| |]]; reflexivity. Qed.

Lemma loc_exact_of_exact r :
  inexact r = false -> loc_of_shr_record r = loc_Exact.
Proof.
  destruct r as [m [|] [|]]; unfold inexact; simpl; congruence.
Qed.

Lemma inexact_of_loc_exact m :
  inexact (shr_record_of_loc m loc_Exact) = false.
Proof. reflexivity. Qed.

Lemma round_nearest_even_exact m : round_nearest_even m loc_Exact = m.
Proof. reflexivity. Qed.

Lemma round_nearest_even_bounds m l :
  m <= round_nearest_even m l <= m + 1.
Proof.
  destruct l as [|[| |]]; simpl; try lia. destruct (Z.even m); lia.
Qed.

Lemma fexp_nonpos c m e :
  1 <= c < 2 ^ 52 -> 0 <= m -> e <= 0 -> m <= c * 2 ^ (- e) ->
  fexp prec emax (Zdigits2 m + e) <= 0.
Proof.
  intros Hc Hm He Hle.
  assert (Hp : 0 < 2 ^ (- e)) by (apply Z.pow_pos_nonneg; lia).
  assert (Hd : Zdigits2 m <= 52 - e).
  { apply Zdigits2_bound; [assumption|lia|].
    replace (52 - e) with (52 + - e) by lia.
    rewrite Z.pow_add_r by lia. nia. }
  unfold fexp, SpecFloat.emin, prec, emax. lia.
Qed.

Lemma shr_fexp_below c m e l :
  1 <= c < 2 ^ 52 -> 0 <= m -> e <= 0 ->
  (l = loc_Exact /\ m <= c * 2 ^ (- e)) \/ m < c * 2 ^ (- e) ->
  exists r e',
    shr_fexp prec emax m e l = (r, e') /\ 0 <= shr_m r /\ e' <= 0 /\
    ((loc_of_shr_record r = loc_Exact /\ shr_m r <= c * 2 ^ (- e'))
     \/ shr_m r < c * 2 ^ (- e')).
Proof.
  intros Hc Hm He Hb.
  assert (Hle : m <= c * 2 ^ (- e)) by (destruct Hb as [[_ ?]|?]; lia).
  pose proof (fexp_nonpos Hc Hm He Hle) as Hf.
  unfold shr_fexp, shr.
  remember (fexp prec emax (Zdigits2 m + e)) as e1 eqn:E1.
  destruct (e1 - e) as [|p|p] eqn:En.
  - exists (shr_record_of_loc m l), e.
    rewrite shr_record_of_loc_m, loc_of_shr_record_of_loc.
    repeat split; try assumption.
  - exists (iter_pos shr_1 p (shr_record_of_loc m l)), (e + Zpos p).
    assert (Hr0 : 0 <= shr_m (shr_record_of_loc m l))
      by now rewrite shr_record_of_loc_m.
    rewrite iter_shr_1_m, shr_record_of_loc_m by assumption.
    assert (Hpp : 0 < 2 ^ Zpos p) by (apply Z.pow_pos_nonneg; lia).
    assert (Hsplit : 2 ^ (- e) = 2 ^ (- (e + Zpos p)) * 2 ^ Zpos p).
    { rewrite <- Z.pow_add_r by lia. f_equal. lia. }
    split; [reflexivity|].
    split; [apply Z.div_pos; lia|].
    split; [lia|].
    destruct Hb as [[-> Hb]|Hb].
    + destruct (Z.eq_dec m (c * 2 ^ (- e))) as [Heq|Hne].
      * left. split.
        -- apply loc_exact_of_exact.
           apply iter_shr_1_inexact with (q := c * 2 ^ (- (e + Zpos p))).
           ++ assumption.
           ++ reflexivity.
           ++ rewrite shr_record_of_loc_m, Heq, Hsplit. ring.
        -- rewrite Heq, Hsplit, Z.mul_assoc, Z.div_mul by lia. lia.
      * right. apply Z.div_lt_upper_bound; [lia|].
        rewrite Hsplit in Hb. lia.
    + right. apply Z.div_lt_upper_bound; [lia|].
      rewrite Hsplit in Hb. lia.
  - exists (shr_record_of_loc m l), e.
    rewrite shr_record_of_loc_m, loc_of_shr_record_of_loc.
    repeat split; try assumption.
Qed.

Lemma binary_round_aux_below c mx ex lx :
  1 <= c < 2 ^ 52 -> 0 <= mx -> ex <= 0 ->
  (lx = loc_Exact /\ mx <= c * 2 ^ (- ex)) \/ mx < c * 2 ^ (- ex) ->
  below c (binary_round_aux prec emax false mx ex lx).
Proof.
  intros Hc Hm He Hb. unfold binary_round_aux.
  destruct (shr_fexp_below Hc Hm He Hb)
    as (r1 & e1 & -> & Hr1 & He1 & Hb1).
  pose proof (round_nearest_even_bounds (shr_m r1) (loc_of_shr_record r1))
    as Hrne.
  set (m2 := round_nearest_even (shr_m r1) (loc_of_shr_record r1)) in *.
  assert (Hm2 : 0 <= m2) by lia.
  assert (Hb2 : (loc_Exact = loc_Exact /\ m2 <= c * 2 ^ (- e1))
                \/ m2 < c * 2 ^ (- e1)).
  { left. split; [reflexivity|].
    destruct Hb1 as [[Hex Hle]|Hlt]; [|lia].
    unfold m2. rewrite Hex, round_nearest_even_exact. assumption. }
  destruct (shr_fexp_below Hc Hm2 He1 Hb2)
    as (r3 & e3 & -> & Hr3 & He3 & Hb3).
  destruct (shr_m r3) as [|m3|m3] eqn:E3; cbn [below]; [exact I| |lia].
  replace (e3 <=? emax - prec) with true
    by (symmetry; apply Z.leb_le; unfold emax, prec; lia).
  cbn [below]. split; [assumption|]. destruct Hb3 as [[_ ?]|?]; lia.
Qed.

Lemma digits2_pos_range m :
  2 ^ (Zpos (digits2_pos m) - 1) <= Zpos m < 2 ^ Zpos (digits2_pos m).
Proof.
  rewrite digits2_pos_size. split.
  - assert (Hle : (2 ^ Pos.size m <= m~0)%positive) by apply Pos.size_le.
    apply Pos2Z.pos_le_pos in Hle.
    rewrite Pos2Z.inj_pow, (Pos2Z.inj_xO m) in Hle.
    replace (Zpos (Pos.size m)) with (Zpos (Pos.size m) - 1 + 1) in Hle
      by lia.
    rewrite Z.pow_add_r, Z.pow_1_r in Hle by lia. lia.
  - assert (Hgt : (m < 2 ^ Pos.size m)%positive) by apply Pos.size_gt.
    apply Pos2Z.pos_lt_pos in Hgt. now rewrite Pos2Z.inj_pow in Hgt.
Qed.

Lemma iter_xO_spec p k :
  Zpos (Pos.iter xO p k) = Zpos p * 2 ^ Zpos k
  /\ digits2_pos (Pos.iter xO p k) = (digits2_pos p + k)%positive.
Proof.
  induction k as [|k [IH1 IH2]] using Pos.peano_ind.
  - split; [cbn [Pos.iter]; lia|]. cbn [Pos.iter digits2_pos].
    now rewrite Pos.add_1_r.
  - rewrite Pos.iter_succ. split.
    + rewrite (Pos2Z.inj_xO (Pos.iter xO p k)), IH1, Pos2Z.inj_succ.
      rewrite Z.pow_succ_r by lia. ring.
    + cbn [digits2_pos]. rewrite IH2. lia.
Qed.

Lemma binary_round_aux_canonical m e :
  fexp prec emax (Zpos (digits2_pos m) + e) = e -> e <= emax - prec ->
  binary_round_aux prec emax false (Zpos m) e loc_Exact
  = S754_finite false m e.
Proof.
  intros Hc He. unfold binary_round_aux, shr_fexp.
  cbn [Zdigits2 shr_record_of_loc round_nearest_even].
  rewrite Hc, Z.sub_diag. cbn [shr shr_m loc_of_shr_record
    round_nearest_even Zdigits2 shr_record_of_loc].
  rewrite Hc, Z.sub_diag. cbn [shr shr_m].
  apply Z.leb_le in He. now rewrite He.
Qed.

(** A positive integer below 2^53 is a Number with a mantissa of 53 bits. *)
Lemma toNumber_pos z :
  0 < z < 2 ^ 53 ->
  exists m e,
    toNumber z = S754_finite false m e /\ -52 <= e <= 0
    /\ Zpos m = z * 2 ^ (- e) /\ digits2_pos m = 53%positive.
Proof.
  intros [Hz0 Hz]. destruct z as [|p|p]; try lia.
  pose proof (digits2_pos_range p) as [Hlo Hhi].
  set (d := digits2_pos p) in *.
  assert (Hd : (Zpos d <= 53)).
  { destruct (Z_le_gt_dec (Zpos d) 53); [assumption|]. exfalso.
    assert (2 ^ 53 <= 2 ^ (Zpos d - 1)) by (apply Z.pow_le_mono_r; lia).
    lia. }
  unfold toNumber, binary_normalize, binary_round, shl_align.
  fold d.
  assert (Hf : fexp prec emax (Zpos d + 0) = Zpos d - 53)
    by (unfold fexp, SpecFloat.emin, prec, emax; lia).
  rewrite Hf.
  destruct (Zpos d - 53 - 0) as [|k|k] eqn:Ek; try lia.
  - exists p, 0. rewrite binary_round_aux_canonical.
    + repeat split; first [lia | fold d; lia].
    + fold d. unfold fexp, SpecFloat.emin, prec, emax; lia.
    + unfold emax, prec; lia.
  - destruct (iter_xO_spec p k) as [Hv Hdig]. fold d in Hdig.
    exists (Pos.iter xO p k), (Zpos d - 53).
    rewrite binary_round_aux_canonical.
    + repeat split; try lia.
      rewrite Hv. do 2 f_equal. lia.
    + rewrite Hdig. unfold fexp, SpecFloat.emin, prec, emax; lia.
    + unfold emax, prec; lia.
Qed.

Lemma new_location_exact n : new_location n 0 = loc_Exact.
Proof.
  unfold new_location, new_location_even, new_location_odd.
  now destruct (Z.even n).
Qed.

Lemma new_location_inexact n r :
  new_location n r = loc_Exact -> r = 0.
Proof.
  unfold new_location, new_location_even, new_location_odd.
  destruct (Z.even n); destruct (Z.eqb_spec r 0); congruence.
Qed.

(** The quotient of two positive integers below 2^53, the first at most the
    second, is at most 1. *)
Lemma div_below_1 s t :
  0 < s -> s <= t -> t < 2 ^ 53 ->
  below 1 (div (toNumber s) (toNumber t)).
Proof.
  intros Hs Hst Ht.
  destruct (@toNumber_pos s) as (ms & es & -> & Hes & Hms & Hds); [lia|].
  destruct (@toNumber_pos t) as (mt & et & -> & Het & Hmt & Hdt); [lia|].
  pose proof (digits2_pos_range ms) as Rs. rewrite Hds in Rs.
  pose proof (digits2_pos_range mt) as Rt. rewrite Hdt in Rt.
  change (2 ^ (53 - 1)) with (2 ^ 52) in *.
  assert (Hpes : 0 < 2 ^ (- es)) by (apply Z.pow_pos_nonneg; lia).
  assert (Hpet : 0 < 2 ^ (- et)) by (apply Z.pow_pos_nonneg; lia).
  (* the exponents are ordered as the values are *)
  assert (Hee : es <= et).
  { destruct (Z_le_gt_dec es et); [assumption|]. exfalso.
    assert (Hsp : 2 ^ (- et) = 2 ^ (- es) * 2 ^ (es - et)).
    { rewrite <- Z.pow_add_r by lia. f_equal. lia. }
    assert (2 ^ 1 <= 2 ^ (es - et)) by (apply Z.pow_le_mono_r; lia).
    rewrite Z.pow_1_r in *.
    assert (Zpos ms * 2 ^ (- et) <= Zpos mt * 2 ^ (- es)).
    { rewrite Hms, Hmt. nia. }
    rewrite Hsp in *. nia. }
  assert (Hcross : Zpos ms <= Zpos mt * 2 ^ (et - es)).
  { assert (Hsp : 2 ^ (- es) = 2 ^ (- et) * 2 ^ (et - es)).
    { rewrite <- Z.pow_add_r by lia. f_equal. lia. }
    rewrite Hms, Hmt, Hsp. nia. }
  unfold div, SFdiv, SFdiv_core_binary. cbn [Zdigits2 xorb].
  rewrite Hds, Hdt.
  replace (Z.min (fexp prec emax (Zpos 53 + es - (Zpos 53 + et))) (es - et))
    with (es - et - 53)
    by (unfold fexp, SpecFloat.emin, prec, emax; lia).
  replace (es - et - (es - et - 53)) with 53 by lia.
  cbv iota.
  rewrite Z.shiftl_mul_pow2 by lia.
  pose proof (Z_div_mod (Zpos ms * 2 ^ 53) (Zpos mt) eq_refl) as Hdm.
  destruct (Z.div_eucl (Zpos ms * 2 ^ 53) (Zpos mt)) as [q r].
  destruct Hdm as [Hq Hr].
  assert (Hsp : 2 ^ (- (es - et - 53)) = 2 ^ 53 * 2 ^ (et - es)).
  { rewrite <- Z.pow_add_r by lia. f_equal. lia. }
  assert (Hpk : 0 < 2 ^ (et - es)) by (apply Z.pow_pos_nonneg; lia).
  apply binary_round_aux_below.
  - cbv; split; congruence.
  - nia.
  - lia.
  - rewrite Hsp, Z.mul_1_l.
    destruct (Z.eq_dec r 0) as [->|Hr0].
    + left. split; [apply new_location_exact|]. nia.
    + right. nia.
Qed.

Lemma toNumber_100 :
  toNumber 100 = S754_finite false 7036874417766400 (-46).
Proof. reflexivity. Qed.

(** A Number that is at most 1, times 100, is at most 100. *)
Lemma mul_100_below f :
  below 1 f -> below 100 (mul f (toNumber 100)).
Proof.
  rewrite toNumber_100. destruct f as [s|s| |[|] m e]; cbn [below];
    try contradiction.
  - intros _. exact I.
  - intros [He Hm]. unfold mul, SFmul. cbn [xorb].
    assert (Hp : 0 < 2 ^ (- e)) by (apply Z.pow_pos_nonneg; lia).
    apply binary_round_aux_below.
    + cbv; split; congruence.
    + lia.
    + lia.
    + left. split; [reflexivity|].
      replace (- (e + -46)) with (46 + - e) by lia.
      rewrite Z.pow_add_r, Pos2Z.inj_mul by lia.
      change (2 ^ 46) with 70368744177664. lia.
Qed.

(** [Math.round] of a Number that is at most 100 is an integer from 0 to
    100. *)
Lemma Math_round_below_100 f :
  below 100 f -> exists z, Math_round f = IntVal z /\ 0 <= z <= 100.
Proof.
  destruct f as [s|s| |[|] m e]; cbn [below]; try contradiction.
  - intros _. exists 0. split; [reflexivity|lia].
  - intros [He Hm]. unfold Math_round. destruct e as [|p|k]; try lia.
    + eexists. split; [reflexivity|].
      cbn [Z.opp] in Hm. rewrite Z.pow_0_r in *. lia.
    + eexists. split; [reflexivity|].
      cbn [Z.opp] in Hm.
      assert (Hp : 0 < 2 ^ Zpos k) by (apply Z.pow_pos_nonneg; lia).
      rewrite Z.pow_add_r, Z.pow_1_r by lia. split.
      * apply Z.div_pos; lia.
      * apply Z.lt_succ_r. apply Z.div_lt_upper_bound; lia.
Qed.

(** [Math.round] rounds to the nearest integer, a tie going up: the result
    [z] of rounding [v / 2^k] satisfies [z - 1/2 <= v / 2^k < z + 1/2]. *)
Lemma Math_round_half_up (s : bool) (m k : positive) :
  let v := if s then Zneg m else Zpos m in
  exists z,
    Math_round (S754_finite s m (Zneg k)) = IntVal z
    /\ (2 * z - 1) * 2 ^ Zpos k <= 2 * v < (2 * z + 1) * 2 ^ Zpos k.
Proof.
  intros v. cbn [Math_round]. fold v. eexists. split; [reflexivity|].
  assert (Hp : 0 < 2 ^ Zpos k) by (apply Z.pow_pos_nonneg; lia).
  rewrite Z.pow_add_r, Z.pow_1_r by lia.
  pose proof (Z.div_mod (2 * v + 2 ^ Zpos k) (2 ^ Zpos k * 2)) as Hdm.
  pose proof (Z.mod_pos_bound (2 * v + 2 ^ Zpos k) (2 ^ Zpos k * 2)) as Hmb.
  set (z := (2 * v + 2 ^ Zpos k) / (2 ^ Zpos k * 2)) in *.
  nia.
Qed.

Lemma toNumber_0 : toNumber 0 = S754_zero false.
Proof. reflexivity. Qed.

Lemma percent_of_zero t :
  0 < t < 2 ^ 53 -> Stats.percent_of 0 t = IntVal 0.
Proof.
  intros Ht. unfold Stats.percent_of. rewrite toNumber_0, toNumber_100.
  destruct (@toNumber_pos t Ht) as (m & e & -> & _). reflexivity.
Qed.

(** The percentage of a part of a whole is an integer from 0 to 100. *)
Lemma percent_of_range s t :
  0 <= s <= t -> 0 < t < 2 ^ 53 ->
  exists z, Stats.percent_of s t = IntVal z /\ 0 <= z <= 100.
Proof.
  intros Hs Ht. destruct (Z.eq_dec s 0) as [->|Hs0].
  - exists 0. split; [now apply percent_of_zero|lia].
  - unfold Stats.percent_of.
    apply Math_round_below_100, mul_100_below, div_below_1; lia.
Qed.

End Binary64.

(** ** The error of the binary64 percentage

    The lemmas above bound the result from one side.  Here the quotient and
    the product are bounded from both sides, which places the percentage
    that the script shows next to the exact one. *)

Module RoundingError.

Import Spec Binary64.
Local Open Scope Z_scope.

Lemma Zdigits2_eq m k :
  2 ^ (k - 1) <= m < 2 ^ k -> 0 < k -> Zdigits2 m = k.
Proof.
  intros [Hlo Hhi] Hk.
  assert (Hm : 0 < m).
  { assert (0 < 2 ^ (k - 1)) by (apply Z.pow_pos_nonneg; lia). lia. }
  destruct m as [|p|p]; try lia. cbn [Zdigits2].
  pose proof (digits2_pos_range p) as [Rlo Rhi].
  set (d := Zpos (digits2_pos p)) in *.
  destruct (Z.lt_trichotomy d k) as [Hlt|[Heq|Hgt]]; [|assumption|].
  - exfalso. assert (2 ^ d <= 2 ^ (k - 1)) by (apply Z.pow_le_mono_r; lia).
    lia.
  - exfalso. assert (2 ^ k <= 2 ^ (d - 1)) by (apply Z.pow_le_mono_r; lia).
    lia.
Qed.

Lemma shr_m_iter_1 r :
  0 <= shr_m r -> shr_m (iter_pos shr_1 1 r) = shr_m r / 2.
Proof. intros H. cbn [iter_pos]. now apply shr_1_m. Qed.

Lemma div_pow2_bounds q n :
  0 <= n -> (q / 2 ^ n) * 2 ^ n <= q < (q / 2 ^ n + 1) * 2 ^ n.
Proof.
  intros Hn. assert (Hp : 0 < 2 ^ n) by (apply Z.pow_pos_nonneg; lia).
  pose proof (Z.mul_div_le q (2 ^ n) Hp).
  pose proof (Z.mul_succ_div_gt q (2 ^ n) Hp). lia.
Qed.

(** A value and an approximation in one interval [[m1 * D, (m1 + 1) * D]]
    with [B <= m1] differ by at most the [B]-th part of the value. *)
Lemma relative_error B m1 A D X :
  0 <= B <= m1 -> 0 <= D ->
  m1 * D <= X < (m1 + 1) * D -> m1 <= A <= m1 + 1 ->
  B * Z.abs (A * D - X) <= X.
Proof.
  intros HB HD HX HA.
  assert (m1 * D <= A * D) by (apply Z.mul_le_mono_nonneg_r; lia).
  assert (A * D <= (m1 + 1) * D) by (apply Z.mul_le_mono_nonneg_r; lia).
  assert (Habs : Z.abs (A * D - X) <= D) by lia.
  assert (B * Z.abs (A * D - X) <= B * D)
    by (apply Z.mul_le_mono_nonneg_l; lia).
  assert (B * D <= m1 * D) by (apply Z.mul_le_mono_nonneg_r; lia).
  lia.
Qed.

(** The rounding of a mantissa of 53 bits or more, in the normal range: the
    mantissa is cut to 53 bits [mx / 2^n] and the result is that or the
    next, written with 53 bits again. *)
Lemma binary_round_aux_sandwich mx ex lx :
  2 ^ 52 <= mx ->
  -1074 <= Zdigits2 mx + ex - 53 <= 970 ->
  exists m e n k,
    binary_round_aux prec emax false mx ex lx = S754_finite false m e
    /\ 0 <= n /\ 0 <= k /\ e = ex + n + k
    /\ 2 ^ 52 <= mx / 2 ^ n
    /\ mx / 2 ^ n <= Zpos m * 2 ^ k <= mx / 2 ^ n + 1
    /\ 2 ^ 52 <= Zpos m < 2 ^ 53.
Proof.
  intros Hmx Hrange.
  assert (Hpos : 0 < mx) by (assert (0 < 2 ^ 52) by reflexivity; lia).
  set (d := Zdigits2 mx) in *.
  assert (Hd : 2 ^ (d - 1) <= mx < 2 ^ d).
  { destruct mx as [|p|p]; try lia. apply digits2_pos_range. }
  assert (Hd53 : 53 <= d).
  { destruct (Z_le_gt_dec 53 d); [assumption|]. exfalso.
    assert (2 ^ d <= 2 ^ 52) by (apply Z.pow_le_mono_r; lia). lia. }
  set (n := d - 53).
  assert (Hn : 0 <= n) by (unfold n; lia).
  assert (Hpn : 0 < 2 ^ n) by (apply Z.pow_pos_nonneg; lia).
  set (m1 := mx / 2 ^ n).
  assert (Hm1 : 2 ^ 52 <= m1 < 2 ^ 53).
  { unfold m1. split.
    - apply Z.div_le_lower_bound; [lia|].
      replace (2 ^ n * 2 ^ 52) with (2 ^ (d - 1))
        by (rewrite <- Z.pow_add_r by lia; f_equal; unfold n; lia).
      lia.
    - apply Z.div_lt_upper_bound; [lia|].
      replace (2 ^ n * 2 ^ 53) with (2 ^ d)
        by (rewrite <- Z.pow_add_r by lia; f_equal; unfold n; lia).
      lia. }
  (* the first shift *)
  unfold binary_round_aux.
  assert (Hfexp : fexp prec emax (d + ex) = ex + n)
    by (unfold fexp, SpecFloat.emin, prec, emax, n; lia).
  assert (Hs1 : exists r1,
            shr_fexp prec emax mx ex lx = (r1, ex + n) /\ shr_m r1 = m1).
  { unfold shr_fexp, shr. fold d. rewrite Hfexp.
    replace (ex + n - ex) with n by lia.
    destruct n as [|p|p] eqn:En; try lia.
    - exists (shr_record_of_loc mx lx). split; [do 2 f_equal; lia|].
      rewrite shr_record_of_loc_m. unfold m1. rewrite Z.pow_0_r.
      now rewrite Z.div_1_r.
    - exists (iter_pos shr_1 p (shr_record_of_loc mx lx)).
      split; [reflexivity|].
      rewrite iter_shr_1_m by (rewrite shr_record_of_loc_m; lia).
      now rewrite shr_record_of_loc_m. }
  destruct Hs1 as (r1 & Hs1 & Hr1). rewrite Hs1.
  pose proof (round_nearest_even_bounds (shr_m r1) (loc_of_shr_record r1))
    as Hrne.
  set (m2 := round_nearest_even (shr_m r1) (loc_of_shr_record r1)) in *.
  rewrite Hr1 in Hrne.
  (* the second shift *)
  destruct (Z_lt_le_dec m2 (2 ^ 53)) as [Hlt|Hge].
  - assert (Hd2 : Zdigits2 m2 = 53) by (apply Zdigits2_eq; lia).
    unfold shr_fexp. rewrite Hd2.
    replace (fexp prec emax (53 + (ex + n)) - (ex + n)) with 0
      by (unfold fexp, SpecFloat.emin, prec, emax; lia).
    cbn [shr shr_record_of_loc shr_m].
    destruct m2 as [|p2|p2]; try lia.
    replace (ex + n <=? emax - prec) with true
      by (symmetry; apply Z.leb_le; unfold emax, prec, n; lia).
    exists p2, (ex + n), n, 0.
    rewrite Z.pow_0_r, Z.mul_1_r. fold m1. repeat split; lia.
  - assert (Hm2 : m2 = 2 ^ 53) by lia.
    unfold shr_fexp. rewrite Hm2.
    change (Zdigits2 (2 ^ 53)) with 54.
    replace (fexp prec emax (54 + (ex + n)) - (ex + n)) with 1
      by (unfold fexp, SpecFloat.emin, prec, emax; lia).
    cbn [shr shr_record_of_loc].
    change (shr_m (iter_pos shr_1 1
                     {| shr_m := 2 ^ 53; shr_r := false; shr_s := false |}))
      with (Zpos 4503599627370496).
    cbv iota beta.
    replace (ex + n + 1 <=? emax - prec) with true
      by (symmetry; apply Z.leb_le; unfold emax, prec, n; lia).
    exists 4503599627370496%positive, (ex + n + 1), n, 1.
    fold m1. rewrite Z.pow_1_r.
    change (Zpos 4503599627370496 * 2) with (2 ^ 53).
    change (Zpos 4503599627370496) with (2 ^ 52).
    repeat split; lia.
Qed.

(** The quotient of two positive integers below 2^53 is a Number within
    2^-52 of their ratio, relatively: with the Number [ma / pa],
    [2^52 * |ma * t - s * pa| <= s * pa]. *)
Lemma div_error s t :
  0 < s -> s <= t -> t < 2 ^ 53 ->
  exists ma ea,
    div (toNumber s) (toNumber t) = S754_finite false ma ea
    /\ -105 <= ea <= 0
    /\ 2 ^ 52 <= Zpos ma < 2 ^ 53
    /\ 2 ^ 52 * Z.abs (Zpos ma * t - s * 2 ^ (- ea)) <= s * 2 ^ (- ea).
Proof.
  intros Hs Hst Ht.
  pose proof (div_below_1 Hs Hst Ht) as Hbelow.
  destruct (@toNumber_pos s) as (ms & es & Es & Hes & Hms & Hds); [lia|].
  destruct (@toNumber_pos t) as (mt & et & Et & Het & Hmt & Hdt); [lia|].
  rewrite Es, Et in *.
  pose proof (digits2_pos_range ms) as Rs. rewrite Hds in Rs.
  pose proof (digits2_pos_range mt) as Rt. rewrite Hdt in Rt.
  change (2 ^ (53 - 1)) with (2 ^ 52) in *.
  unfold div, SFdiv, SFdiv_core_binary in *. cbn [Zdigits2 xorb] in *.
  rewrite Hds, Hdt in *.
  replace (Z.min (fexp prec emax (Zpos 53 + es - (Zpos 53 + et))) (es - et))
    with (es - et - 53) in *
    by (unfold fexp, SpecFloat.emin, prec, emax; lia).
  replace (es - et - (es - et - 53)) with 53 in * by lia.
  cbv iota in *.
  rewrite Z.shiftl_mul_pow2 in * by lia.
  pose proof (Z_div_mod (Zpos ms * 2 ^ 53) (Zpos mt) eq_refl) as Hdm.
  destruct (Z.div_eucl (Zpos ms * 2 ^ 53) (Zpos mt)) as [q1 r1].
  destruct Hdm as [Hq Hr].
  assert (Hq52 : 2 ^ 52 <= q1).
  { destruct (Z_le_gt_dec (2 ^ 52) q1) as [|Hgt]; [assumption|]. exfalso.
    assert (Zpos mt * q1 <= Zpos mt * (2 ^ 52 - 1))
      by (apply Z.mul_le_mono_nonneg_l; lia).
    assert (2 ^ 52 * 2 ^ 53 <= Zpos ms * 2 ^ 53)
      by (apply Z.mul_le_mono_nonneg_r; lia).
    assert (Zpos mt * 2 ^ 52 <= 2 ^ 53 * 2 ^ 52)
      by (apply Z.mul_le_mono_nonneg_r; lia).
    lia. }
  assert (Hq54 : q1 < 2 ^ 54).
  { destruct (Z_lt_le_dec q1 (2 ^ 54)) as [|Hge]; [assumption|]. exfalso.
    assert (Zpos mt * 2 ^ 54 <= Zpos mt * q1)
      by (apply Z.mul_le_mono_nonneg_l; lia).
    assert (2 ^ 52 * 2 ^ 54 <= Zpos mt * 2 ^ 54)
      by (apply Z.mul_le_mono_nonneg_r; lia).
    assert (Zpos ms * 2 ^ 53 <= 2 ^ 53 * 2 ^ 53)
      by (apply Z.mul_le_mono_nonneg_r; lia).
    change (2 ^ 52 * 2 ^ 54) with (2 ^ 53 * 2 ^ 53) in *. lia. }
  assert (Hdq : 53 <= Zdigits2 q1 <= 54).
  { destruct (Z_lt_le_dec q1 (2 ^ 53)).
    - rewrite (@Zdigits2_eq q1 53); lia.
    - rewrite (@Zdigits2_eq q1 54); [lia| |lia].
      change (2 ^ (54 - 1)) with (2 ^ 53). lia. }
  destruct (@binary_round_aux_sandwich q1 (es - et - 53)
              (new_location (Zpos mt) r1))
    as (ma & ea & n & k & Eres & Hn & Hk & Hea & Hm1 & Hsand & Hma);
    [assumption|lia|].
  exists ma, ea. rewrite Eres in *. cbn [below] in Hbelow.
  destruct Hbelow as [Hea0 _].
  split; [reflexivity|]. split; [lia|]. split; [assumption|].
  (* everything over the common scale [c] *)
  set (m1 := q1 / 2 ^ n) in *.
  assert (Hpn : 0 < 2 ^ n) by (apply Z.pow_pos_nonneg; lia).
  assert (Hpk : 0 < 2 ^ k) by (apply Z.pow_pos_nonneg; lia).
  assert (Hpt : 0 < 2 ^ (- et)) by (apply Z.pow_pos_nonneg; lia).
  assert (Hps : 0 < 2 ^ (- es)) by (apply Z.pow_pos_nonneg; lia).
  assert (Hpa : 0 < 2 ^ (- ea)) by (apply Z.pow_pos_nonneg; lia).
  assert (Hscale : 2 ^ (- ea) * (2 ^ k * 2 ^ n * 2 ^ (- et))
                   = 2 ^ 53 * 2 ^ (- es)).
  { rewrite <- !Z.pow_add_r by lia. f_equal. lia. }
  assert (Hq1n : m1 * 2 ^ n <= q1 < (m1 + 1) * 2 ^ n)
    by (apply div_pow2_bounds; assumption).
  set (X := Zpos ms * 2 ^ 53) in *.
  set (D := Zpos mt * 2 ^ n).
  set (A := Zpos ma * 2 ^ k) in *.
  assert (HD : 0 < D) by (unfold D; apply Z.mul_pos_pos; lia).
  assert (HX : m1 * D <= X < (m1 + 1) * D).
  { unfold D. rewrite Hq. split.
    - apply Z.le_trans with (Zpos mt * q1); [|lia].
      rewrite (Z.mul_comm m1), <- Z.mul_assoc.
      apply Z.mul_le_mono_nonneg_l; lia.
    - apply Z.lt_le_trans with (Zpos mt * (q1 + 1)); [lia|].
      rewrite (Z.mul_comm (m1 + 1)), <- Z.mul_assoc.
      apply Z.mul_le_mono_nonneg_l; lia. }
  assert (Herr : 2 ^ 52 * Z.abs (A * D - X) <= X).
  { apply relative_error with (m1 := m1); try assumption; lia. }
  set (c := 2 ^ k * 2 ^ n * 2 ^ (- et)).
  assert (Hc : 0 < c) by (unfold c; repeat apply Z.mul_pos_pos; lia).
  assert (E2 : s * 2 ^ (- ea) * c = X).
  { unfold c, X. rewrite Hms, <- (Z.mul_assoc s), Hscale. ring. }
  assert (E1 : (Zpos ma * t - s * 2 ^ (- ea)) * c = A * D - X).
  { rewrite Z.mul_sub_distr_r, E2. unfold c, A, D. rewrite Hmt. ring. }
  apply Z.mul_le_mono_pos_r with (p := c); [assumption|].
  rewrite E2, <- Z.mul_assoc.
  replace (Z.abs (Zpos ma * t - s * 2 ^ (- ea)) * c)
    with (Z.abs ((Zpos ma * t - s * 2 ^ (- ea)) * c))
    by (rewrite Z.abs_mul, (Z.abs_eq c); lia).
  now rewrite E1.
Qed.

(** A Number of 53 bits that is at most 1, times 100, is a Number within
    2^-52 of the product, relatively. *)
Lemma mul_100_error ma ea :
  2 ^ 52 <= Zpos ma < 2 ^ 53 -> -105 <= ea <= 0 ->
  below 1 (S754_finite false ma ea) ->
  exists mw ew,
    mul (S754_finite false ma ea) (toNumber 100) = S754_finite false mw ew
    /\ ew <= 0
    /\ 2 ^ 52 * Z.abs (Zpos mw * 2 ^ (- ea) - 100 * Zpos ma * 2 ^ (- ew))
       <= 100 * Zpos ma * 2 ^ (- ew).
Proof.
  intros Hma Hea Hb.
  pose proof (mul_100_below _ Hb) as Hbelow.
  rewrite toNumber_100 in *. unfold mul, SFmul in *. cbn [xorb] in *.
  set (mx := Zpos (ma * 7036874417766400)) in *.
  assert (Emx : mx = Zpos ma * 100 * 2 ^ 46).
  { unfold mx. rewrite Pos2Z.inj_mul.
    change (Zpos 7036874417766400) with (100 * 2 ^ 46). ring. }
  assert (Hmx : 2 ^ 104 <= mx < 2 ^ 106).
  { rewrite Emx. change (2 ^ 104) with (2 ^ 52 * 2 ^ 6 * 2 ^ 46).
    change (2 ^ 106) with (2 ^ 53 * 2 ^ 7 * 2 ^ 46).
    assert (2 ^ 52 * 2 ^ 6 * 2 ^ 46 <= Zpos ma * 100 * 2 ^ 46).
    { apply Z.mul_le_mono_nonneg_r; [apply Z.pow_nonneg; lia|].
      change (2 ^ 6) with 64. lia. }
    assert (Zpos ma * 100 * 2 ^ 46 < 2 ^ 53 * 2 ^ 7 * 2 ^ 46).
    { apply Z.mul_lt_mono_pos_r; [reflexivity|].
      change (2 ^ 7) with 128. lia. }
    lia. }
  assert (Hdx : 105 <= Zdigits2 mx <= 106).
  { destruct (Z_lt_le_dec mx (2 ^ 105)).
    - rewrite (@Zdigits2_eq mx 105); [lia| |lia].
      change (2 ^ (105 - 1)) with (2 ^ 104). lia.
    - rewrite (@Zdigits2_eq mx 106); [lia| |lia].
      change (2 ^ (106 - 1)) with (2 ^ 105). lia. }
  destruct (@binary_round_aux_sandwich mx (ea + -46) loc_Exact)
    as (mw & ew & n & k & Eres & Hn & Hk & Hew & Hm1 & Hsand & Hmw).
  { assert (2 ^ 52 <= 2 ^ 104) by (apply Z.pow_le_mono_r; lia). lia. }
  { lia. }
  exists mw, ew. rewrite Eres in *. cbn [below] in Hbelow.
  destruct Hbelow as [Hew0 _].
  split; [reflexivity|]. split; [assumption|].
  set (m1 := mx / 2 ^ n) in *.
  assert (Hpn : 0 < 2 ^ n) by (apply Z.pow_pos_nonneg; lia).
  assert (Hpk : 0 < 2 ^ k) by (apply Z.pow_pos_nonneg; lia).
  assert (Hpa : 0 < 2 ^ (- ea)) by (apply Z.pow_pos_nonneg; lia).
  assert (Hpw : 0 < 2 ^ (- ew)) by (apply Z.pow_pos_nonneg; lia).
  assert (Hscale : 2 ^ (- ea) * 2 ^ 46 = 2 ^ (- ew) * 2 ^ n * 2 ^ k).
  { rewrite <- !Z.pow_add_r by lia. f_equal. lia. }
  assert (Hmxn : m1 * 2 ^ n <= mx < (m1 + 1) * 2 ^ n)
    by (apply div_pow2_bounds; assumption).
  set (Wk := Zpos mw * 2 ^ k) in *.
  assert (Herr : 2 ^ 52 * Z.abs (Wk * 2 ^ n - mx) <= mx).
  { apply relative_error with (m1 := m1); try assumption; lia. }
  assert (E1 : (Zpos mw * 2 ^ (- ea) - 100 * Zpos ma * 2 ^ (- ew)) * 2 ^ 46
               = 2 ^ (- ew) * (Wk * 2 ^ n - mx)).
  { unfold Wk. rewrite Emx, Z.mul_sub_distr_r.
    replace (Zpos mw * 2 ^ (- ea) * 2 ^ 46)
      with (Zpos mw * (2 ^ (- ea) * 2 ^ 46)) by ring.
    rewrite Hscale. ring. }
  assert (E2 : 100 * Zpos ma * 2 ^ (- ew) * 2 ^ 46 = 2 ^ (- ew) * mx).
  { rewrite Emx. ring. }
  apply Z.mul_le_mono_pos_r with (p := 2 ^ 46); [reflexivity|].
  rewrite E2, <- Z.mul_assoc.
  replace (Z.abs (Zpos mw * 2 ^ (- ea) - 100 * Zpos ma * 2 ^ (- ew))
           * 2 ^ 46)
    with (Z.abs ((Zpos mw * 2 ^ (- ea) - 100 * Zpos ma * 2 ^ (- ew))
                 * 2 ^ 46))
    by (rewrite Z.abs_mul; reflexivity).
  rewrite E1, Z.abs_mul, (Z.abs_eq (2 ^ (- ew))) by lia.
  rewrite Z.mul_assoc, (Z.mul_comm (2 ^ 52)), <- Z.mul_assoc.
  apply Z.mul_le_mono_nonneg_l; [lia|exact Herr].
Qed.

Lemma Math_round_nonpos_exponent mw ew :
  ew <= 0 ->
  exists z,
    Math_round (S754_finite false mw ew) = IntVal z
    /\ (2 * z - 1) * 2 ^ (- ew) <= 2 * Zpos mw < (2 * z + 1) * 2 ^ (- ew).
Proof.
  intros Hew. destruct ew as [|p|k]; try lia.
  - exists (Zpos mw). split; [cbn [Math_round]; f_equal; lia|].
    cbn [Z.opp]. rewrite Z.pow_0_r. lia.
  - destruct (Math_round_half_up false mw k) as (z & Hz & Hb).
    exists z. split; [exact Hz|]. exact Hb.
Qed.

(** The percentage that the script shows is the exact percentage rounded to
    the nearest integer, but for an error of 2^-44 in where the tie lies:
    [z - 1/2 - 2^-44 <= 100 * s / t < z + 1/2 + 2^-44]. *)
Lemma percent_of_near_exact s t :
  0 <= s -> s <= t -> 0 < t < 2 ^ 53 ->
  exists z,
    Stats.percent_of s t = IntVal z
    /\ 2 ^ 43 * ((2 * z - 1) * t - 200 * s) <= t
    /\ 2 ^ 43 * (200 * s - (2 * z + 1) * t) < t.
Proof.
  intros Hs Hst Ht. destruct (Z.eq_dec s 0) as [->|Hs0].
  - exists 0. split; [now apply percent_of_zero|]. lia.
  - destruct (@div_error s t) as (ma & ea & Ediv & Hea & Hma & Ha);
      [lia|lia|lia|].
    assert (Hb1 : below 1 (S754_finite false ma ea)).
    { rewrite <- Ediv. apply div_below_1; lia. }
    destruct (mul_100_error Hma Hea Hb1) as (mw & ew & Emul & Hew & Hw).
    destruct (Math_round_nonpos_exponent mw Hew) as (z & Ez & Hz).
    exists z. unfold Stats.percent_of. rewrite Ediv, Emul.
    split; [exact Ez|].
    set (Pa := 2 ^ (- ea)) in *. set (Pw := 2 ^ (- ew)) in *.
    assert (HPa : 0 < Pa) by (apply Z.pow_pos_nonneg; lia).
    assert (HPw : 0 < Pw) by (apply Z.pow_pos_nonneg; lia).
    set (a := Zpos ma) in *. set (w := Zpos mw) in *.
    assert (Ha0 : 0 < a) by (unfold a; lia).
    assert (Hw0 : 0 < w) by (unfold w; lia).
    set (B := 2 ^ 52) in *.
    assert (HB : B = 4503599627370496) by reflexivity.
    (* the two relative errors, without absolute values *)
    assert (A1 : B * (a * t) <= (B + 1) * (s * Pa)) by lia.
    assert (A2 : (B - 1) * (s * Pa) <= B * (a * t)) by lia.
    assert (W1 : B * (w * Pa) <= (B + 1) * (100 * a * Pw)) by lia.
    assert (W2 : (B - 1) * (100 * a * Pw) <= B * (w * Pa)) by lia.
    clear Ha Hw.
    split.
    + (* (2z - 1) t 2^104 <= 200 (2^52 + 1)^2 s *)
      assert (U1 : (2 * z - 1) * B * Pa <= 200 * (B + 1) * a).
      { apply Z.mul_le_mono_pos_r with (p := Pw); [assumption|]. nia. }
      assert (U2 : (2 * z - 1) * t * (B * B) <= 200 * (B + 1) * (B + 1) * s).
      { apply Z.mul_le_mono_pos_r with (p := Pa); [assumption|].
        destruct (Z_le_gt_dec (2 * z - 1) 0) as [Hneg|Hposz]; [nia|].
        assert ((2 * z - 1) * B * Pa * (B * t) <= 200 * (B + 1) * a * (B * t))
          by (apply Z.mul_le_mono_nonneg_r; nia).
        nia. }
      rewrite HB in U2. lia.
    + assert (L1 : 200 * (B - 1) * a < (2 * z + 1) * B * Pa).
      { apply Z.mul_lt_mono_pos_r with (p := Pw); [assumption|]. nia. }
      assert (L2 : 200 * (B - 1) * (B - 1) * s < (2 * z + 1) * t * (B * B)).
      { apply Z.mul_lt_mono_pos_r with (p := Pa); [assumption|].
        assert (200 * (B - 1) * a * (B * t) < (2 * z + 1) * B * Pa * (B * t))
          by (apply Z.mul_lt_mono_pos_r; nia).
        nia. }
      rewrite HB in L2. lia.
Qed.

(** So it is the exact percentage rounded half up, unless that percentage
    lies within 2^-44 of a tie; then it may be the integer on the other side
    of the tie. *)
Lemma percent_of_exact_or_tie s t :
  0 <= s -> s <= t -> 0 < t < 2 ^ 53 ->
  exists z,
    Stats.percent_of s t = IntVal z
    /\ (z = exact_percent s t
        \/ (z = exact_percent s t - 1
            /\ 2 ^ 43 * (200 * s - (2 * exact_percent s t - 1) * t) < t)
        \/ (z = exact_percent s t + 1
            /\ 2 ^ 43 * ((2 * exact_percent s t + 1) * t - 200 * s) <= t)).
Proof.
  intros Hs Hst Ht.
  destruct (percent_of_near_exact Hs Hst Ht) as (z & Ez & Hup & Hlo).
  exists z. split; [exact Ez|].
  unfold exact_percent.
  pose proof (Z.div_mod (200 * s + t) (2 * t)) as Hdm.
  pose proof (Z.mod_pos_bound (200 * s + t) (2 * t)) as Hmb.
  set (E := (200 * s + t) / (2 * t)) in *.
  assert (HE : (2 * E - 1) * t <= 200 * s < (2 * E + 1) * t) by nia.
  change (2 ^ 43) with 8796093022208 in *.
  destruct (Z.lt_trichotomy z E) as [Hlt|[Heq|Hgt]].
  - right. left.
    assert (z = E - 1) by nia. subst z. split; [reflexivity|].
    replace (2 * E - 1) with (2 * (E - 1) + 1) by lia. exact Hlo.
  - now left.
  - right. right.
    assert (z = E + 1) by nia. subst z. split; [reflexivity|].
    replace (2 * E + 1) with (2 * (E + 1) - 1) by lia. exact Hup.
Qed.

End RoundingError.

(** ** Sums of Numbers that are exact *)

Module ExactSums.

Import Spec Binary64 RoundingError PlainObject.
Local Open Scope Z_scope.

(** A mantissa whose low bits are zero is shifted right without loss. *)
Lemma binary_round_aux_shift (M q : positive) (e : Z) (k : positive) :
  Zpos M = Zpos q * 2 ^ Zpos k ->
  digits2_pos q = 53%positive ->
  -1074 <= e + Zpos k <= 0 ->
  binary_round_aux prec emax false (Zpos M) e loc_Exact
  = S754_finite false q (e + Zpos k).
Proof.
  intros HM Hq He.
  assert (HdM : Zdigits2 (Zpos M) = 53 + Zpos k).
  { apply Zdigits2_eq; [|lia].
    pose proof (digits2_pos_range q) as [Hlo Hhi]. rewrite Hq in Hlo, Hhi.
    rewrite HM. replace (53 + Zpos k - 1) with (52 + Zpos k) by lia.
    rewrite !Z.pow_add_r by lia.
    assert (0 < 2 ^ Zpos k) by (apply Z.pow_pos_nonneg; lia).
    split.
    - apply Z.mul_le_mono_nonneg_r; lia.
    - apply Z.mul_lt_mono_pos_r; lia. }
  unfold binary_round_aux, shr_fexp. rewrite HdM.
  assert (Hf : fexp prec emax (53 + Zpos k + e) - e = Zpos k)
    by (unfold fexp, SpecFloat.emin, prec, emax; lia).
  rewrite Hf. cbn [shr].
  set (r0 := shr_record_of_loc (Zpos M) loc_Exact).
  assert (Hr0 : 0 <= shr_m r0)
    by (unfold r0; rewrite shr_record_of_loc_m; lia).
  assert (Hm : shr_m (iter_pos shr_1 k r0) = Zpos q).
  { rewrite iter_shr_1_m by assumption. unfold r0.
    rewrite shr_record_of_loc_m, HM. apply Z.div_mul.
    assert (0 < 2 ^ Zpos k) by (apply Z.pow_pos_nonneg; lia). lia. }
  assert (Hi : inexact (iter_pos shr_1 k r0) = false).
  { apply iter_shr_1_inexact with (q := Zpos q); [assumption| |].
    - apply inexact_of_loc_exact.
    - unfold r0. now rewrite shr_record_of_loc_m. }
  rewrite (loc_exact_of_exact _ Hi), Hm, round_nearest_even_exact.
  cbn [Zdigits2]. rewrite Hq.
  assert (Hf2 : fexp prec emax (53 + (e + Zpos k)) - (e + Zpos k) = 0)
    by (unfold fexp, SpecFloat.emin, prec, emax; lia).
  rewrite Hf2. cbn [shr]. rewrite shr_record_of_loc_m.
  assert (Hle : (e + Zpos k <=? emax - prec) = true)
    by (apply Z.leb_le; unfold emax, prec; lia).
  now rewrite Hle.
Qed.

(** The Number of the value [s], however the value is written down. *)
Lemma binary_normalize_value (s : Z) (M : positive) (e : Z) :
  0 < s < 2 ^ 53 -> -1074 <= e <= 0 -> Zpos M = s * 2 ^ (- e) ->
  exists m,
    binary_normalize prec emax (Zpos M) e false
    = S754_finite false m (Zdigits2 s - 53)
    /\ Zpos m = s * 2 ^ (53 - Zdigits2 s).
Proof.
  intros Hs He HM.
  destruct s as [|p|p]; try lia. cbn [Zdigits2].
  pose proof (digits2_pos_range p) as [Hlo Hhi].
  set (d := Zpos (digits2_pos p)) in *.
  assert (Hd : 1 <= d <= 53).
  { split; [unfold d; lia|].
    destruct (Z_le_gt_dec d 53); [assumption|]. exfalso.
    assert (2 ^ 53 <= 2 ^ (d - 1)) by (apply Z.pow_le_mono_r; lia).
    lia. }
  assert (HdM : Zpos (digits2_pos M) = d - e).
  { change (Zpos (digits2_pos M)) with (Zdigits2 (Zpos M)).
    apply Zdigits2_eq; [|lia]. rewrite HM.
    replace (d - e - 1) with (d - 1 + - e) by lia.
    replace (d - e) with (d + - e) by lia.
    rewrite !Z.pow_add_r by lia.
    assert (0 < 2 ^ (- e)) by (apply Z.pow_pos_nonneg; lia).
    split.
    - apply Z.mul_le_mono_nonneg_r; lia.
    - apply Z.mul_lt_mono_pos_r; lia. }
  unfold binary_normalize, binary_round, shl_align. rewrite HdM.
  assert (Hf : fexp prec emax (d - e + e) = d - 53)
    by (unfold fexp, SpecFloat.emin, prec, emax; lia).
  rewrite Hf.
  destruct (d - 53 - e) as [|k|k] eqn:Ek.
  - exists M. replace (d - 53) with e by lia. split.
    + apply binary_round_aux_canonical.
      * rewrite HdM. unfold fexp, SpecFloat.emin, prec, emax; lia.
      * unfold emax, prec; lia.
    + rewrite HM. do 2 f_equal. lia.
  - assert (Hq : exists q, Zpos q = Zpos p * 2 ^ (53 - d)).
    { assert (0 < Zpos p * 2 ^ (53 - d)).
      { apply Z.mul_pos_pos; [lia|apply Z.pow_pos_nonneg; lia]. }
      destruct (Zpos p * 2 ^ (53 - d)) as [|q|q] eqn:E; try lia.
      now exists q. }
    destruct Hq as [q Eq]. exists q. split; [|exact Eq].
    replace (d - 53) with (e + Zpos k) by lia.
    apply binary_round_aux_shift.
    + rewrite HM, Eq. rewrite <- Z.mul_assoc. f_equal.
      rewrite <- Z.pow_add_r by lia. f_equal. lia.
    + assert (Hz : Zdigits2 (Zpos q) = 53).
      { assert (E52 : 2 ^ 52 = 2 ^ (d - 1) * 2 ^ (53 - d))
          by (rewrite <- Z.pow_add_r by lia; f_equal; lia).
        assert (E53 : 2 ^ 53 = 2 ^ d * 2 ^ (53 - d))
          by (rewrite <- Z.pow_add_r by lia; f_equal; lia).
        assert (0 < 2 ^ (53 - d)) by (apply Z.pow_pos_nonneg; lia).
        apply Zdigits2_eq; [|lia]. rewrite Eq.
        replace (53 - 1) with 52 by lia. split.
        - rewrite E52. apply Z.mul_le_mono_nonneg_r; lia.
        - rewrite E53. apply Z.mul_lt_mono_pos_r; lia. }
      cbn [Zdigits2] in Hz. now inversion Hz.
    + lia.
  - destruct (iter_xO_spec M k) as [Hv Hdig].
    exists (Pos.iter xO M k). split.
    + apply binary_round_aux_canonical.
      * rewrite Hdig, Pos2Z.inj_add, HdM.
        unfold fexp, SpecFloat.emin, prec, emax; lia.
      * unfold emax, prec; lia.
    + rewrite Hv, HM. rewrite <- Z.mul_assoc. f_equal.
      rewrite <- Z.pow_add_r by lia. f_equal. lia.
Qed.

Lemma toNumber_value s :
  0 < s < 2 ^ 53 ->
  exists m,
    toNumber s = S754_finite false m (Zdigits2 s - 53)
    /\ Zpos m = s * 2 ^ (53 - Zdigits2 s).
Proof.
  intros Hs. destruct s as [|p|p]; try lia.
  apply (@binary_normalize_value (Zpos p) p 0); [assumption|lia|].
  cbn. lia.
Qed.

(** Integers that stay below 2^53 are added without rounding. *)
Lemma add_exact a b :
  0 <= a -> 0 <= b -> a + b < 2 ^ 53 ->
  add (toNumber a) (toNumber b) = toNumber (a + b).
Proof.
  intros Ha Hb Hab.
  destruct (Z.eq_dec a 0) as [->|Ha0].
  { rewrite toNumber_0. cbn [Z.add].
    destruct (Z.eq_dec b 0) as [->|Hb0]; [now rewrite toNumber_0|].
    destruct (@toNumber_value b) as (m & -> & _); [lia|reflexivity]. }
  destruct (Z.eq_dec b 0) as [->|Hb0].
  { rewrite toNumber_0, Z.add_0_r.
    destruct (@toNumber_value a) as (m & -> & _); [lia|reflexivity]. }
  destruct (@toNumber_value a) as (ma & Ea & Hma); [lia|].
  destruct (@toNumber_value b) as (mb & Eb & Hmb); [lia|].
  destruct (@toNumber_value (a + b)) as (mc & Ec & Hmc); [lia|].
  rewrite Ea, Eb, Ec. unfold add, SFadd. cbn [cond_Zopp].
  set (ea := Zdigits2 a - 53) in *. set (eb := Zdigits2 b - 53) in *.
  assert (Hda : 1 <= Zdigits2 a <= 53).
  { split.
    - destruct a; try lia. cbn [Zdigits2]. lia.
    - apply Zdigits2_bound; lia. }
  assert (Hdb : 1 <= Zdigits2 b <= 53).
  { split.
    - destruct b; try lia. cbn [Zdigits2]. lia.
    - apply Zdigits2_bound; lia. }
  set (ez := Z.min ea eb).
  assert (Hez : -52 <= ez <= 0) by (unfold ez, ea, eb; lia).
  assert (Hsh : forall m e x,
             Zpos m = x * 2 ^ (- e) -> ez <= e <= 0 ->
             Zpos (fst (shl_align m e ez)) = x * 2 ^ (- ez)).
  { intros m e x Hm He. unfold shl_align.
    destruct (ez - e) as [|k|k] eqn:Ek; cbn [fst]; try lia.
    - rewrite Hm. do 2 f_equal. lia.
    - destruct (iter_xO_spec m k) as [Hv _]. rewrite Hv, Hm.
      rewrite <- Z.mul_assoc. f_equal.
      rewrite <- Z.pow_add_r by lia. f_equal. lia. }
  rewrite (Hsh ma ea a), (Hsh mb eb b);
    [|unfold eb; rewrite Hmb; do 2 f_equal; lia|unfold ez; lia
     |unfold ea; rewrite Hma; do 2 f_equal; lia|unfold ez; lia].
  assert (Hsum : 0 < a * 2 ^ (- ez) + b * 2 ^ (- ez)).
  { assert (0 < 2 ^ (- ez)) by (apply Z.pow_pos_nonneg; lia).
    assert (0 < a * 2 ^ (- ez)) by (apply Z.mul_pos_pos; lia).
    assert (0 <= b * 2 ^ (- ez)) by (apply Z.mul_nonneg_nonneg; lia).
    lia. }
  destruct (a * 2 ^ (- ez) + b * 2 ^ (- ez)) as [|M|M] eqn:EM; try lia.
  destruct (@binary_normalize_value (a + b) M ez) as (m & Em & Hm);
    [lia|lia|rewrite <- EM; ring|].
  rewrite Em. f_equal. apply Pos2Z.inj. now rewrite Hm, Hmc.
Qed.

End ExactSums.

Module RoundFacts.

Import Spec.
Local Open Scope Z_scope.

(** [Math.round] rounds half up. *)
Lemma Math_round_spec w : RoundsHalfUp w (Math_round w).
Proof.
  destruct w as [s|s| |s m e]; cbn [RoundsHalfUp Math_round];
    try reflexivity.
  destruct e as [|p|k].
  - eexists. split; reflexivity.
  - eexists. split; reflexivity.
  - destruct (Binary64.Math_round_half_up s m k) as (z & Hz & Hb).
    cbn [Math_round] in Hz. exists z. split; assumption.
Qed.

End RoundFacts.

(** ** Stable sorting *)

Module SortFacts.

Import JsArray Spec.
Local Open Scope Z_scope.

Section Ranked.
Variable A : Type.
Variable cmp : A -> A -> Z.
(** The comparator is a difference of ranks, as both comparators of the
    script are. *)
Variable rank : A -> Z.
Hypothesis cmp_rank : forall a b, cmp a b = rank a - rank b.

Lemma insert_perm x l : Permutation (insert cmp x l) (x :: l).
Proof.
  induction l as [|y l IH]; simpl; [reflexivity|].
  destruct (cmp x y <=? 0); [reflexivity|].
  rewrite IH. apply perm_swap.
Qed.

Lemma sort_perm l : Permutation (sort cmp l) l.
Proof.
  induction l as [|x l IH]; simpl; [reflexivity|].
  rewrite insert_perm. now constructor.
Qed.

Lemma sort_length l : length (sort cmp l) = length l.
Proof. apply Permutation_length, sort_perm. Qed.

Lemma insert_sorted x l :
  StronglySorted (before rank) l ->
  StronglySorted (before rank) (insert cmp x l).
Proof.
  induction 1 as [|y l Hs IH Hy]; simpl.
  - repeat constructor.
  - destruct (Z.leb_spec (cmp x y) 0) as [Hle|Hgt].
    + rewrite cmp_rank in Hle. constructor.
      * now constructor.
      * constructor; [unfold before; lia|].
        eapply Forall_impl; [|exact Hy]. unfold before. intros; lia.
    + rewrite cmp_rank in Hgt. constructor; [assumption|].
      eapply Permutation_Forall; [symmetry; apply insert_perm|].
      constructor; [unfold before; lia|assumption].
Qed.

Lemma sort_sorted l : StronglySorted (before rank) (sort cmp l).
Proof.
  induction l as [|x l IH]; simpl; [constructor|].
  now apply insert_sorted.
Qed.

Lemma insert_stable v x l :
  filter (ranked rank v) (insert cmp x l) = filter (ranked rank v) (x :: l).
Proof.
  induction l as [|y l IH]; [reflexivity|].
  cbn [insert]. destruct (Z.leb_spec (cmp x y) 0) as [Hle|Hgt];
    [reflexivity|].
  rewrite cmp_rank in Hgt. cbn [filter] in *. rewrite IH.
  unfold ranked.
  destruct (Z.eqb_spec (rank y) v), (Z.eqb_spec (rank x) v);
    try reflexivity; lia.
Qed.

(** The sort is stable: elements of one rank keep their order. *)
Lemma sort_stable v l :
  filter (ranked rank v) (sort cmp l) = filter (ranked rank v) l.
Proof.
  induction l as [|x l IH]; [reflexivity|].
  cbn [sort fold_right]. rewrite insert_stable. cbn [filter].
  fold (sort cmp l). now rewrite IH.
Qed.

Lemma filter_ranked_In v a l :
  In a (filter (ranked rank v) l) <-> In a l /\ rank a = v.
Proof.
  rewrite filter_In. unfold ranked. now rewrite Z.eqb_eq.
Qed.

Lemma filter_ranked_head a l :
  filter (ranked rank (rank a)) (a :: l)
  = a :: filter (ranked rank (rank a)) l.
Proof. cbn [filter]. unfold ranked at 1. now rewrite Z.eqb_refl. Qed.

(** Two sorted lists with the same elements of each rank, in the same
    order, are equal. *)
Lemma sorted_stable_unique l1 : forall l2,
  StronglySorted (before rank) l1 -> StronglySorted (before rank) l2 ->
  (forall v, filter (ranked rank v) l1 = filter (ranked rank v) l2) ->
  l1 = l2.
Proof.
  induction l1 as [|a l1 IH]; intros l2 H1 H2 Hf.
  - destruct l2 as [|b l2]; [reflexivity|].
    specialize (Hf (rank b)). rewrite filter_ranked_head in Hf.
    discriminate.
  - destruct l2 as [|b l2].
    + specialize (Hf (rank a)). rewrite filter_ranked_head in Hf.
      discriminate.
    + apply StronglySorted_inv in H1 as [H1 Ha].
      apply StronglySorted_inv in H2 as [H2 Hb].
      rewrite Forall_forall in Ha, Hb.
      assert (Hab : rank a = rank b).
      { destruct (Z.eq_dec (rank a) (rank b)) as [|Hne]; [assumption|].
        exfalso.
        assert (Hbin : In b l1).
        { assert (Hin : In b (filter (ranked rank (rank b)) (a :: l1))).
          { rewrite Hf. apply filter_ranked_In. split; [now left|easy]. }
          apply filter_ranked_In in Hin as [[->|Hin] _];
            [contradiction|assumption]. }
        assert (Hain : In a l2).
        { assert (Hin : In a (filter (ranked rank (rank a)) (b :: l2))).
          { rewrite <- Hf. apply filter_ranked_In.
            split; [now left|easy]. }
          apply filter_ranked_In in Hin as [[->|Hin] _];
            [contradiction|assumption]. }
        apply Ha in Hbin. apply Hb in Hain. unfold before in *. lia. }
      assert (Heq : a = b).
      { pose proof (Hf (rank a)) as Hfa.
        rewrite filter_ranked_head in Hfa. rewrite Hab in Hfa.
        rewrite filter_ranked_head in Hfa. congruence. }
      subst b. f_equal. apply IH; try assumption.
      intros v. specialize (Hf v). cbn [filter] in Hf.
      destruct (ranked rank v a); congruence.
Qed.
End Ranked.

(** *** The comparator of [computeTopLanguages] *)

Lemma by_size_desc_rank a b :
  Stats.by_size_desc a b = size_rank a - size_rank b.
Proof. unfold Stats.by_size_desc, size_rank. lia. Qed.

Lemma ranked_same_size v l :
  filter (ranked size_rank (- v)) l = filter (same_size v) l.
Proof.
  apply filter_ext. intros x. unfold ranked, same_size, size_rank.
  destruct (Z.eqb_spec (- Stats.e_size x) (- v)),
           (Z.eqb_spec (Stats.e_size x) v); try reflexivity; lia.
Qed.

Lemma sorted_desc l :
  StronglySorted (before size_rank) l <-> StronglySorted descending l.
Proof.
  split; intros H; induction H; constructor; try assumption;
    (eapply Forall_impl; [|eassumption]);
    unfold before, descending, size_rank; intros; lia.
Qed.

(** What [entries.sort] returns meets what ECMAScript asks. *)
Lemma sort_by_size_desc l :
  StableSortedDesc l (sort Stats.by_size_desc l).
Proof.
  split; [|split].
  - symmetry. apply sort_perm.
  - apply sorted_desc. apply sort_sorted. exact by_size_desc_rank.
  - intros v. rewrite <- !ranked_same_size.
    apply sort_stable. exact by_size_desc_rank.
Qed.

(** And it is the only array that does. *)
Lemma StableSortedDesc_unique l l' :
  StableSortedDesc l l' -> l' = sort Stats.by_size_desc l.
Proof.
  intros (_ & Hs & Hf).
  apply sorted_stable_unique with (rank := size_rank).
  - now apply sorted_desc.
  - apply sort_sorted. exact by_size_desc_rank.
  - intros v. replace v with (- - v) by lia.
    rewrite !ranked_same_size, Hf.
    rewrite <- !ranked_same_size. symmetry.
    apply sort_stable. exact by_size_desc_rank.
Qed.

End SortFacts.

(* ================================================================== *)
(** * Properties of the script *)
(* ================================================================== *)

(** ** Escaping *)

Module EscFacts.

Import Stats Spec.

Lemma replaceAll_flat_map c rep (f : codeunit -> jsstring) s :
  replaceAll c rep (flat_map f s)
  = flat_map (fun x => replaceAll c rep (f x)) s.
Proof.
  unfold replaceAll. induction s as [|x s IH]; [reflexivity|].
  cbn [flat_map]. rewrite flat_map_app. f_equal. exact IH.
Qed.

Lemma replaceAll_as_flat_map c rep s :
  replaceAll c rep s = flat_map (fun x => replaceAll c rep [x]) s.
Proof.
  unfold replaceAll. apply flat_map_ext. intros x. cbn [flat_map].
  now rewrite app_nil_r.
Qed.

Lemma esc_unit x : esc [x] = entity x.
Proof.
  unfold esc, entity, replaceAll. cbn [flat_map].
  destruct (N.eqb_spec x 38) as [->|H38]; [reflexivity|].
  cbn [flat_map app].
  destruct (N.eqb_spec x 60) as [->|H60]; [reflexivity|].
  cbn [flat_map app].
  destruct (N.eqb_spec x 62) as [->|H62]; [reflexivity|].
  cbn [flat_map app].
  destruct (N.eqb_spec x 34) as [->|H34]; [reflexivity|].
  cbn [flat_map app].
  destruct (N.eqb_spec x 39) as [->|H39]; reflexivity.
Qed.

(** The five replacements amount to one pass that maps each code unit to
    its entity: an ampersand that a later replacement writes is not replaced
    again, because the ampersands are replaced first. *)
Lemma esc_flat_map s : esc s = flat_map entity s.
Proof.
  unfold esc.
  rewrite (replaceAll_as_flat_map 38%N _ s).
  rewrite !replaceAll_flat_map.
  apply flat_map_ext. intros x. apply esc_unit.
Qed.

Lemma esc_app s t : esc (s ++ t) = esc s ++ esc t.
Proof. rewrite !esc_flat_map. apply flat_map_app. Qed.

Lemma entity_plain c : reserved c = false -> entity c = [c].
Proof.
  unfold reserved, entity. intros H.
  repeat (apply orb_false_iff in H as [H ?]).
  now repeat match goal with E : _ = false |- _ => rewrite E; clear E end.
Qed.

Lemma esc_Escaped s : Escaped (esc s).
Proof.
  rewrite esc_flat_map. induction s as [|c s IH]; cbn [flat_map].
  - constructor.
  - destruct (reserved c) eqn:R.
    + now apply Escaped_entity.
    + rewrite entity_plain by assumption. now apply Escaped_plain.
Qed.

Lemma entity_no_raw c x :
  In x (entity c) -> x <> 60%N /\ x <> 62%N /\ x <> 34%N /\ x <> 39%N.
Proof.
  unfold entity.
  destruct (N.eqb_spec c 38); [|destruct (N.eqb_spec c 60);
    [|destruct (N.eqb_spec c 62); [|destruct (N.eqb_spec c 34);
      [|destruct (N.eqb_spec c 39)]]]];
    cbn [lit map list_ascii_of_string In];
    intros H;
    repeat (destruct H as [<-|H];
            [repeat split; try discriminate; try congruence|]);
    try contradiction.
Qed.

(** None of [<], [>], the double quote and the single quote is left. *)
Lemma esc_no_raw s x :
  In x (esc s) -> x <> 60%N /\ x <> 62%N /\ x <> 34%N /\ x <> 39%N.
Proof.
  rewrite esc_flat_map, in_flat_map. intros (c & _ & H).
  now apply entity_no_raw in H.
Qed.

Lemma unesc_fuel_entity c : forall fuel rest,
  unesc_fuel (S fuel) (entity c ++ rest) = c :: unesc_fuel fuel rest.
Proof.
  intros fuel rest. unfold entity.
  destruct (N.eqb_spec c 38) as [->|H38]; [reflexivity|].
  destruct (N.eqb_spec c 60) as [->|H60]; [reflexivity|].
  destruct (N.eqb_spec c 62) as [->|H62]; [reflexivity|].
  destruct (N.eqb_spec c 34) as [->|H34]; [reflexivity|].
  destruct (N.eqb_spec c 39) as [->|H39]; [reflexivity|].
  cbn [app unesc_fuel].
  destruct (N.eqb_spec c 38); [contradiction|reflexivity].
Qed.

Lemma entity_length c : (1 <= length (entity c))%nat.
Proof.
  unfold entity.
  repeat match goal with |- context [N.eqb ?a ?b] => destruct (N.eqb a b) end;
    cbn; lia.
Qed.

Lemma unesc_fuel_esc s : forall fuel,
  (length (flat_map entity s) <= fuel)%nat ->
  unesc_fuel fuel (flat_map entity s) = s.
Proof.
  induction s as [|c s IH]; intros fuel Hf.
  - destruct fuel; reflexivity.
  - cbn [flat_map] in *. rewrite length_app in Hf.
    pose proof (entity_length c).
    destruct fuel as [|fuel]; [lia|].
    rewrite unesc_fuel_entity. f_equal. apply IH. lia.
Qed.

(** Escaped text reads back as the text that was escaped. *)
Lemma unesc_esc s : unesc (esc s) = s.
Proof.
  unfold unesc. rewrite esc_flat_map. now apply unesc_fuel_esc.
Qed.

End EscFacts.

(** ** Tallies and percentages *)

Module TallyFacts.

Import Stats Spec JsStringFacts.
Local Open Scope Z_scope.

Lemma filter_partition_perm (A : Type) (f : A -> bool) l :
  Permutation (filter f l ++ filter (fun x => negb (f x)) l) l.
Proof.
  induction l as [|x l IH]; [reflexivity|].
  cbn [filter]. destruct (f x); cbn [negb app].
  - now constructor.
  - symmetry. apply Permutation_cons_app. now symmetry.
Qed.

(** [Object.entries] lists every property once. *)
Lemma entries_perm o : Permutation (JsObject.entries o) o.
Proof.
  unfold JsObject.entries.
  rewrite SortFacts.sort_perm. apply filter_partition_perm.
Qed.

Lemma filter_none (A : Type) (f : A -> bool) l :
  Forall (fun x => f x = false) l -> filter f l = [].
Proof.
  induction 1 as [|x l Hx _ IH]; [reflexivity|].
  cbn [filter]. now rewrite Hx.
Qed.

Lemma filter_all (A : Type) (f : A -> bool) l :
  Forall (fun x => f x = true) l -> filter f l = l.
Proof.
  induction 1 as [|x l Hx _ IH]; [reflexivity|].
  cbn [filter]. now rewrite Hx, IH.
Qed.

(** Without names that read as array indices, [Object.entries] lists the
    properties in the order of their creation. *)
Lemma entries_plain o : plain_names o -> JsObject.entries o = o.
Proof.
  intros Hp. unfold JsObject.entries.
  rewrite filter_none by exact Hp. cbn [JsArray.sort fold_right app].
  apply filter_all. eapply Forall_impl; [|exact Hp].
  intros p Hi. cbn beta in Hi. now rewrite Hi.
Qed.

Lemma retained_length o : length (retained o) = Nat.min 6 (length o).
Proof.
  unfold retained, JsArray.slice0.
  rewrite length_firstn, SortFacts.sort_length, length_map.
  now rewrite (Permutation_length (entries_perm o)).
Qed.

Lemma computeTopLanguages_retained o :
  computeTopLanguages o = percentages (retained o).
Proof. reflexivity. Qed.

Lemma percentages_names top : map l_name (percentages top) = map e_name top.
Proof.
  unfold percentages. rewrite map_map. now apply map_ext.
Qed.

Lemma percentages_length top : length (percentages top) = length top.
Proof. unfold percentages. apply length_map. Qed.

Lemma sum_sizes_from l : forall s,
  fold_left (fun s x => s + e_size x) l s = s + total_size l.
Proof.
  unfold total_size.
  induction l as [|x l IH]; intros s; cbn [fold_left fold_right].
  - lia.
  - rewrite IH. lia.
Qed.

Lemma sum_sizes_total l : sum_sizes l = total_size l.
Proof. unfold sum_sizes. now rewrite sum_sizes_from. Qed.

Lemma total_size_perm l l' :
  Permutation l l' -> total_size l = total_size l'.
Proof.
  unfold total_size. induction 1; cbn [fold_right] in *; lia.
Qed.

Lemma total_size_nonneg l :
  Forall (fun x => 0 <= e_size x) l -> 0 <= total_size l.
Proof.
  unfold total_size. induction 1; cbn [fold_right] in *; lia.
Qed.

Lemma total_size_firstn n l :
  Forall (fun x => 0 <= e_size x) l ->
  total_size (firstn n l) <= total_size l.
Proof.
  intros H. revert n. induction H as [|x l Hx Hl IH]; intros [|n];
    cbn [firstn]; unfold total_size in *; cbn [fold_right]; try lia.
  - pose proof (total_size_nonneg Hl). unfold total_size in *. lia.
  - specialize (IH n). lia.
Qed.

Lemma total_size_member x l :
  Forall (fun x => 0 <= e_size x) l -> In x l -> e_size x <= total_size l.
Proof.
  induction 1 as [|y l Hy Hl IH]; intros Hin; [contradiction|].
  pose proof (total_size_nonneg Hl).
  unfold total_size in *. cbn [fold_right]. destruct Hin as [->|Hin].
  - lia.
  - specialize (IH Hin). lia.
Qed.

Lemma total_size_first_met o : total_size (first_met o) = tally_total o.
Proof.
  unfold total_size, tally_total, first_met.
  induction o as [|[k v] o IH]; [reflexivity|].
  cbn [map fold_right entry_of e_size snd]. now rewrite IH.
Qed.

Lemma firstn_incl (A : Type) n : forall (l : list A) x,
  In x (firstn n l) -> In x l.
Proof.
  induction n as [|n IH]; intros [|y l] x; cbn [firstn In]; try tauto.
  intros [->|H]; [now left|right; now apply IH].
Qed.

Lemma firstn_Forall (A : Type) (P : A -> Prop) n l :
  Forall P l -> Forall P (firstn n l).
Proof.
  rewrite !Forall_forall. intros H x Hx. apply H.
  now apply firstn_incl in Hx.
Qed.

(** The retained entries are entries of the tally. *)
Lemma retained_incl o x : In x (retained o) -> In x (first_met o).
Proof.
  unfold retained, JsArray.slice0, first_met. intros H.
  apply firstn_incl in H.
  eapply Permutation_in in H;
    [|apply SortFacts.sort_perm].
  eapply Permutation_in; [|exact H].
  apply Permutation_map, entries_perm.
Qed.

Lemma retained_total o :
  Forall (fun p => 0 <= snd p) o ->
  Forall (fun x => 0 <= e_size x) (retained o)
  /\ total_size (retained o) <= tally_total o.
Proof.
  intros Hnn.
  assert (Hall : Forall (fun x => 0 <= e_size x) (first_met o)).
  { unfold first_met. apply Forall_map.
    eapply Forall_impl; [|exact Hnn]. now intros [k v]. }
  assert (Hsorted : Forall (fun x => 0 <= e_size x)
            (JsArray.sort by_size_desc (map entry_of (JsObject.entries o)))).
  { eapply Permutation_Forall; [|exact Hall].
    unfold first_met. rewrite SortFacts.sort_perm.
    symmetry. apply Permutation_map, entries_perm. }
  split.
  - unfold retained, JsArray.slice0. now apply firstn_Forall.
  - unfold retained, JsArray.slice0.
    etransitivity; [apply total_size_firstn; exact Hsorted|].
    rewrite <- total_size_first_met.
    apply Z.eq_le_incl, total_size_perm.
    rewrite SortFacts.sort_perm.
    apply Permutation_map, entries_perm.
Qed.

(** Every percentage of non-negative sizes that sum to less than 2^53 is
    an integer from 0 to 100. *)
Lemma percentages_range top :
  Forall (fun x => 0 <= e_size x) top -> total_size top < 2 ^ 53 ->
  Forall (fun l => exists z, l_percent l = IntVal z /\ 0 <= z <= 100)
         (percentages top).
Proof.
  intros Hnn Hlt. unfold percentages. apply Forall_map.
  apply Forall_forall. intros x Hx. cbn [l_percent].
  rewrite sum_sizes_total.
  pose proof (total_size_nonneg Hnn) as H0.
  pose proof (@total_size_member x top Hnn Hx) as Hle.
  rewrite Forall_forall in Hnn. specialize (Hnn x Hx). cbn beta in Hnn.
  unfold or_one. destruct (Z.eqb_spec (total_size top) 0) as [E|E].
  - replace (e_size x) with 0 by lia.
    exists 0. split; [|lia]. apply Binary64.percent_of_zero.
    split; [lia|reflexivity].
  - apply Binary64.percent_of_range; lia.
Qed.
End TallyFacts.

(** ** Aggregation and fetching *)

Module AggregateFacts.

Import Stats Spec JsStringFacts.
Local Open Scope Z_scope.

Lemma fold_left_skip (A B : Type) (f : A -> B -> A) pre x post init :
  (forall a, f a x = a) ->
  fold_left f (pre ++ x :: post) init = fold_left f (pre ++ post) init.
Proof.
  intros H. rewrite !fold_left_app. cbn [fold_left]. now rewrite H.
Qed.

Lemma add_repo_skipped st r : skipped r = true -> add_repo st r = st.
Proof.
  destruct r as [r|]; cbn [skipped add_repo]; [|reflexivity].
  now intros ->.
Qed.

(** *** The order of the names in the tally *)

Lemma keys_set o k v : map fst (JsObject.set o k v) = note (map fst o) k.
Proof.
  unfold note. induction o as [|[k' v'] o IH]; [reflexivity|].
  cbn [JsObject.set map fst existsb].
  destruct (eqb k k') eqn:E.
  - apply eqb_eq in E. subst k'. reflexivity.
  - cbn [map fst orb]. rewrite IH.
    destruct (existsb (eqb k) (map fst o)); reflexivity.
Qed.

Lemma keys_add_edge o e :
  map fst (add_edge o e)
  = match edge_name e with
    | Some n => note (map fst o) n
    | None => map fst o
    end.
Proof.
  unfold add_edge, edge_name.
  destruct e as [[sz [[[[|c s]|]]|]]|]; try reflexivity.
  apply keys_set.
Qed.

Lemma keys_add_edges edges : forall o,
  map fst (fold_left add_edge edges o)
  = fold_left note (edge_names edges) (map fst o).
Proof.
  induction edges as [|e edges IH]; intros o; [reflexivity|].
  cbn [fold_left]. rewrite IH, keys_add_edge.
  unfold edge_names. cbn [flat_map]. rewrite fold_left_app.
  destruct (edge_name e); reflexivity.
Qed.

Lemma keys_add_repo st r :
  map fst (snd (add_repo st r))
  = fold_left note (repo_names r) (map fst (snd st)).
Proof.
  destruct r as [r|]; cbn [add_repo repo_names]; [|reflexivity].
  destruct (isArchived r); [reflexivity|].
  cbn [snd]. apply keys_add_edges.
Qed.

Lemma keys_add_repos repos : forall st,
  map fst (snd (fold_left add_repo repos st))
  = fold_left note (flat_map repo_names repos) (map fst (snd st)).
Proof.
  induction repos as [|r repos IH]; intros st; [reflexivity|].
  cbn [fold_left flat_map]. rewrite IH, keys_add_repo.
  now rewrite fold_left_app.
Qed.

(** The tally lists the languages in the order in which the loop first met
    them. *)
Lemma aggregate_keys repos :
  map fst (snd (aggregate repos)) = first_seen (flat_map repo_names repos).
Proof. unfold aggregate, first_seen. now rewrite keys_add_repos. Qed.

Lemma existsb_eqb_In n ks : existsb (eqb n) ks = true <-> In n ks.
Proof.
  rewrite existsb_exists. split.
  - intros (x & Hx & E). apply eqb_eq in E. now subst.
  - intros H. exists n. split; [assumption|apply eqb_refl].
Qed.

Lemma note_NoDup ks n : NoDup ks -> NoDup (note ks n).
Proof.
  intros H. unfold note. destruct (existsb (eqb n) ks) eqn:E; [assumption|].
  apply NoDup_app; [assumption|repeat constructor; intros []|].
  intros x Hx [<-|[]].
  apply existsb_eqb_In in Hx. congruence.
Qed.

Lemma fold_note_NoDup names : forall ks,
  NoDup ks -> NoDup (fold_left note names ks).
Proof.
  induction names as [|n names IH]; intros ks H; [assumption|].
  cbn [fold_left]. apply IH. now apply note_NoDup.
Qed.

(** The names of the tally are pairwise distinct. *)
Lemma aggregate_wf repos : JsObject.wf (snd (aggregate repos)).
Proof.
  unfold JsObject.wf. rewrite aggregate_keys.
  apply fold_note_NoDup. constructor.
Qed.

End AggregateFacts.

Module FetchFacts.

Import Stats Spec.

Lemma fetch_from_bound gql remaining : forall page st,
  (length (fst (fetch_from gql remaining page st)) <= remaining)%nat.
Proof.
  induction remaining as [|n IH]; intros page st; cbn [fetch_from].
  - cbn. lia.
  - destruct (gql page (after st)) as [|user]; [cbn; lia|].
    destruct (page_body page user st) as [st' more].
    destruct more; [|cbn; lia].
    specialize (IH (S page) st').
    destruct (fetch_from gql n (S page) st') as [reqs res].
    cbn [fst length] in *. lia.
Qed.

Lemma page_body_more page user st :
  snd (page_body page user st) = has_next (Data user).
Proof.
  unfold page_body, has_next.
  destruct (user_repositories user) as [rs|]; [|reflexivity].
  destruct (pageInfo rs) as [p|]; [|reflexivity].
  destruct (hasNextPage p); reflexivity.
Qed.

(** One more request is issued when the response asks for another page and
    the cap allows it; none after a response that does not. *)
Lemma fetch_from_step gql n page st :
  length (fst (fetch_from gql (S n) page st))
  = if has_next (gql page (after st)) then
      S (length (fst (fetch_from gql n (S page)
                        (fst (page_body page
                                match gql page (after st) with
                                | Data user => user
                                | Throws => None
                                end st)))))
    else 1%nat.
Proof.
  cbn [fetch_from].
  destruct (gql page (after st)) as [|user] eqn:E; [reflexivity|].
  rewrite <- page_body_more with (page := page) (st := st).
  destruct (page_body page user st) as [st' more]. cbn [fst snd].
  destruct more; [|reflexivity].
  destruct (fetch_from gql n (S page) st') as [reqs res]. reflexivity.
Qed.
End FetchFacts.

(** ** Rendering *)

Module RenderFacts.
Import Stats Spec JsStringFacts.
Local Open Scope Z_scope.

Lemma color_bright U line :
  color U line = if bright U line then green else dim.
Proof.
  unfold color, bright.
  destruct (startsWith (U ++ lit "@github") line); [reflexivity|].
  destruct (eqb line []); [reflexivity|].
  destruct (endsWith (lit "$ _") line); reflexivity.
Qed.

(** A text node is an opening tag that holds no text of the line, the
    escaped line, and the closing tag. *)
Lemma textNode_shape U line i :
  textNode U line i
  = text_open i (bright U line) ++ esc line ++ lit "</text>".
Proof.
  unfold textNode, text_open. rewrite color_bright.
  repeat rewrite <- app_assoc. reflexivity.
Qed.

(** The image is fixed text around the escaped handle and the text nodes. *)
Lemma renderTerminalSvg_shape U r :
  renderTerminalSvg U r
  = svg_head ++ esc U ++ svg_mid ++ esc U ++ svg_tail
    ++ textNodes U r ++ LF ++ lit "</svg>".
Proof.
  unfold renderTerminalSvg, svg_head, svg_mid, svg_tail.
  cbn [join]. repeat rewrite <- app_assoc. reflexivity.
Qed.
End RenderFacts.

Module LineFacts.
Import Stats Spec JsStringFacts.
Local Open Scope Z_scope.

Lemma maxLines_11 : maxLines = 11%nat.
Proof. reflexivity. Qed.

Lemma lines_scaffold U r :
  lines U r
  = scaffold U r ++ map langLine (topLangs r) ++ [[]; cursor_line U].
Proof. reflexivity. Qed.

(** Eleven lines are kept: the nine of the scaffold, then the first two of
    what follows. *)
Lemma clipped_scaffold U r :
  clipped U r
  = scaffold U r
    ++ firstn 2 (map langLine (topLangs r) ++ [[]; cursor_line U]).
Proof.
  unfold clipped, JsArray.slice0. rewrite maxLines_11, lines_scaffold.
  reflexivity.
Qed.

Lemma clipped_cases U r :
  clipped U r
  = scaffold U r ++ firstn 2 (map langLine (topLangs r))
    ++ match topLangs r with
       | [] => [[]; cursor_line U]
       | [_] => [[]]
       | _ :: _ :: _ => []
       end.
Proof.
  rewrite clipped_scaffold. f_equal.
  destruct (topLangs r) as [|l1 [|l2 rest]]; reflexivity.
Qed.

Lemma clipped_length U r : length (clipped U r) = 11%nat.
Proof.
  rewrite clipped_cases.
  destruct (topLangs r) as [|l1 [|l2 rest]]; reflexivity.
Qed.

Lemma lines_language U r i l :
  nth_error (topLangs r) i = Some l ->
  nth_error (lines U r) (9 + i) = Some (langLine l).
Proof.
  intros H. rewrite lines_scaffold.
  rewrite nth_error_app2 by (cbn; lia).
  replace (9 + i - length (scaffold U r))%nat with i by (cbn; lia).
  rewrite nth_error_app1.
  - rewrite nth_error_map, H. reflexivity.
  - rewrite length_map. apply nth_error_Some. congruence.
Qed.

Lemma langLine_length l :
  (length (l_name l) <= 14)%nat ->
  (length (String_of_integral (l_percent l)) <= 5)%nat ->
  length (langLine l) = 21%nat.
Proof.
  intros Hn Hp. unfold langLine, padEnd, padStart.
  rewrite !length_app, !repeat_length.
  change (length (lit " ")) with 1%nat.
  change (length (lit "%")) with 1%nat.
  unfold jsstring, codeunit in *. lia.
Qed.
End LineFacts.

Module NameFacts.
Import Stats Spec JsStringFacts.
Local Open Scope Z_scope.

Lemma page_body_userName page user st :
  userName (fst (page_body page user st))
  = if Nat.eqb page 0 then nullish (display_name user) [] else userName st.
Proof.
  unfold page_body, display_name.
  destruct (user_repositories user) as [rs|];
    [destruct (pageInfo rs) as [p|]; [destruct (hasNextPage p)|]|];
    cbn [fst userName]; destruct (Nat.eqb page 0); reflexivity.
Qed.

Lemma fetch_from_S gql n page st :
  fetch_from gql (S n) page st
  = match gql page (after st) with
    | Throws => ([after st], None)
    | Data user =>
        let (st', more) := page_body page user st in
        if more then
          let (reqs, res) := fetch_from gql n (S page) st' in
          (after st :: reqs, res)
        else ([after st], Some st')
    end.
Proof. reflexivity. Qed.

(** After the first page the loop leaves [userName] alone. *)
Lemma fetch_from_userName gql n : forall page st reqs st',
  page <> 0%nat ->
  fetch_from gql n page st = (reqs, Some st') ->
  userName st' = userName st.
Proof.
  induction n as [|n IH]; intros page st reqs st' Hp H.
  - cbn [fetch_from] in H. now inversion H.
  - rewrite fetch_from_S in H. destruct (gql page (after st)) as [|user]; [discriminate|].
    pose proof (page_body_userName page user st) as Hu.
    destruct (page_body page user st) as [st1 more]. cbn [fst] in Hu.
    destruct (Nat.eqb_spec page 0) as [|_]; [contradiction|].
    destruct more.
    + destruct (fetch_from gql n (S page) st1) as [reqs1 res1] eqn:E.
      inversion H; subst. rewrite <- Hu. eapply IH; [|exact E]. lia.
    + inversion H; subst. exact Hu.
Qed.

(** [userName] is the display name of the first response, or the empty
    string. *)
Lemma fetch_userName gql user reqs st :
  gql 0%nat None = Data user ->
  fetch gql = (reqs, Some st) ->
  userName st = nullish (display_name user) [].
Proof.
  intros Hg H. unfold fetch in H. rewrite fetch_from_S in H.
  change (after initial) with (@None jsstring) in H. rewrite Hg in H.
  pose proof (page_body_userName 0 user initial) as Hu.
  destruct (page_body 0 user initial) as [st1 more]. cbn [fst] in Hu.
  cbn [Nat.eqb] in Hu. destruct more.
  - destruct (fetch_from gql 2 1 st1) as [reqs1 res1] eqn:E.
    inversion H; subst. rewrite <- Hu.
    eapply fetch_from_userName; [|exact E]. lia.
  - inversion H; subst. exact Hu.
Qed.

Lemma summary_name st : name (summary st) = userName st.
Proof. unfold summary. now destruct (aggregate (allRepos st)). Qed.

Lemma title_fallback U r : name r = [] -> title U r = U.
Proof. unfold title. now intros ->. Qed.

Lemma mapi_from_nth_error (A B : Type) (f : A -> nat -> B) l : forall i k x,
  nth_error l k = Some x ->
  nth_error (JsArray.mapi_from f i l) k = Some (f x (i + k)%nat).
Proof.
  induction l as [|y l IH]; intros i [|k] x H; cbn in *; try discriminate.
  - inversion H. now rewrite Nat.add_0_r.
  - rewrite (IH (S i) k x H). f_equal. f_equal. lia.
Qed.

Lemma mapi_nth_error (A B : Type) (f : A -> nat -> B) l k x :
  nth_error l k = Some x ->
  nth_error (JsArray.mapi f l) k = Some (f x k).
Proof. intros H. unfold JsArray.mapi. now rewrite (mapi_from_nth_error f l 0 k H). Qed.
End NameFacts.

(* ================================================================== *)
(** * Further lemmas on the script *)
(* ================================================================== *)

Module FetchMore.

Import Stats Spec SpecX.
Local Open Scope nat_scope.

Lemma page_body_after page user st :
  snd (page_body page user st) = true ->
  after (fst (page_body page user st)) = cursor_of (Data user).
Proof.
  unfold page_body, cursor_of.
  destruct (user_repositories user) as [rs|]; [|discriminate].
  destruct (pageInfo rs) as [p|]; [|discriminate].
  destruct (hasNextPage p); [reflexivity|discriminate].
Qed.

Lemma page_body_allRepos page user st :
  allRepos (fst (page_body page user st))
  = allRepos st ++ nodes_of (Data user).
Proof.
  unfold page_body, nodes_of.
  destruct (user_repositories user) as [rs|];
    [destruct (pageInfo rs) as [p|]; [destruct (hasNextPage p)|]|];
    cbn [fst allRepos]; destruct (Nat.eqb page 0); reflexivity.
Qed.

Lemma page_body_profile page user st :
  let st' := fst (page_body page user st) in
  fetchedFollowers st'
  = (if Nat.eqb page 0
     then nullish (match user with
                   | Some u => followers_totalCount u
                   | None => None
                   end) 0%Z
     else fetchedFollowers st)
  /\ fetchedPublicRepos st'
     = (if Nat.eqb page 0
        then nullish (match user_repositories user with
                      | Some rs => totalCount rs
                      | None => None
                      end) 0%Z
        else fetchedPublicRepos st).
Proof.
  unfold page_body.
  destruct (user_repositories user) as [rs|];
    [destruct (pageInfo rs) as [p|]; [destruct (hasNextPage p)|]|];
    cbn [fst fetchedFollowers fetchedPublicRepos];
    destruct (Nat.eqb page 0); split; reflexivity.
Qed.

(** The loop, one iteration unfolded, with the two components apart. *)
Lemma fetch_from_unfold gql n page st :
  fetch_from gql (S n) page st
  = match gql page (after st) with
    | Throws => ([after st], None)
    | Data user =>
        if has_next (Data user) then
          (after st :: fst (fetch_from gql n (S page)
                              (fst (page_body page user st))),
           snd (fetch_from gql n (S page) (fst (page_body page user st))))
        else ([after st], Some (fst (page_body page user st)))
    end.
Proof.
  cbn [fetch_from]. destruct (gql page (after st)) as [|user]; [reflexivity|].
  rewrite <- (FetchFacts.page_body_more page user st).
  destruct (page_body page user st) as [st' more]. cbn [fst snd].
  destruct more; [|reflexivity].
  now destruct (fetch_from gql n (S page) st').
Qed.

(** The first request carries the cursor the loop starts with. *)
Lemma fetch_from_head gql n page st :
  nth_error (fst (fetch_from gql (S n) page st)) 0 = Some (after st).
Proof.
  rewrite fetch_from_unfold.
  destruct (gql page (after st)) as [|user]; [reflexivity|].
  destruct (has_next (Data user)); reflexivity.
Qed.

(** Every later request follows a response that asked for another page and
    carries its cursor. *)
Lemma fetch_from_chain gql n : forall page st i a b,
  nth_error (fst (fetch_from gql n page st)) i = Some a ->
  nth_error (fst (fetch_from gql n page st)) (S i) = Some b ->
  has_next (gql (page + i) a) = true /\ b = cursor_of (gql (page + i) a).
Proof.
  induction n as [|n IH]; intros page st i a b Ha Hb.
  - cbn in Ha. destruct i; discriminate.
  - rewrite fetch_from_unfold in Ha, Hb.
    destruct (gql page (after st)) as [|user] eqn:E.
    + cbn in Hb. destruct i; discriminate.
    + destruct (has_next (Data user)) eqn:Hn.
      * cbn [fst] in Ha, Hb. destruct i as [|i].
        -- cbn in Ha. inversion Ha; subst a. rewrite Nat.add_0_r, E.
           split; [assumption|].
           change (nth_error
                     (fst (fetch_from gql n (S page)
                             (fst (page_body page user st)))) 0 = Some b)
             in Hb.
           destruct n as [|n]; [cbn in Hb; discriminate|].
           rewrite fetch_from_head in Hb. inversion Hb.
           apply page_body_after.
           now rewrite FetchFacts.page_body_more.
        -- cbn [nth_error] in Ha, Hb.
           replace (page + S i) with (S page + i) by lia.
           eapply IH; eassumption.
      * cbn in Hb. destruct i; discriminate.
Qed.

(** The run fails exactly when a request throws, and that request is the
    last. *)
Lemma fetch_from_fails gql n : forall page st,
  (snd (fetch_from gql n page st) = None <->
   exists i a, nth_error (fst (fetch_from gql n page st)) i = Some a
               /\ gql (page + i) a = Throws)
  /\ (forall i a, nth_error (fst (fetch_from gql n page st)) i = Some a ->
                  gql (page + i) a = Throws ->
                  length (fst (fetch_from gql n page st)) = S i).
Proof.
  induction n as [|n IH]; intros page st.
  - cbn. split; [split|].
    + discriminate.
    + intros (i & a & H & _). destruct i; discriminate.
    + intros i a H. destruct i; discriminate.
  - rewrite fetch_from_unfold.
    destruct (gql page (after st)) as [|user] eqn:E.
    + cbn [fst snd]. split; [split|].
      * intros _. exists 0, (after st). rewrite Nat.add_0_r. now split.
      * reflexivity.
      * intros [|i] a H _; [reflexivity|]. cbn in H. destruct i; discriminate.
    + destruct (has_next (Data user)) eqn:Hn.
      * cbn [fst snd].
        destruct (IH (S page) (fst (page_body page user st))) as [IH1 IH2].
        split; [split|].
        -- intros H. apply IH1 in H as (i & a & Hi & Ht).
           exists (S i), a. split; [exact Hi|].
           now replace (page + S i) with (S page + i) by lia.
        -- intros ([|i] & a & Hi & Ht).
           ++ cbn in Hi. inversion Hi; subst a.
              rewrite Nat.add_0_r in Ht. congruence.
           ++ apply IH1. exists i, a. split; [exact Hi|].
              now replace (S page + i) with (page + S i) by lia.
        -- intros [|i] a Hi Ht.
           ++ cbn in Hi. inversion Hi; subst a.
              rewrite Nat.add_0_r in Ht. congruence.
           ++ cbn [length]. f_equal. apply (IH2 i a Hi).
              now replace (S page + i) with (page + S i) by lia.
      * cbn [fst snd]. split; [split|].
        -- discriminate.
        -- intros ([|i] & a & Hi & Ht).
           ++ cbn in Hi. inversion Hi; subst a.
              rewrite Nat.add_0_r in Ht. congruence.
           ++ cbn in Hi. destruct i; discriminate.
        -- intros [|i] a Hi Ht; [reflexivity|].
           cbn in Hi. destruct i; discriminate.
Qed.

(** The repositories fetched are the nodes of the responses, in order. *)
Lemma fetch_from_allRepos gql n : forall page st reqs st',
  fetch_from gql n page st = (reqs, Some st') ->
  allRepos st'
  = allRepos st ++ flat_map nodes_of (responses_from gql page reqs).
Proof.
  induction n as [|n IH]; intros page st reqs st' H.
  - cbn in H. inversion H; subst. cbn. now rewrite app_nil_r.
  - rewrite fetch_from_unfold in H.
    destruct (gql page (after st)) as [|user] eqn:E; [discriminate|].
    destruct (has_next (Data user)).
    + destruct (fetch_from gql n (S page) (fst (page_body page user st)))
        as [reqs1 res1] eqn:E1.
      cbn [fst snd] in H. inversion H; subst reqs res1.
      rewrite (IH _ _ _ _ E1), page_body_allRepos.
      cbn [responses_from flat_map]. rewrite E.
      now rewrite <- app_assoc.
    + inversion H; subst. rewrite page_body_allRepos.
      cbn [responses_from flat_map]. rewrite E. now rewrite app_nil_r.
Qed.

(** After the first page the loop leaves the profile fields alone. *)
Lemma fetch_from_profile gql n : forall page st reqs st',
  page <> 0 ->
  fetch_from gql n page st = (reqs, Some st') ->
  fetchedFollowers st' = fetchedFollowers st
  /\ fetchedPublicRepos st' = fetchedPublicRepos st.
Proof.
  induction n as [|n IH]; intros page st reqs st' Hp H.
  - cbn in H. inversion H; subst. now split.
  - rewrite fetch_from_unfold in H.
    destruct (gql page (after st)) as [|user]; [discriminate|].
    pose proof (page_body_profile page user st) as Hpr. cbn zeta in Hpr.
    destruct (Nat.eqb_spec page 0) as [|_]; [contradiction|].
    destruct (has_next (Data user)).
    + destruct (fetch_from gql n (S page) (fst (page_body page user st)))
        as [reqs1 res1] eqn:E1.
      cbn [fst snd] in H. inversion H; subst reqs res1.
      destruct (IH _ _ _ _ (Nat.neq_succ_0 page) E1) as [-> ->].
      exact Hpr.
    + inversion H; subst. exact Hpr.
Qed.

Lemma responses_from_length gql reqs : forall page,
  length (responses_from gql page reqs) = length reqs.
Proof. induction reqs as [|a reqs IH]; intros page; cbn; [|rewrite IH]; reflexivity. Qed.

Lemma flat_map_length_bound (A B : Type) (f : A -> list B) k l :
  Forall (fun x => length (f x) <= k) l ->
  length (flat_map f l) <= length l * k.
Proof.
  induction 1 as [|x l Hx _ IH]; cbn [flat_map length]; [lia|].
  rewrite length_app. lia.
Qed.
End FetchMore.

Module AggregateMore.

Import Stats Spec SpecX JsStringFacts.
Local Open Scope Z_scope.

(** *** Lookup after assignment *)

Lemma get_set o k v n :
  JsObject.get (JsObject.set o k v) n
  = if eqb n k then Some v else JsObject.get o n.
Proof.
  induction o as [|[k' v'] o IH]; cbn [JsObject.set JsObject.get].
  - destruct (eqb n k); reflexivity.
  - destruct (eqb k k') eqn:Ek; cbn [JsObject.get].
    + apply eqb_eq in Ek. subst k'. destruct (eqb n k); reflexivity.
    + destruct (eqb n k') eqn:En.
      * apply eqb_eq in En. subst k'.
        destruct (eqb n k) eqn:Enk; [|reflexivity].
        apply eqb_eq in Enk. subst k. rewrite eqb_refl in Ek. discriminate.
      * exact IH.
Qed.

Lemma add_edge_count o e :
  add_edge o e
  = match edge_count e with
    | Some p => count_pair o p
    | None => o
    end.
Proof.
  unfold add_edge, edge_count, edge_name, count_pair.
  destruct e as [[sz [[[[|c s]|]]|]]|]; reflexivity.
Qed.

Lemma add_edges_counted edges : forall o,
  fold_left add_edge edges o = fold_left count_pair (counted_edges edges) o.
Proof.
  induction edges as [|e edges IH]; intros o; [reflexivity|].
  cbn [fold_left]. rewrite IH, add_edge_count.
  unfold counted_edges. cbn [flat_map]. rewrite fold_left_app.
  destruct (edge_count e); reflexivity.
Qed.

Lemma add_repo_counted st r :
  add_repo st r
  = (fst st + commits_of r, fold_left count_pair (counted_of r) (snd st)).
Proof.
  destruct st as [total o].
  destruct r as [r|]; cbn [add_repo commits_of counted_of fst snd].
  - destruct (isArchived r); cbn [fold_left].
    + now rewrite Z.add_0_r.
    + now rewrite add_edges_counted.
  - now rewrite Z.add_0_r.
Qed.

Lemma add_repos_counted repos : forall st,
  fold_left add_repo repos st
  = (fst st + fold_right (fun r s => commits_of r + s) 0 repos,
     fold_left count_pair (counted repos) (snd st)).
Proof.
  induction repos as [|r repos IH]; intros st.
  - cbn. destruct st. cbn. now rewrite Z.add_0_r.
  - cbn [fold_left]. rewrite IH, add_repo_counted.
    cbn [fst snd fold_right]. unfold counted. cbn [flat_map].
    rewrite fold_left_app. f_equal. lia.
Qed.

(** Aggregation, without the loop: the sum of the commit counts and the
    counted edges assigned one after the other. *)
Lemma aggregate_counted repos :
  aggregate repos
  = (fold_right (fun r s => commits_of r + s) 0 repos,
     fold_left count_pair (counted repos) []).
Proof. unfold aggregate. now rewrite add_repos_counted. Qed.

(** *** The size of a language *)

Lemma size_under_cons n p ps :
  size_under n (p :: ps)
  = if eqb n (fst p)
    then Some (snd p + nullish (size_under n ps) 0)
    else size_under n ps.
Proof.
  unfold size_under. cbn [filter].
  destruct (eqb n (fst p)); [|reflexivity].
  destruct (filter (fun q => eqb n (fst q)) ps); cbn [fold_right nullish];
    reflexivity.
Qed.

Lemma get_count_pairs n ps : forall o,
  JsObject.get (fold_left count_pair ps o) n
  = merge_size (JsObject.get o n) (size_under n ps).
Proof.
  induction ps as [|p ps IH]; intros o.
  - cbn. now destruct (JsObject.get o n).
  - cbn [fold_left]. rewrite IH, size_under_cons.
    unfold count_pair at 1. rewrite get_set.
    destruct (eqb n (fst p)) eqn:E.
    + apply eqb_eq in E. subst n.
      destruct (JsObject.get o (fst p)), (size_under (fst p) ps);
        cbn [merge_size nullish]; f_equal; lia.
    + reflexivity.
Qed.

Lemma sum_snd_perm (l l' : list (jsstring * Z)) :
  Permutation l l' ->
  fold_right (fun p s => snd p + s) 0 l
  = fold_right (fun p s => snd p + s) 0 l'.
Proof. induction 1; cbn [fold_right] in *; lia. Qed.

Lemma size_under_perm n ps ps' :
  Permutation ps ps' -> size_under n ps = size_under n ps'.
Proof.
  intros H. unfold size_under.
  assert (Hf : Permutation (filter (fun p => eqb n (fst p)) ps)
                           (filter (fun p => eqb n (fst p)) ps')).
  { clear -H. induction H; cbn [filter].
    - constructor.
    - destruct (eqb n (fst x)); [now constructor|assumption].
    - destruct (eqb n (fst x)), (eqb n (fst y)); try reflexivity.
      apply perm_swap.
    - etransitivity; eassumption. }
  destruct (filter (fun p => eqb n (fst p)) ps) as [|p l] eqn:E1,
           (filter (fun p => eqb n (fst p)) ps') as [|p' l'] eqn:E2.
  - reflexivity.
  - apply Permutation_nil in Hf. discriminate.
  - symmetry in Hf. apply Permutation_nil in Hf. discriminate.
  - f_equal. now apply sum_snd_perm.
Qed.

Lemma counted_perm repos repos' :
  Permutation repos repos' -> Permutation (counted repos) (counted repos').
Proof.
  induction 1; unfold counted in *; cbn [flat_map].
  - constructor.
  - now apply Permutation_app_head.
  - rewrite !app_assoc. apply Permutation_app_tail, Permutation_app_comm.
  - etransitivity; eassumption.
Qed.

Lemma commits_perm (repos repos' : list (option Repo)) :
  Permutation repos repos' ->
  fold_right (fun r s => commits_of r + s) 0 repos
  = fold_right (fun r s => commits_of r + s) 0 repos'.
Proof. induction 1; cbn [fold_right] in *; lia. Qed.

(** *** The total of the tally *)

Lemma tally_total_set o k v :
  tally_total (JsObject.set o k (nullish (JsObject.get o k) 0 + v))
  = tally_total o + v.
Proof.
  unfold tally_total.
  induction o as [|[k' v'] o IH]; cbn [JsObject.set JsObject.get fold_right];
    [cbn; lia|].
  destruct (eqb k k'); cbn [fold_right snd nullish].
  - lia.
  - rewrite IH. lia.
Qed.

Lemma tally_total_count_pairs ps : forall o,
  tally_total (fold_left count_pair ps o)
  = tally_total o + fold_right (fun p s => snd p + s) 0 ps.
Proof.
  induction ps as [|p ps IH]; intros o; cbn [fold_left fold_right]; [lia|].
  rewrite IH. unfold count_pair. rewrite tally_total_set. lia.
Qed.

Lemma set_Forall (P : jsstring * Z -> Prop) o k v :
  Forall P o -> P (k, v) -> Forall P (JsObject.set o k v).
Proof.
  intros Ho Hp. induction Ho as [|[k' v'] o Hx Ho IH]; cbn [JsObject.set].
  - now constructor.
  - destruct (eqb k k'); constructor; assumption.
Qed.

Lemma get_Forall (P : jsstring * Z -> Prop) o k v :
  Forall P o -> JsObject.get o k = Some v -> P (k, v).
Proof.
  induction 1 as [|[k' v'] o Hx Ho IH]; cbn [JsObject.get]; [discriminate|].
  destruct (eqb k k') eqn:E; [|assumption].
  apply eqb_eq in E. subst k'. intros H. inversion H. now subst.
Qed.

Lemma count_pairs_nonneg ps : forall o,
  Forall (fun p => 0 <= snd p) o -> Forall (fun p => 0 <= snd p) ps ->
  Forall (fun p => 0 <= snd p) (fold_left count_pair ps o).
Proof.
  induction ps as [|p ps IH]; intros o Ho Hps; [assumption|].
  cbn [fold_left]. inversion Hps; subst. apply IH; [|assumption].
  unfold count_pair. apply set_Forall; [assumption|]. cbn [snd].
  destruct (JsObject.get o (fst p)) as [v|] eqn:E; cbn [nullish]; [|lia].
  pose proof (@get_Forall _ o (fst p) v Ho E) as Hv. cbn [snd] in Hv. lia.
Qed.

(** *** The names of the tally *)

Lemma edge_names_counted edges :
  edge_names edges = map fst (counted_edges edges).
Proof.
  unfold edge_names, counted_edges.
  induction edges as [|e edges IH]; [reflexivity|].
  cbn [flat_map]. rewrite map_app, IH. f_equal.
  unfold edge_count. destruct (edge_name e); reflexivity.
Qed.

Lemma repo_names_counted repos :
  flat_map repo_names repos = map fst (counted repos).
Proof.
  unfold counted. induction repos as [|r repos IH]; [reflexivity|].
  cbn [flat_map]. rewrite map_app, IH. f_equal.
  destruct r as [r|]; cbn [repo_names counted_of]; [|reflexivity].
  destruct (isArchived r); [reflexivity|apply edge_names_counted].
Qed.

Lemma note_In ks n x : In x (note ks n) <-> In x ks \/ x = n.
Proof.
  unfold note. destruct (existsb (eqb n) ks) eqn:E.
  - apply AggregateFacts.existsb_eqb_In in E. split; [tauto|].
    intros [H| ->]; assumption.
  - rewrite in_app_iff. cbn [In]. split.
    + intros [H|[H|[]]]; [now left|now right].
    + intros [H|H]; [now left|right; now left].
Qed.

Lemma fold_note_In names : forall ks x,
  In x (fold_left note names ks) <-> In x ks \/ In x names.
Proof.
  induction names as [|n names IH]; intros ks x; cbn [fold_left In].
  - tauto.
  - rewrite IH, note_In. split.
    + intros [[H|H]|H]; [now left|right; now left|right; now right].
    + intros [H|[H|H]]; [left; now left|left; now right|now right].
Qed.
End AggregateMore.

Module TopMore.

Import Stats Spec SpecX JsStringFacts.
Local Open Scope Z_scope.

Lemma sorted_app_dominates (A : Type) (R : A -> A -> Prop) l1 : forall l2,
  StronglySorted R (l1 ++ l2) ->
  forall x y, In x l1 -> In y l2 -> R x y.
Proof.
  induction l1 as [|a l1 IH]; intros l2 H x y Hx Hy; [contradiction|].
  cbn [app] in H. apply StronglySorted_inv in H as [Hs Ha].
  destruct Hx as [->|Hx].
  - rewrite Forall_forall in Ha. apply Ha, in_or_app. now right.
  - eapply IH; eassumption.
Qed.

Lemma firstn_NoDup (A : Type) n : forall l : list A,
  NoDup l -> NoDup (firstn n l).
Proof.
  induction n as [|n IH]; intros [|x l] H; cbn [firstn]; try constructor.
  - inversion H; subst. intros Hin. now apply TallyFacts.firstn_incl in Hin.
  - inversion H; subst. now apply IH.
Qed.

Lemma first_met_names o : map e_name (first_met o) = map fst o.
Proof.
  unfold first_met. rewrite map_map. now apply map_ext.
Qed.

(** The returned names are names of the tally, each once. *)
Lemma top_names o :
  JsObject.wf o ->
  NoDup (map l_name (computeTopLanguages o))
  /\ incl (map l_name (computeTopLanguages o)) (map fst o).
Proof.
  intros Hwf.
  rewrite TallyFacts.computeTopLanguages_retained,
    TallyFacts.percentages_names.
  assert (Hp : Permutation
                 (map e_name (JsArray.sort by_size_desc
                                (map entry_of (JsObject.entries o))))
                 (map fst o)).
  { rewrite <- first_met_names. apply Permutation_map.
    rewrite SortFacts.sort_perm.
    apply Permutation_map, TallyFacts.entries_perm. }
  unfold retained, JsArray.slice0. rewrite <- firstn_map. split.
  - apply firstn_NoDup. eapply Permutation_NoDup; [symmetry; exact Hp|].
    exact Hwf.
  - intros n Hn. apply TallyFacts.firstn_incl in Hn.
    eapply Permutation_in; eassumption.
Qed.

(** *** Percentages next to the exact ones *)

Lemma retained_divisor o :
  Forall (fun p => 0 <= snd p) o -> tally_total o < 2 ^ 53 ->
  let d := or_one (sum_sizes (retained o)) in
  0 < d < 2 ^ 53
  /\ Forall (fun x => 0 <= e_size x <= d) (retained o).
Proof.
  intros Hnn Hlt d.
  destruct (TallyFacts.retained_total Hnn) as [Hr Ht].
  pose proof (TallyFacts.total_size_nonneg Hr) as H0.
  unfold d. rewrite TallyFacts.sum_sizes_total. unfold or_one.
  destruct (Z.eqb_spec (total_size (retained o)) 0) as [E|E].
  - split; [split; [lia|reflexivity]|].
    apply Forall_forall. intros x Hx.
    pose proof (@TallyFacts.total_size_member x _ Hr Hx).
    rewrite Forall_forall in Hr. specialize (Hr x Hx). cbn beta in Hr. lia.
  - split; [lia|]. apply Forall_forall. intros x Hx.
    pose proof (@TallyFacts.total_size_member x _ Hr Hx).
    rewrite Forall_forall in Hr. specialize (Hr x Hx). cbn beta in Hr. lia.
Qed.

(** The percentages of sizes between 0 and [t] add up, each within half a
    point and 2^-44 of its exact value. *)
Lemma percent_sum_bounds t l :
  0 < t < 2 ^ 53 ->
  Forall (fun x => 0 <= e_size x <= t) l ->
  let shown :=
    map (fun x => {| l_name := e_name x;
                     l_percent := percent_of (e_size x) t |}) l in
  let k := Z.of_nat (length l) in
  2 ^ 43 * ((2 * percent_sum shown - k) * t - 200 * total_size l) <= k * t
  /\ 2 ^ 43 * (200 * total_size l - (2 * percent_sum shown + k) * t)
     <= k * t.
Proof.
  intros Ht Hl. cbn zeta. change (2 ^ 43) with 8796093022208.
  induction Hl as [|x l Hx Hl IH].
  - cbn. lia.
  - cbn [map percent_sum fold_right length l_percent].
    unfold total_size in *. cbn [fold_right].
    fold (percent_sum
            (map (fun x => {| l_name := e_name x;
                              l_percent := percent_of (e_size x) t |}) l))
      in *.
    destruct (@RoundingError.percent_of_near_exact (e_size x) t)
      as (z & Ez & Hup & Hlo); [lia|lia|lia|].
    rewrite Ez. cbn [percent_value].
    change (2 ^ 43) with 8796093022208 in *.
    rewrite Nat2Z.inj_succ.
    set (S' := percent_sum _) in *.
    set (k' := Z.of_nat (length l)) in *.
    set (T' := fold_right (fun x s => e_size x + s) 0 l) in *.
    destruct IH as [IH1 IH2]. split; lia.
Qed.
End TopMore.

Module EscMore.

Import Stats Spec SpecX EscFacts.
Local Open Scope nat_scope.

Lemma entity_length_bounds c :
  1 <= length (entity c) <= 6
  /\ (reserved c = true -> 4 <= length (entity c)).
Proof.
  unfold entity, reserved.
  destruct (N.eqb c 38); [cbn; lia|].
  destruct (N.eqb c 60); [cbn; lia|].
  destruct (N.eqb c 62); [cbn; lia|].
  destruct (N.eqb c 34); [cbn; lia|].
  destruct (N.eqb c 39); cbn; split; try lia; discriminate.
Qed.

(** Escaping never shortens a text and makes it at most six times as
    long. *)
Lemma esc_length s : length s <= length (esc s) <= 6 * length s.
Proof.
  rewrite esc_flat_map. induction s as [|c s IH]; cbn [flat_map length].
  - lia.
  - rewrite length_app. pose proof (entity_length_bounds c). lia.
Qed.

Lemma esc_plain s :
  forallb (fun c => negb (reserved c)) s = true -> esc s = s.
Proof.
  rewrite esc_flat_map. induction s as [|c s IH]; [reflexivity|].
  cbn [forallb flat_map]. intros H. apply andb_true_iff in H as [Hc Hs].
  rewrite entity_plain by (now destruct (reserved c)).
  cbn [app]. f_equal. now apply IH.
Qed.

Lemma esc_longer s :
  forallb (fun c => negb (reserved c)) s = false ->
  length s < length (esc s).
Proof.
  rewrite esc_flat_map. induction s as [|c s IH]; [discriminate|].
  cbn [forallb flat_map length]. rewrite length_app. intros H.
  pose proof (entity_length_bounds c) as [Hb Hr].
  pose proof (esc_length s) as Hs. rewrite esc_flat_map in Hs.
  destruct (reserved c) eqn:R.
  - specialize (Hr eq_refl). lia.
  - cbn [negb andb] in H. specialize (IH H). lia.
Qed.

(** A text is its own escape exactly when it holds no reserved
    character. *)
Lemma esc_fixed s :
  esc s = s <-> forallb (fun c => negb (reserved c)) s = true.
Proof.
  split; [|apply esc_plain].
  intros H. destruct (forallb (fun c => negb (reserved c)) s) eqn:E;
    [reflexivity|].
  apply esc_longer in E. rewrite H in E. lia.
Qed.

(** The handle is escaped wherever a prompt holds it. *)
Lemma esc_prompt U suffix :
  forallb (fun c => negb (reserved c)) suffix = true ->
  esc (U ++ suffix) = esc U ++ suffix.
Proof. intros H. now rewrite esc_app, (esc_plain _ H). Qed.
End EscMore.


Module FormatMore.

Import Stats Spec SpecX.
Local Open Scope nat_scope.

Lemma digits_value_revapp u : forall a,
  fold_left digit_step (digits_of_uint u) (DecimalPos.Unsigned.of_lu a)
  = DecimalPos.Unsigned.of_lu (Decimal.revapp u a).
Proof.
  induction u; intros a; cbn [digits_of_uint fold_left Decimal.revapp];
    try reflexivity; rewrite <- IHu; f_equal;
    unfold digit_step; cbn [DecimalPos.Unsigned.of_lu]; lia.
Qed.

(** The digits of a number give the number back. *)
Lemma digits_value_decimal n : JsObject.digits_value (decimal n) = n.
Proof.
  unfold JsObject.digits_value, decimal.
  change (fold_left digit_step (digits_of_uint (N.to_uint n))
            (DecimalPos.Unsigned.of_lu Decimal.Nil) = n).
  rewrite digits_value_revapp.
  change (Decimal.revapp (N.to_uint n) Decimal.Nil)
    with (Decimal.rev (N.to_uint n)).
  rewrite <- DecimalPos.Unsigned.of_uint_alt.
  apply DecimalN.Unsigned.of_to.
Qed.

Lemma digits_of_uint_digits u :
  Forall (fun c => JsObject.is_digit c = true) (digits_of_uint u).
Proof. induction u; cbn [digits_of_uint]; constructor; auto. Qed.

Lemma decimal_digits n :
  Forall (fun c => JsObject.is_digit c = true) (decimal n).
Proof. apply digits_of_uint_digits. Qed.

Lemma decimal_nonempty n : decimal n <> [].
Proof.
  unfold decimal. destruct n as [|p]; [discriminate|].
  cbn [N.to_uint]. pose proof (DecimalPos.Unsigned.to_uint_nonnil p) as H.
  destruct (Pos.to_uint p); cbn [digits_of_uint]; congruence.
Qed.

Lemma is_digit_not_comma c :
  JsObject.is_digit c = true -> negb (N.eqb c 44) = true.
Proof.
  unfold JsObject.is_digit. intros H. apply andb_true_iff in H as [H1 H2].
  apply N.leb_le in H1. destruct (N.eqb_spec c 44); [lia|reflexivity].
Qed.

(** Taking the commas out of the grouped digits gives the digits. *)
Lemma ungroup ds :
  Forall (fun c => JsObject.is_digit c = true) ds ->
  filter (fun c => negb (N.eqb c 44)) (group_thousands ds) = ds.
Proof.
  induction 1 as [|d ds Hd Hds IH]; [reflexivity|].
  cbn [group_thousands].
  destruct (negb (Nat.eqb (length ds) 0) && Nat.eqb (length ds mod 3) 0);
    cbn [filter]; rewrite (is_digit_not_comma _ Hd); cbn [N.eqb negb];
    now rewrite IH.
Qed.

Lemma group_thousands_head ds :
  Forall (fun c => JsObject.is_digit c = true) ds -> ds <> [] ->
  exists d rest, group_thousands ds = d :: rest /\ JsObject.is_digit d = true.
Proof.
  intros H Hne. destruct H as [|d ds Hd Hds]; [contradiction|].
  cbn [group_thousands].
  destruct (negb (Nat.eqb (length ds) 0) && Nat.eqb (length ds mod 3) 0);
    eexists; eexists; split; try reflexivity; assumption.
Qed.

(** The grouped digits of [n] digits have [(n - 1) / 3] commas. *)
Lemma group_thousands_length ds :
  length (group_thousands ds) = length ds + (length ds - 1) / 3.
Proof.
  induction ds as [|d ds IH]; [reflexivity|].
  cbn [group_thousands].
  set (r := length ds) in *.
  pose proof (Nat.div_mod_eq r 3) as Hr.
  pose proof (Nat.mod_upper_bound r 3 ltac:(lia)) as Hm.
  pose proof (Nat.div_mod_eq (r - 1) 3) as Hr1.
  pose proof (Nat.mod_upper_bound (r - 1) 3 ltac:(lia)) as Hm1.
  cbn [length]. fold r. replace (S r - 1) with r by lia.
  destruct (Nat.eqb_spec r 0) as [E0|E0]; cbn [negb andb].
  - cbn [length]. rewrite IH. rewrite E0. reflexivity.
  - destruct (Nat.eqb_spec (r mod 3) 0) as [E3|E3]; cbn [length];
      rewrite IH; lia.
Qed.
End FormatMore.

Module FormatCommas.

Import Stats Spec SpecX FormatMore.
Local Open Scope nat_scope.

Lemma nth_error_singleton (A : Type) (x y : A) i :
  nth_error [x] i = Some y -> i = 0 /\ y = x.
Proof.
  destruct i as [|i]; cbn.
  - intros H. inversion H. now split.
  - destruct i; discriminate.
Qed.

(** Counted from the right, every fourth code unit of the grouped digits
    is a comma and all others are digits. *)
Lemma group_thousands_commas ds :
  Forall (fun c => JsObject.is_digit c = true) ds ->
  forall i c,
    nth_error (rev (group_thousands ds)) i = Some c ->
    if Nat.eqb (i mod 4) 3 then c = 44%N else JsObject.is_digit c = true.
Proof.
  induction 1 as [|d ds Hd Hds IH]; intros i c Hi.
  - destruct i; discriminate.
  - cbn [group_thousands] in Hi.
    pose proof (group_thousands_length ds) as HG.
    set (G := group_thousands ds) in *. set (r := length ds) in *.
    pose proof (Nat.div_mod_eq r 3) as Hr.
    pose proof (Nat.mod_upper_bound r 3 ltac:(lia)) as Hm.
    pose proof (Nat.div_mod_eq (r - 1) 3) as Hr1.
    pose proof (Nat.mod_upper_bound (r - 1) 3 ltac:(lia)) as Hm1.
    pose proof (Nat.div_mod_eq i 4) as Hi4.
    pose proof (Nat.mod_upper_bound i 4 ltac:(lia)) as Him.
    destruct (Nat.eqb_spec r 0) as [E0|E0]; cbn [negb andb] in Hi.
    + (* no digit follows *)
      cbn [rev] in Hi.
      destruct (Nat.lt_ge_cases i (length (rev G))) as [Hlt|Hge].
      * rewrite nth_error_app1 in Hi by assumption. now apply IH.
      * rewrite nth_error_app2 in Hi by assumption.
        apply nth_error_singleton in Hi as [Hi ->].
        rewrite length_rev in *.
        destruct (Nat.eqb_spec (i mod 4) 3); [lia|assumption].
    + destruct (Nat.eqb_spec (r mod 3) 0) as [E3|E3].
      * (* a comma follows the digit *)
        cbn [rev] in Hi.
        destruct (Nat.lt_ge_cases i (length (rev G ++ [44%N])))
          as [Hlt|Hge].
        -- rewrite nth_error_app1 in Hi by assumption.
           destruct (Nat.lt_ge_cases i (length (rev G))) as [Hlt'|Hge'].
           ++ rewrite nth_error_app1 in Hi by assumption. now apply IH.
           ++ rewrite nth_error_app2 in Hi by assumption.
              apply nth_error_singleton in Hi as [Hi ->].
              rewrite length_rev in *.
              destruct (Nat.eqb_spec (i mod 4) 3); [reflexivity|lia].
        -- rewrite nth_error_app2 in Hi by assumption.
           apply nth_error_singleton in Hi as [Hi ->].
           rewrite length_app, length_rev in *. cbn [length] in *.
           destruct (Nat.eqb_spec (i mod 4) 3); [lia|assumption].
      * cbn [rev] in Hi.
        destruct (Nat.lt_ge_cases i (length (rev G))) as [Hlt|Hge].
        -- rewrite nth_error_app1 in Hi by assumption. now apply IH.
        -- rewrite nth_error_app2 in Hi by assumption.
           apply nth_error_singleton in Hi as [Hi ->].
           rewrite length_rev in *.
           destruct (Nat.eqb_spec (i mod 4) 3); [lia|assumption].
Qed.
End FormatCommas.

Module NamesMore.

Import Stats Spec SpecX JsStringFacts.

Lemma eqb_sym a b : eqb a b = eqb b a.
Proof.
  destruct (eqb a b) eqn:E1, (eqb b a) eqn:E2; try reflexivity.
  - apply eqb_eq in E1. subst. now rewrite eqb_refl in E2.
  - apply eqb_eq in E2. subst. now rewrite eqb_refl in E1.
Qed.

Lemma filter_filter (A : Type) (f g : A -> bool) l :
  filter f (filter g l) = filter (fun x => g x && f x) l.
Proof.
  induction l as [|x l IH]; [reflexivity|].
  cbn [filter]. destruct (g x); cbn [filter andb]; [|exact IH].
  destruct (f x); now rewrite IH.
Qed.

(** Meeting the names one after the other keeps the names met before and
    adds the new ones, each where it is first met. *)
Lemma fold_note_keep_first names : forall ks,
  fold_left note names ks
  = ks ++ filter (fun m => negb (existsb (eqb m) ks)) (keep_first names).
Proof.
  induction names as [|n names IH]; intros ks.
  - cbn. now rewrite app_nil_r.
  - cbn [fold_left keep_first filter]. rewrite IH. unfold note.
    destruct (existsb (eqb n) ks) eqn:E; cbn [negb].
    + f_equal. rewrite filter_filter. apply filter_ext_in.
      intros m _. destruct (eqb m n) eqn:Emn; cbn [negb andb];
        [|reflexivity].
      apply eqb_eq in Emn. subst m. now rewrite E.
    + rewrite <- app_assoc. cbn [app]. do 2 f_equal.
      rewrite filter_filter. apply filter_ext.
      intros m. rewrite existsb_app. cbn [existsb].
      rewrite orb_false_r, negb_orb, andb_comm. reflexivity.
Qed.

Lemma first_seen_keep_first names : first_seen names = keep_first names.
Proof.
  unfold first_seen. rewrite fold_note_keep_first. cbn [app existsb negb].
  apply TallyFacts.filter_all. apply Forall_forall. reflexivity.
Qed.
End NamesMore.

Module GqlMore.

Import Stats Spec SpecX Gql.

Lemma gql_data x user :
  gql x = Data user ->
  exists r, x = Answered r /\ res_ok r = true /\ json_errors r = false
            /\ json_data r = Some user.
Proof.
  destruct x as [|r]; cbn [gql]; [discriminate|].
  destruct (res_ok r) eqn:Eo; cbn [negb orb]; [|discriminate].
  destruct (json_errors r) eqn:Ee; [discriminate|].
  destruct (json_data r) as [u|] eqn:Ed; [|discriminate].
  intros H. inversion H; subst. now exists r.
Qed.
End GqlMore.

Module FormatLast.

Import Stats Spec SpecX FormatMore FormatCommas.
Local Open Scope nat_scope.

(** A formatted number ends in a digit. *)
Lemma formatNumber_last n :
  exists body d,
    formatNumber n = body ++ [d] /\ JsObject.is_digit d = true.
Proof.
  assert (H : forall m, exists body d,
             group_thousands (decimal m) = body ++ [d]
             /\ JsObject.is_digit d = true).
  { intros m.
    destruct (group_thousands_head (decimal_digits m) (@decimal_nonempty m))
      as (h & rest & E & _).
    destruct (rev (group_thousands (decimal m))) as [|d body] eqn:Er.
    - apply (f_equal (@rev _)) in Er. rewrite rev_involutive, E in Er.
      discriminate.
    - exists (rev body), d. split.
      + apply (f_equal (@rev _)) in Er. rewrite rev_involutive in Er.
        exact Er.
      + pose proof (@group_thousands_commas _ (decimal_digits m) 0 d) as Hc.
        rewrite Er in Hc. now apply Hc. }
  unfold formatNumber. destruct n as [|p|p].
  - apply H.
  - apply H.
  - destruct (H (Npos p)) as (body & d & E & Hd).
    exists (45%N :: body), d. rewrite E. now split.
Qed.
End FormatLast.

Module ColorMore.

Import Stats Spec SpecX JsStringFacts FormatMore.
Local Open Scope nat_scope.

Lemma startsWith_app p s : startsWith p (p ++ s) = true.
Proof.
  induction p as [|c p IH]; [reflexivity|].
  cbn [app startsWith]. now rewrite N.eqb_refl, IH.
Qed.

Lemma startsWith_In p : forall s c,
  startsWith p s = true -> In c p -> In c s.
Proof.
  induction p as [|a p IH]; intros [|b s] c H Hc; cbn [startsWith] in H;
    try contradiction; try discriminate.
  apply andb_true_iff in H as [Hab Hps]. apply N.eqb_eq in Hab. subst b.
  destruct Hc as [->|Hc]; [now left|right; now apply IH].
Qed.

Lemma endsWith_In p s c : endsWith p s = true -> In c p -> In c s.
Proof.
  unfold endsWith. intros H Hc. apply in_rev.
  eapply startsWith_In; [exact H|]. now apply in_rev in Hc.
Qed.

(** A line without an at sign and without an underscore is dim. *)
Lemma color_dim U line :
  ~ In 64%N line -> ~ In 95%N line -> color U line = dim.
Proof.
  intros Hat Hus. unfold color.
  destruct (startsWith (U ++ lit "@github") line) eqn:Es.
  - exfalso. apply Hat. eapply startsWith_In; [exact Es|].
    apply in_or_app. right. now left.
  - destruct (eqb line []); [reflexivity|].
    destruct (endsWith (lit "$ _") line) eqn:Ee; [|reflexivity].
    exfalso. apply Hus. eapply endsWith_In; [exact Ee|].
    cbn. tauto.
Qed.

(** A line that begins with the handle and [@github] is bright. *)
Lemma color_prompt U rest : color U (U ++ lit "@github" ++ rest) = green.
Proof. unfold color. now rewrite app_assoc, startsWith_app. Qed.

Lemma color_blank U : color U [] = dim.
Proof.
  unfold color. destruct (U ++ lit "@github") as [|c p] eqn:E.
  - apply app_eq_nil in E as [_ E]. discriminate.
  - reflexivity.
Qed.

Lemma group_thousands_chars ds c :
  Forall (fun c => JsObject.is_digit c = true) ds ->
  In c (group_thousands ds) -> JsObject.is_digit c = true \/ c = 44%N.
Proof.
  induction 1 as [|d ds Hd Hds IH]; [contradiction|].
  cbn [group_thousands].
  destruct (negb (Nat.eqb (length ds) 0) && Nat.eqb (length ds mod 3) 0);
    cbn [In]; intros H; intuition (subst; auto).
Qed.

(** A formatted number holds digits, commas and at most a minus sign. *)
Lemma formatNumber_chars n c :
  In c (formatNumber n) ->
  JsObject.is_digit c = true \/ c = 44%N \/ c = 45%N.
Proof.
  unfold formatNumber. destruct n as [|p|p]; cbn [In].
  - intros H. apply group_thousands_chars in H; [tauto|apply decimal_digits].
  - intros H. apply group_thousands_chars in H; [tauto|apply decimal_digits].
  - intros [<-|H]; [tauto|].
    apply group_thousands_chars in H; [tauto|apply decimal_digits].
Qed.

Lemma formatNumber_plain n c :
  In c (formatNumber n) -> c <> 64%N /\ c <> 95%N.
Proof.
  intros H. apply formatNumber_chars in H as [H|[->| ->]];
    [|split; discriminate|split; discriminate].
  unfold JsObject.is_digit in H. apply andb_true_iff in H as [_ H].
  apply N.leb_le in H. split; lia.
Qed.

Lemma endsWith_last p s a b :
  a <> b -> endsWith (p ++ [a]) (s ++ [b]) = false.
Proof.
  intros H. unfold endsWith. rewrite !rev_unit. cbn [startsWith].
  destruct (N.eqb_spec a b); [contradiction|reflexivity].
Qed.

(** A line of a label without an at sign and a formatted number is dim. *)
Lemma color_summary U label n :
  ~ In 64%N label -> color U (label ++ formatNumber n) = dim.
Proof.
  intros Hat. unfold color.
  destruct (startsWith (U ++ lit "@github") (label ++ formatNumber n))
    eqn:Es.
  - exfalso.
    assert (Hin : In 64%N (label ++ formatNumber n)).
    { eapply startsWith_In; [exact Es|]. apply in_or_app. right. now left. }
    apply in_app_or in Hin as [Hin|Hin]; [contradiction|].
    apply formatNumber_plain in Hin. tauto.
  - destruct (eqb (label ++ formatNumber n) []); [reflexivity|].
    destruct (FormatLast.formatNumber_last n) as (body & d & -> & Hd).
    change (lit "$ _") with ([36%N; 32%N] ++ [95%N]).
    rewrite !app_assoc, endsWith_last; [reflexivity|].
    intros <-. discriminate.
Qed.

Lemma String_of_int_chars z c :
  In c (String_of_int z) -> JsObject.is_digit c = true \/ c = 45%N.
Proof.
  assert (Hd : forall n, In c (decimal n) -> JsObject.is_digit c = true).
  { intros n. pose proof (decimal_digits n) as F.
    rewrite Forall_forall in F. apply F. }
  unfold String_of_int. destruct z as [|p|p]; cbn [In].
  - intros H. left. now apply Hd in H.
  - intros H. left. now apply Hd in H.
  - intros [<-|H]; [now right|]. left. now apply Hd in H.
Qed.

Lemma String_of_integral_no_at p : ~ In 64%N (String_of_integral p).
Proof.
  destruct p as [z| |[|]]; cbn [String_of_integral].
  - intros H. apply String_of_int_chars in H as [H|H]; [|discriminate].
    unfold JsObject.is_digit in H. apply andb_true_iff in H as [_ H].
    apply N.leb_le in H. lia.
  - cbn. intuition discriminate.
  - cbn. intuition discriminate.
  - cbn. intuition discriminate.
Qed.

(** A language line is dim unless the name holds an at sign. *)
Lemma color_langLine U l :
  ~ In 64%N (l_name l) -> color U (langLine l) = dim.
Proof.
  intros Hat. unfold color.
  destruct (startsWith (U ++ lit "@github") (langLine l)) eqn:Es.
  - exfalso.
    assert (Hin : In 64%N (langLine l)).
    { eapply startsWith_In; [exact Es|]. apply in_or_app. right. now left. }
    unfold langLine, padEnd, padStart in Hin.
    repeat (apply in_app_or in Hin as [Hin|Hin]); try contradiction.
    + apply repeat_spec in Hin. discriminate.
    + cbn in Hin. intuition discriminate.
    + apply repeat_spec in Hin. discriminate.
    + now apply String_of_integral_no_at in Hin.
    + cbn in Hin. intuition discriminate.
  - destruct (eqb (langLine l) []); [reflexivity|].
    unfold langLine. change (lit "%") with [37%N].
    change (lit "$ _") with ([36%N; 32%N] ++ [95%N]).
    rewrite !app_assoc, endsWith_last by discriminate. reflexivity.
Qed.
End ColorMore.

(** ** Characters that XML allows *)

Module XmlFacts.

Import Stats Spec JsStringFacts.
Local Open Scope nat_scope.

Lemma xml_text_app a b : xml_text (a ++ b) = xml_text a && xml_text b.
Proof. apply forallb_app. Qed.

Lemma xml_text_In s :
  xml_text s = true <-> forall c, In c s -> xml_unit c = true.
Proof. apply forallb_forall. Qed.

Lemma is_digit_xml c : JsObject.is_digit c = true -> xml_unit c = true.
Proof.
  unfold JsObject.is_digit, xml_unit. intros H.
  apply andb_true_iff in H as [H1 H2].
  apply N.leb_le in H1. apply N.leb_le in H2.
  assert (E1 : (32 <=? c)%N = true) by (apply N.leb_le; lia).
  assert (E2 : N.eqb c 65534 = false) by (apply N.eqb_neq; lia).
  assert (E3 : N.eqb c 65535 = false) by (apply N.eqb_neq; lia).
  rewrite E1, E2, E3. cbn. apply orb_true_r.
Qed.

Lemma entity_xml c : xml_unit c = true -> xml_text (entity c) = true.
Proof.
  intros H. unfold entity.
  repeat match goal with
         | |- context [N.eqb c ?k] => destruct (N.eqb c k); [reflexivity|]
         end.
  cbn [xml_text forallb]. now rewrite H.
Qed.

(** Escaping brings in no character that XML forbids. *)
Lemma esc_xml s : xml_text s = true -> xml_text (esc s) = true.
Proof.
  rewrite EscFacts.esc_flat_map.
  induction s as [|c s IH]; [reflexivity|].
  cbn [xml_text forallb flat_map]. intros H.
  apply andb_true_iff in H as [Hc Hs].
  change (forallb xml_unit (entity c ++ flat_map entity s))
    with (xml_text (entity c ++ flat_map entity s)).
  rewrite xml_text_app, (entity_xml c Hc). now apply IH.
Qed.

Lemma entity_xml_false c : xml_unit c = false -> entity c = [c].
Proof.
  intros H. apply EscFacts.entity_plain. unfold reserved.
  repeat match goal with
         | |- context [N.eqb c ?k] =>
             destruct (N.eqb_spec c k) as [->|_]; [discriminate H|]
         end.
  reflexivity.
Qed.

(** Nor does it take one out. *)
Lemma esc_xml_false s : xml_text s = false -> xml_text (esc s) = false.
Proof.
  rewrite EscFacts.esc_flat_map.
  induction s as [|c s IH]; [discriminate|].
  cbn [xml_text forallb flat_map]. intros H.
  change (forallb xml_unit (entity c ++ flat_map entity s))
    with (xml_text (entity c ++ flat_map entity s)).
  rewrite xml_text_app.
  destruct (xml_unit c) eqn:Ec.
  - cbn [andb] in H. rewrite (IH H). apply andb_false_r.
  - rewrite (entity_xml_false c Ec). cbn [xml_text forallb].
    now rewrite Ec.
Qed.

Lemma String_of_int_xml z : xml_text (String_of_int z) = true.
Proof.
  apply xml_text_In. intros c H.
  apply ColorMore.String_of_int_chars in H as [H| ->];
    [now apply is_digit_xml|reflexivity].
Qed.

Lemma String_of_integral_xml p : xml_text (String_of_integral p) = true.
Proof.
  destruct p as [z| |[|]]; cbn [String_of_integral];
    [apply String_of_int_xml|reflexivity..].
Qed.

Lemma formatNumber_xml n : xml_text (formatNumber n) = true.
Proof.
  apply xml_text_In. intros c H.
  apply ColorMore.formatNumber_chars in H as [H|[->| ->]];
    [now apply is_digit_xml|reflexivity..].
Qed.

Lemma spaces_xml n : xml_text (repeat 32%N n) = true.
Proof. induction n as [|n IH]; [reflexivity|exact IH]. Qed.

Lemma langLine_xml l :
  xml_text (l_name l) = true -> xml_text (langLine l) = true.
Proof.
  intros H. unfold langLine, padEnd, padStart.
  rewrite !xml_text_app, H, !spaces_xml, String_of_integral_xml.
  reflexivity.
Qed.

Lemma join_xml xs :
  Forall (fun x => xml_text x = true) xs -> xml_text (join LF xs) = true.
Proof.
  induction 1 as [|x xs Hx Hxs IH]; [reflexivity|].
  cbn [join]. destruct xs as [|y ys]; [exact Hx|].
  rewrite !xml_text_app, Hx, IH. reflexivity.
Qed.

Lemma text_open_xml i b : xml_text (text_open i b) = true.
Proof.
  unfold text_open. rewrite !xml_text_app, !String_of_int_xml.
  destruct b; reflexivity.
Qed.

Lemma textNode_xml U line i :
  xml_text line = true -> xml_text (textNode U line i) = true.
Proof.
  intros H. rewrite RenderFacts.textNode_shape.
  rewrite !xml_text_app, text_open_xml, (esc_xml line H). reflexivity.
Qed.

Lemma mapi_from_Forall (A B : Type) (P : A -> Prop) (Q : B -> Prop)
  (f : A -> nat -> B) l :
  (forall x i, P x -> Q (f x i)) ->
  Forall P l -> forall i, Forall Q (JsArray.mapi_from f i l).
Proof.
  intros Hf. induction 1 as [|x l Hx Hl IH]; intros i;
    cbn [JsArray.mapi_from]; constructor; [now apply Hf|apply IH].
Qed.

Lemma lines_xml U r :
  xml_text U = true -> xml_text (name r) = true ->
  forallb (fun l => xml_text (l_name l)) (topLangs r) = true ->
  Forall (fun x => xml_text x = true) (lines U r).
Proof.
  intros HU Hn Hl. rewrite LineFacts.lines_scaffold.
  assert (Ht : xml_text (title U r) = true).
  { unfold title. destruct (name r); assumption. }
  apply Forall_app. split; [|apply Forall_app; split].
  - unfold scaffold.
    repeat constructor;
      rewrite ?xml_text_app, ?HU, ?formatNumber_xml; try reflexivity.
    exact Ht.
  - apply Forall_map. rewrite forallb_forall in Hl.
    apply Forall_forall. intros l Hin. apply langLine_xml. now apply Hl.
  - repeat constructor. unfold cursor_line.
    rewrite xml_text_app, HU. reflexivity.
Qed.

(** The image holds no character that XML forbids when the handle, the
    display name and the language names hold none. *)
Lemma renderTerminalSvg_xml U r :
  xml_text U = true -> xml_text (name r) = true ->
  forallb (fun l => xml_text (l_name l)) (topLangs r) = true ->
  xml_text (renderTerminalSvg U r) = true.
Proof.
  intros HU Hn Hl. rewrite RenderFacts.renderTerminalSvg_shape.
  rewrite !xml_text_app, (esc_xml U HU).
  assert (Hnodes : xml_text (textNodes U r) = true).
  { unfold textNodes. apply join_xml. unfold JsArray.mapi.
    apply mapi_from_Forall with (P := fun x => xml_text x = true).
    - intros x i Hx. now apply textNode_xml.
    - unfold clipped, JsArray.slice0.
      apply TallyFacts.firstn_Forall. now apply lines_xml. }
  rewrite Hnodes. reflexivity.
Qed.

(** A forbidden character of the handle or of the display name is in the
    image. *)
Lemma renderTerminalSvg_xml_handle U r :
  xml_text U = false -> xml_text (renderTerminalSvg U r) = false.
Proof.
  intros HU. rewrite RenderFacts.renderTerminalSvg_shape.
  rewrite !xml_text_app, (esc_xml_false U HU).
  now rewrite andb_false_r.
Qed.

Lemma renderTerminalSvg_xml_name U r :
  xml_text (name r) = false -> xml_text (renderTerminalSvg U r) = false.
Proof.
  intros Hn. rewrite RenderFacts.renderTerminalSvg_shape.
  assert (Ht : title U r = name r).
  { unfold title. destruct (name r); [discriminate Hn|reflexivity]. }
  assert (Hnodes : xml_text (textNodes U r) = false).
  { unfold textNodes. rewrite LineFacts.clipped_scaffold.
    unfold scaffold, JsArray.mapi. cbn [app JsArray.mapi_from join].
    rewrite Ht, !RenderFacts.textNode_shape.
    rewrite !xml_text_app, (esc_xml_false (name r) Hn).
    rewrite !andb_false_r. reflexivity. }
  rewrite !xml_text_app, Hnodes. now rewrite !andb_false_r.
Qed.

End XmlFacts.

(** ** The plain object and the tally of integers *)

Module PlainFacts.

Import Stats Spec SpecX JsStringFacts PlainObject.
Local Open Scope Z_scope.

Lemma own_embed o k :
  own (embed o) k
  = option_map (fun v => Num (toNumber v)) (JsObject.get o k).
Proof.
  induction o as [|[k' v] o IH]; [reflexivity|].
  cbn [embed map own JsObject.get fst snd].
  destruct (eqb k k'); [reflexivity|exact IH].
Qed.

Lemma define_embed o k v :
  define (embed o) k (Num (toNumber v)) = embed (JsObject.set o k v).
Proof.
  induction o as [|[k' v'] o IH]; [reflexivity|].
  cbn [embed map define JsObject.set fst snd].
  destruct (eqb k k'); [reflexivity|].
  cbn [map fst snd]. f_equal. exact IH.
Qed.

Lemma ordinary_spec k :
  ordinary k = true ->
  eqb k proto = false /\ existsb (eqb k) methods = false.
Proof.
  unfold ordinary. intros H. apply andb_true_iff in H as [H1 H2].
  split; [now destruct (eqb k proto)|now destruct (existsb (eqb k) methods)].
Qed.

(** Under an ordinary name the plain object is read and written as the
    tally of integers is. *)
Lemma get_ordinary o k :
  ordinary k = true ->
  get (embed o) k
  = match JsObject.get o k with
    | Some v => Own (Num (toNumber v))
    | None => Undefined
    end.
Proof.
  intros H. destruct (@ordinary_spec k H) as [Hp Hm].
  unfold get. rewrite own_embed.
  destruct (JsObject.get o k); cbn [option_map]; [reflexivity|].
  now rewrite Hp, Hm.
Qed.

Lemma set_ordinary o k v :
  ordinary k = true ->
  set (embed o) k (Num (toNumber v)) = embed (JsObject.set o k v).
Proof.
  intros H. destruct (@ordinary_spec k H) as [Hp _].
  unfold set. rewrite own_embed, Hp.
  destruct (JsObject.get o k); cbn [option_map]; apply define_embed.
Qed.

Lemma get_le_total o k v :
  Forall (fun p => 0 <= snd p) o -> JsObject.get o k = Some v ->
  0 <= v <= tally_total o.
Proof.
  unfold tally_total.
  induction 1 as [|[k' v'] o Hx Ho IH]; cbn [JsObject.get fold_right snd];
    [discriminate|].
  cbn [snd] in Hx.
  assert (H0 : 0 <= fold_right (fun p s => snd p + s) 0 o).
  { clear -Ho. induction Ho as [|p o Hp Ho IH]; cbn [fold_right]; lia. }
  destruct (eqb k k').
  - intros E. inversion E; subst. lia.
  - intros E. specialize (IH E). lia.
Qed.

(** One counted edge. *)
Lemma count_pair_refines o n s :
  ordinary n = true -> Forall (fun p => 0 <= snd p) o ->
  0 <= s -> tally_total o + s < 2 ^ 53 ->
  set (embed o) n (plus (get (embed o) n) s) = embed (count_pair o (n, s)).
Proof.
  intros Hn Ho Hs Hlt. unfold count_pair. cbn [fst snd].
  rewrite (@get_ordinary o n Hn).
  assert (H0 : 0 <= tally_total o).
  { unfold tally_total. clear -Ho.
    induction Ho as [|p o Hp Ho IH]; cbn [fold_right]; lia. }
  destruct (JsObject.get o n) as [v|] eqn:E; cbn [plus nullish].
  - pose proof (@get_le_total o n v Ho E) as Hv.
    rewrite ExactSums.add_exact by lia. now apply set_ordinary.
  - rewrite ExactSums.add_exact by lia. now apply set_ordinary.
Qed.

Lemma plain_add_edge_count e o :
  PlainObject.add_edge o e
  = match edge_count e with
    | Some (n, s) => set o n (plus (get o n) s)
    | None => o
    end.
Proof.
  unfold PlainObject.add_edge, edge_count, edge_name.
  destruct e as [[sz [[[[|c s]|]]|]]|]; reflexivity.
Qed.

Lemma total_nonneg o :
  Forall (fun p => 0 <= snd p) o -> 0 <= tally_total o.
Proof.
  unfold tally_total.
  induction 1 as [|p o Hp Ho IH]; cbn [fold_right]; lia.
Qed.

Lemma sum_nonneg (l : list (jsstring * Z)) :
  Forall (fun p => 0 <= snd p) l ->
  0 <= fold_right (fun p s => snd p + s) 0 l.
Proof. induction 1 as [|p o Hp Ho IH]; cbn [fold_right]; lia. Qed.

(** The counted edges of one repository. *)
Lemma add_edges_refine edges : forall o,
  Forall (fun p => ordinary (fst p) = true /\ 0 <= snd p)
         (counted_edges edges) ->
  Forall (fun p => 0 <= snd p) o ->
  tally_total o
  + fold_right (fun p s => snd p + s) 0 (counted_edges edges) < 2 ^ 53 ->
  fold_left PlainObject.add_edge edges (embed o)
  = embed (fold_left Stats.add_edge edges o).
Proof.
  induction edges as [|e edges IH]; intros o Hc Ho Hlt; [reflexivity|].
  cbn [fold_left]. unfold counted_edges in Hc, Hlt. cbn [flat_map] in Hc, Hlt.
  fold (counted_edges edges) in Hc, Hlt.
  rewrite plain_add_edge_count, AggregateMore.add_edge_count.
  destruct (edge_count e) as [[n s]|]; cbn [app] in Hc, Hlt.
  - inversion Hc as [|p l [Hn Hs] Hc']; subst. cbn [fst snd] in Hn, Hs.
    cbn [fold_right snd] in Hlt.
    assert (Hrest : 0 <= fold_right (fun p s => snd p + s) 0
                          (counted_edges edges)).
    { apply sum_nonneg. eapply Forall_impl; [|exact Hc'].
      now intros p [_ H]. }
    rewrite count_pair_refines by (assumption || lia).
    apply IH; [assumption| |].
    + unfold count_pair. cbn [fst snd].
      apply AggregateMore.set_Forall; [assumption|]. cbn [snd].
      destruct (JsObject.get o n) as [v|] eqn:E; cbn [nullish]; [|lia].
      pose proof (@get_le_total o n v Ho E). lia.
    + unfold count_pair. cbn [fst snd].
      rewrite AggregateMore.tally_total_set. lia.
  - apply IH; assumption.
Qed.

Lemma counted_edges_app a b :
  counted_edges (a ++ b) = counted_edges a ++ counted_edges b.
Proof. unfold counted_edges. apply flat_map_app. Qed.

Lemma fold_right_snd_app (a b : list (jsstring * Z)) :
  fold_right (fun p s => snd p + s) 0 (a ++ b)
  = fold_right (fun p s => snd p + s) 0 a
    + fold_right (fun p s => snd p + s) 0 b.
Proof. induction a as [|x a IH]; cbn [app fold_right]; lia. Qed.

(** The repositories, from any state that the sums still fit. *)
Lemma add_repos_refine repos : forall total o,
  Forall (fun p => ordinary (fst p) = true /\ 0 <= snd p) (counted repos) ->
  Forall (fun r => 0 <= commits_of r) repos ->
  0 <= total ->
  total + fold_right (fun r s => commits_of r + s) 0 repos < 2 ^ 53 ->
  Forall (fun p => 0 <= snd p) o ->
  tally_total o + fold_right (fun p s => snd p + s) 0 (counted repos)
  < 2 ^ 53 ->
  fold_left PlainObject.add_repo repos (toNumber total, embed o)
  = (toNumber (fst (fold_left Stats.add_repo repos (total, o))),
     embed (snd (fold_left Stats.add_repo repos (total, o)))).
Proof.
  induction repos as [|r repos IH]; intros total o Hc Hcm Ht Htl Ho Hol;
    [reflexivity|].
  cbn [fold_left]. unfold counted in Hc, Hol. cbn [flat_map] in Hc, Hol.
  fold (counted repos) in Hc, Hol.
  apply Forall_app in Hc as [Hc1 Hc2].
  rewrite fold_right_snd_app in Hol.
  inversion Hcm as [|r0 l Hr Hcm']; subst. cbn [fold_right] in Htl.
  assert (Hrest : 0 <= fold_right (fun r s => commits_of r + s) 0 repos).
  { clear -Hcm'. induction Hcm' as [|x l Hx Hl IH]; cbn [fold_right]; lia. }
  assert (Hrest2 : 0 <= fold_right (fun p s => snd p + s) 0 (counted repos)).
  { apply sum_nonneg. eapply Forall_impl; [|exact Hc2]. now intros p [_ H]. }
  assert (Hrest1 : 0 <= fold_right (fun p s => snd p + s) 0 (counted_of r)).
  { apply sum_nonneg. eapply Forall_impl; [|exact Hc1]. now intros p [_ H]. }
  destruct r as [r|]; cbn [PlainObject.add_repo Stats.add_repo];
    [|apply IH; assumption].
  cbn [commits_of counted_of] in *.
  destruct (isArchived r); [apply IH; assumption|].
  cbn [fst snd].
  rewrite ExactSums.add_exact by lia.
  rewrite add_edges_refine by (assumption || lia).
  apply IH; try assumption; try lia.
  - rewrite AggregateMore.add_edges_counted.
    apply AggregateMore.count_pairs_nonneg; [assumption|].
    eapply Forall_impl; [|exact Hc1]. now intros p [_ H].
  - rewrite AggregateMore.add_edges_counted,
      AggregateMore.tally_total_count_pairs. lia.
Qed.

Lemma fold_right_map_snd (l : list (jsstring * Z)) :
  fold_right Z.add 0 (map snd l) = fold_right (fun p s => snd p + s) 0 l.
Proof. induction l as [|x l IH]; cbn [map fold_right]; lia. Qed.

Lemma fold_right_map_commits (repos : list (option Repo)) :
  fold_right Z.add 0 (map commits_of repos)
  = fold_right (fun r s => commits_of r + s) 0 repos.
Proof. induction repos as [|x l IH]; cbn [map fold_right]; lia. Qed.

(** On ordinary names and exact sums the loop on the plain object is the
    loop on the tally of integers. *)
Lemma aggregate_refines repos :
  forallb ordinary (map fst (counted repos)) = true ->
  exact_sum (map snd (counted repos)) ->
  exact_sum (map commits_of repos) ->
  PlainObject.aggregate repos
  = (toNumber (fst (Stats.aggregate repos)),
     embed (snd (Stats.aggregate repos))).
Proof.
  intros Hn [Hs1 Hs2] [Hc1 Hc2].
  unfold PlainObject.aggregate, Stats.aggregate.
  rewrite fold_right_map_snd in Hs2. rewrite fold_right_map_commits in Hc2.
  apply (@add_repos_refine repos 0 []).
  - rewrite forallb_forall in Hn. rewrite Forall_forall in Hs1.
    apply Forall_forall. intros p Hp. split.
    + apply Hn. now apply in_map.
    + apply Hs1. now apply in_map.
  - rewrite Forall_forall in Hc1. apply Forall_forall. intros r Hr.
    apply Hc1. now apply in_map.
  - lia.
  - lia.
  - constructor.
  - cbn. lia.
Qed.

(** *** Name by name *)

(** The plain object and the tally of integers hold the same under every
    ordinary name. *)
Definition agree (po : PlainObject.t) (o : JsObject.t) : Prop :=
  forall n,
    ordinary n = true ->
    own po n = option_map (fun v => Num (toNumber v)) (JsObject.get o n).

Lemma own_define o k v n :
  own (define o k v) n = if eqb n k then Some v else own o n.
Proof.
  induction o as [|[k' v'] o IH]; cbn [define own].
  - destruct (eqb n k); reflexivity.
  - destruct (eqb k k') eqn:Ek; cbn [own].
    + apply eqb_eq in Ek. subst k'. destruct (eqb n k); reflexivity.
    + destruct (eqb n k') eqn:En.
      * apply eqb_eq in En. subst k'.
        destruct (eqb n k) eqn:E; [|reflexivity].
        apply eqb_eq in E. subst k. now rewrite eqb_refl in Ek.
      * exact IH.
Qed.

Lemma own_set o k v n :
  ordinary n = true ->
  own (set o k v) n = if eqb n k then Some v else own o n.
Proof.
  intros Hn. destruct (@ordinary_spec n Hn) as [Hp _]. unfold set.
  destruct (own o k) eqn:Ek; [apply own_define|].
  destruct (eqb k proto) eqn:E; [|apply own_define].
  apply eqb_eq in E. subst k. now rewrite Hp.
Qed.

Lemma agree_count_pair po o m s :
  agree po o -> Forall (fun p => 0 <= snd p) o ->
  0 <= s -> tally_total o + s < 2 ^ 53 ->
  agree (set po m (plus (get po m) s)) (count_pair o (m, s)).
Proof.
  intros Ha Ho Hs Hlt n Hn. unfold count_pair. cbn [fst snd].
  rewrite (@own_set po m _ n Hn), AggregateMore.get_set.
  destruct (eqb n m) eqn:E; [|now apply Ha].
  apply eqb_eq in E. subst m. cbn [option_map]. f_equal.
  destruct (@ordinary_spec n Hn) as [Hp Hm].
  pose proof (total_nonneg Ho) as H0.
  unfold get. rewrite (Ha n Hn).
  destruct (JsObject.get o n) as [v|] eqn:Eg; cbn [option_map nullish].
  - pose proof (@get_le_total o n v Ho Eg) as Hv. cbn [plus].
    now rewrite ExactSums.add_exact by lia.
  - rewrite Hp, Hm. cbn [plus]. now rewrite ExactSums.add_exact by lia.
Qed.

Lemma agree_add_edges edges : forall po o,
  agree po o ->
  Forall (fun p => 0 <= snd p) (counted_edges edges) ->
  Forall (fun p => 0 <= snd p) o ->
  tally_total o
  + fold_right (fun p s => snd p + s) 0 (counted_edges edges) < 2 ^ 53 ->
  agree (fold_left PlainObject.add_edge edges po)
        (fold_left Stats.add_edge edges o).
Proof.
  induction edges as [|e edges IH]; intros po o Ha Hc Ho Hlt; [exact Ha|].
  cbn [fold_left]. unfold counted_edges in Hc, Hlt. cbn [flat_map] in Hc, Hlt.
  fold (counted_edges edges) in Hc, Hlt.
  rewrite plain_add_edge_count, AggregateMore.add_edge_count.
  destruct (edge_count e) as [[n s]|]; cbn [app] in Hc, Hlt.
  - inversion Hc as [|p l Hs Hc']; subst. cbn [snd] in Hs.
    cbn [fold_right snd] in Hlt.
    pose proof (sum_nonneg Hc') as Hrest.
    apply IH; [apply agree_count_pair; (assumption || lia)|assumption| |].
    + unfold count_pair. cbn [fst snd].
      apply AggregateMore.set_Forall; [assumption|]. cbn [snd].
      destruct (JsObject.get o n) as [v|] eqn:E; cbn [nullish]; [|lia].
      pose proof (@get_le_total o n v Ho E). lia.
    + unfold count_pair. cbn [fst snd].
      rewrite AggregateMore.tally_total_set. lia.
  - apply IH; assumption.
Qed.

Lemma agree_add_repos repos : forall ptotal po total o,
  ptotal = toNumber total -> agree po o ->
  Forall (fun p => 0 <= snd p) (counted repos) ->
  Forall (fun r => 0 <= commits_of r) repos ->
  0 <= total ->
  total + fold_right (fun r s => commits_of r + s) 0 repos < 2 ^ 53 ->
  Forall (fun p => 0 <= snd p) o ->
  tally_total o + fold_right (fun p s => snd p + s) 0 (counted repos)
  < 2 ^ 53 ->
  fst (fold_left PlainObject.add_repo repos (ptotal, po))
  = toNumber (fst (fold_left Stats.add_repo repos (total, o)))
  /\ agree (snd (fold_left PlainObject.add_repo repos (ptotal, po)))
           (snd (fold_left Stats.add_repo repos (total, o))).
Proof.
  induction repos as [|r repos IH];
    intros ptotal po total o Ep Ha Hc Hcm Ht Htl Ho Hol;
    [now split|].
  cbn [fold_left]. unfold counted in Hc, Hol. cbn [flat_map] in Hc, Hol.
  fold (counted repos) in Hc, Hol.
  apply Forall_app in Hc as [Hc1 Hc2].
  rewrite fold_right_snd_app in Hol.
  inversion Hcm as [|r0 l Hr Hcm']; subst. cbn [fold_right] in Htl.
  assert (Hrest : 0 <= fold_right (fun r s => commits_of r + s) 0 repos).
  { clear -Hcm'. induction Hcm' as [|x l Hx Hl IH]; cbn [fold_right]; lia. }
  pose proof (sum_nonneg Hc2) as Hrest2.
  pose proof (sum_nonneg Hc1) as Hrest1.
  destruct r as [r|]; cbn [PlainObject.add_repo Stats.add_repo];
    [|apply IH; (assumption || reflexivity)].
  cbn [commits_of counted_of] in *.
  destruct (isArchived r); [apply IH; (assumption || reflexivity)|].
  cbn [fst snd].
  apply IH; try assumption; try lia.
  - now rewrite ExactSums.add_exact by lia.
  - apply agree_add_edges; (assumption || lia).
  - rewrite AggregateMore.add_edges_counted.
    now apply AggregateMore.count_pairs_nonneg.
  - rewrite AggregateMore.add_edges_counted,
      AggregateMore.tally_total_count_pairs. lia.
Qed.

(** Whatever the names of the other edges, the plain object holds under an
    ordinary name what the tally of integers holds. *)
Lemma aggregate_agrees repos :
  exact_sum (map snd (counted repos)) ->
  exact_sum (map commits_of repos) ->
  fst (PlainObject.aggregate repos) = toNumber (fst (Stats.aggregate repos))
  /\ forall n,
       ordinary n = true ->
       get (snd (PlainObject.aggregate repos)) n
       = match JsObject.get (snd (Stats.aggregate repos)) n with
         | Some v => Own (Num (toNumber v))
         | None => Undefined
         end.
Proof.
  intros [Hs1 Hs2] [Hc1 Hc2].
  rewrite fold_right_map_snd in Hs2. rewrite fold_right_map_commits in Hc2.
  unfold PlainObject.aggregate, Stats.aggregate.
  destruct (@agree_add_repos repos (toNumber 0) [] 0 []) as [Ht Ha];
    try reflexivity; try lia.
  - intros n _. reflexivity.
  - rewrite Forall_forall in Hs1. apply Forall_forall. intros p Hp.
    apply Hs1. now apply in_map.
  - rewrite Forall_forall in Hc1. apply Forall_forall. intros r Hr.
    apply Hc1. now apply in_map.
  - constructor.
  - cbn. lia.
  - split; [exact Ht|]. intros n Hn.
    destruct (@ordinary_spec n Hn) as [Hp Hm].
    unfold get.
    match goal with
    | |- context [own ?po n] =>
        replace (own po n) with
          (option_map (fun v => Num (toNumber v))
             (JsObject.get (snd (fold_left Stats.add_repo repos (0, []))) n))
          by (symmetry; exact (Ha n Hn))
    end.
    destruct (JsObject.get _ n); cbn [option_map]; [reflexivity|].
    now rewrite Hp, Hm.
Qed.

(** *** The names of the plain object *)

Lemma keys_define o k v : map fst (define o k v) = note (map fst o) k.
Proof.
  unfold note. induction o as [|[k' v'] o IH]; [reflexivity|].
  cbn [define map fst existsb].
  destruct (eqb k k') eqn:E.
  - apply eqb_eq in E. subst k'. reflexivity.
  - cbn [map fst orb]. rewrite IH.
    destruct (existsb (eqb k) (map fst o)); reflexivity.
Qed.

Lemma own_keys o k : own o k = None <-> existsb (eqb k) (map fst o) = false.
Proof.
  induction o as [|[k' v'] o IH]; cbn [own map fst existsb]; [tauto|].
  destruct (eqb k k'); cbn [orb]; [split; discriminate|exact IH].
Qed.

Lemma plain_keys_set o k v :
  map fst (set o k v)
  = if eqb k proto then map fst o else note (map fst o) k.
Proof.
  unfold set. destruct (own o k) eqn:E.
  - rewrite keys_define. destruct (eqb k proto); [|reflexivity].
    unfold note. destruct (existsb (eqb k) (map fst o)) eqn:Ex;
      [reflexivity|].
    apply own_keys in Ex. congruence.
  - destruct (eqb k proto); [reflexivity|apply keys_define].
Qed.

Lemma plain_keys_add_edges edges : forall o,
  map fst (fold_left PlainObject.add_edge edges o)
  = fold_left note
      (filter (fun n => negb (eqb n proto)) (map fst (counted_edges edges)))
      (map fst o).
Proof.
  induction edges as [|e edges IH]; intros o; [reflexivity|].
  cbn [fold_left]. rewrite IH, plain_add_edge_count.
  unfold counted_edges. cbn [flat_map].
  rewrite map_app, filter_app, fold_left_app.
  destruct (edge_count e) as [[n s]|]; [|reflexivity].
  cbn [map fst filter]. rewrite plain_keys_set.
  destruct (eqb n proto); reflexivity.
Qed.

Lemma plain_keys_add_repos repos : forall st,
  map fst (snd (fold_left PlainObject.add_repo repos st))
  = fold_left note
      (filter (fun n => negb (eqb n proto)) (map fst (counted repos)))
      (map fst (snd st)).
Proof.
  induction repos as [|r repos IH]; intros st; [reflexivity|].
  cbn [fold_left]. rewrite IH. unfold counted. cbn [flat_map].
  rewrite map_app, filter_app, fold_left_app. f_equal.
  destruct r as [r|]; cbn [PlainObject.add_repo counted_of]; [|reflexivity].
  destruct (isArchived r); [reflexivity|]. cbn [snd].
  apply plain_keys_add_edges.
Qed.

(** The plain object lists the names in the order in which they are first
    met, [__proto__] left out. *)
Lemma plain_aggregate_keys repos :
  map fst (snd (PlainObject.aggregate repos))
  = first_seen
      (filter (fun n => negb (eqb n proto)) (map fst (counted repos))).
Proof. unfold PlainObject.aggregate, first_seen. apply plain_keys_add_repos. Qed.

End PlainFacts.

(* ================================================================== *)
(** * The claims of the specification *)
(* ================================================================== *)

Module Claims.

Import Stats Spec Samples.
Local Open Scope Z_scope.

(** C1, as amended.  Every entry that [computeTopLanguages] returns carries
    the name of a retained entry and the percentage
    [Math.round((size / d) * 100)], computed with binary64 division and
    multiplication and rounded half up, where [d] is the sum of the sizes of
    the retained entries (at most six, not the whole tally) when that sum is
    not zero, and 1 when it is.  The tally of scenario C yields Go 60,
    Rust 20, TS 20. *)
Theorem top_language_percentages (o : JsObject.t) :
  let top := retained o in
  let d := if total_size top =? 0 then 1 else total_size top in
  Forall2
    (fun x l =>
       l_name l = e_name x
       /\ RoundsHalfUp
            (mul (div (toNumber (e_size x)) (toNumber d)) (toNumber 100))
            (l_percent l))
    top (computeTopLanguages o)
  /\ computeTopLanguages scenario_C
     = [ {| l_name := lit "Go"; l_percent := IntVal 60 |};
         {| l_name := lit "Rust"; l_percent := IntVal 20 |};
         {| l_name := lit "TS"; l_percent := IntVal 20 |} ].
Proof.
  intros top d. split; [|reflexivity].
  rewrite TallyFacts.computeTopLanguages_retained. fold top.
  unfold percentages, or_one. rewrite TallyFacts.sum_sizes_total. fold d.
  clearbody d. clearbody top.
  induction top as [|x top IH]; cbn [map]; constructor; [|exact IH].
  cbn [l_name l_percent]. split; [reflexivity|].
  apply RoundFacts.Math_round_spec.
Qed.

(** C1 as worded fails on a tally whose retained sizes sum to zero: the
    script divides by 1 and returns 0, where the quotient by the sum is not
    a number. *)
Lemma zero_sum_percentage :
  computeTopLanguages [(lit "A", 0)]
  = [ {| l_name := lit "A"; l_percent := IntVal 0 |} ]
  /\ claimed_percentages (retained [(lit "A", 0)])
     = [ {| l_name := lit "A"; l_percent := NaNVal |} ].
Proof. split; reflexivity. Qed.

(** The quotient and the product are rounded to binary64 before
    [Math.round] sees them: 29 of 200 is 14.5 percent exactly, and the
    script shows 14. *)
Example tie_rounded_down :
  map l_percent (computeTopLanguages [(lit "A", 171); (lit "B", 29)])
  = [IntVal 86; IntVal 14]
  /\ exact_percent 29 200 = 15.
Proof. split; reflexivity. Qed.

(** The percentages are taken over the retained six, not over the whole
    tally: seven languages of one size get 17 each. *)
Example seven_languages :
  map l_percent
    (computeTopLanguages
       [(lit "a", 1); (lit "b", 1); (lit "c", 1); (lit "d", 1);
        (lit "e", 1); (lit "f", 1); (lit "g", 1)])
  = [IntVal 17; IntVal 17; IntVal 17; IntVal 17; IntVal 17; IntVal 17].
Proof. reflexivity. Qed.

(** C2, as amended.  [computeTopLanguages] returns the first
    min(6, number of languages) entries of the tally sorted by size,
    descending; entries of one size stand in the order in which
    [Object.entries] lists them, which is the order in which the languages
    were first met when no name reads as an array index. *)
Theorem top_languages_order (o : JsObject.t) :
  let listed := map entry_of (JsObject.entries o) in
  exists sorted,
    StableSortedDesc listed sorted
    /\ map l_name (computeTopLanguages o)
       = map e_name (firstn (Nat.min 6 (length o)) sorted)
    /\ length (computeTopLanguages o) = Nat.min 6 (length o)
    /\ Permutation listed (first_met o)
    /\ (plain_names o -> listed = first_met o).
Proof.
  intros listed. exists (JsArray.sort by_size_desc listed).
  split; [apply SortFacts.sort_by_size_desc|].
  assert (Hlen : length (JsArray.sort by_size_desc listed) = length o).
  { rewrite SortFacts.sort_length. unfold listed. rewrite length_map.
    apply Permutation_length, TallyFacts.entries_perm. }
  split; [|split; [|split]].
  - rewrite TallyFacts.computeTopLanguages_retained,
      TallyFacts.percentages_names.
    unfold retained, JsArray.slice0. fold listed. f_equal.
    rewrite <- Hlen, <- firstn_firstn, firstn_all. reflexivity.
  - rewrite TallyFacts.computeTopLanguages_retained,
      TallyFacts.percentages_length.
    apply TallyFacts.retained_length.
  - apply Permutation_map, TallyFacts.entries_perm.
  - intros Hp. unfold listed, first_met.
    now rewrite TallyFacts.entries_plain.
Qed.

(** C2 as worded fails on a tally with a name that reads as an array index:
    of two languages of one size, the one met second is listed first. *)
Lemma index_name_listed_first :
  snd (aggregate [index_named_repo]) = [(lit "B", 1); (lit "0", 1)]
  /\ map l_name (computeTopLanguages (snd (aggregate [index_named_repo])))
     = [lit "0"; lit "B"]
  /\ map e_name (claimed_retained (snd (aggregate [index_named_repo])))
     = [lit "B"; lit "0"].
Proof. repeat split; reflexivity. Qed.

(** C3.  For a tally of non-negative sizes, with a total below 2^53, every
    percentage is an integer from 0 to 100; the divisor is never zero; and
    the empty tally gives the empty list, with the divisor 1. *)
Theorem percentages_within_bounds (o : JsObject.t) :
  Forall (fun p => 0 <= snd p) o ->
  tally_total o < 2 ^ 53 ->
  Forall (fun l => exists z, l_percent l = IntVal z /\ 0 <= z <= 100)
         (computeTopLanguages o)
  /\ or_one (sum_sizes (retained o)) <> 0
  /\ (o = [] ->
      computeTopLanguages o = [] /\ or_one (sum_sizes (retained o)) = 1).
Proof.
  intros Hnn Hlt. split; [|split].
  - rewrite TallyFacts.computeTopLanguages_retained.
    destruct (TallyFacts.retained_total Hnn) as [Hr Ht].
    apply TallyFacts.percentages_range; [assumption|lia].
  - unfold or_one. destruct (Z.eqb_spec (sum_sizes (retained o)) 0); lia.
  - intros ->. split; reflexivity.
Qed.

Lemma percentages_within_bounds_witness :
  Forall (fun l => exists z, l_percent l = IntVal z /\ 0 <= z <= 100)
         (computeTopLanguages scenario_C)
  /\ or_one (sum_sizes (retained scenario_C)) <> 0
  /\ (scenario_C = [] ->
      computeTopLanguages scenario_C = []
      /\ or_one (sum_sizes (retained scenario_C)) = 1).
Proof.
  apply (@percentages_within_bounds scenario_C).
  - repeat constructor; cbn; lia.
  - reflexivity.
Defined.

(** C4, as amended.  The rendered image is fixed text around the escaped
    account handle and the text nodes; each text node is an opening tag
    that holds none of the line's text, the escaped line (display name,
    handle, language names and numbers alike), and the closing tag.
    Escaped text consists of unreserved characters and the five entities
    only, reads back as the original, and holds no raw [<], [>], double
    quote or single quote.  Every other code unit is embedded as it is: the
    image holds no character that XML forbids when the handle, the display
    name and the language names hold none, and it holds one when the handle
    or the display name does. *)
Theorem free_text_is_escaped (USERNAME : jsstring) (r : RenderInput) :
  renderTerminalSvg USERNAME r
  = svg_head ++ esc USERNAME ++ svg_mid ++ esc USERNAME ++ svg_tail
    ++ join LF
         (JsArray.mapi
            (fun line i =>
               text_open i (bright USERNAME line) ++ esc line
               ++ lit "</text>")
            (clipped USERNAME r))
    ++ LF ++ lit "</svg>"
  /\ (forall s,
        Escaped (esc s)
        /\ unesc (esc s) = s
        /\ forall x, In x (esc s) ->
             x <> 60%N /\ x <> 62%N /\ x <> 34%N /\ x <> 39%N)
  /\ (forall c s, reserved c = false -> esc (c :: s) = c :: esc s)
  /\ (xml_text USERNAME = true ->
      xml_text (name r) = true ->
      forallb (fun l => xml_text (l_name l)) (topLangs r) = true ->
      xml_text (renderTerminalSvg USERNAME r) = true)
  /\ (xml_text USERNAME = false \/ xml_text (name r) = false ->
      xml_text (renderTerminalSvg USERNAME r) = false).
Proof.
  split; [|split; [|split; [|split]]].
  - rewrite RenderFacts.renderTerminalSvg_shape. unfold textNodes.
    do 7 f_equal. unfold JsArray.mapi. generalize 0%nat.
    induction (clipped USERNAME r) as [|line ls IH]; intros i;
      [reflexivity|].
    cbn [JsArray.mapi_from]. now rewrite RenderFacts.textNode_shape, IH.
  - intros s. split; [apply EscFacts.esc_Escaped|].
    split; [apply EscFacts.unesc_esc|]. apply EscFacts.esc_no_raw.
  - intros c s Hc. rewrite !EscFacts.esc_flat_map. cbn [flat_map].
    now rewrite (EscFacts.entity_plain c Hc).
  - apply XmlFacts.renderTerminalSvg_xml.
  - intros [H|H];
      [now apply XmlFacts.renderTerminalSvg_xml_handle
      |now apply XmlFacts.renderTerminalSvg_xml_name].
Qed.

Example esc_example :
  esc (lit "R&D <b>'x'</b>") = lit "R&amp;D &lt;b&gt;&#39;x&#39;&lt;/b&gt;".
Proof. reflexivity. Qed.

(** C4 as worded fails: the control character U+0001 in a display name is
    no reserved character, so it is embedded as it is, and the image holds
    a character that no XML document may hold. *)
Lemma control_character_is_embedded :
  esc [65%N; 1%N] = [65%N; 1%N]
  /\ xml_unit 1%N = false
  /\ nth_error (JsArray.mapi (textNode octocat)
                  (clipped octocat control_named)) 1
     = Some (text_open 1 false ++ [65%N; 1%N] ++ lit "</text>")
  /\ xml_text (renderTerminalSvg octocat control_named) = false.
Proof. repeat split; reflexivity. Qed.

(** C5.  A repository record that is missing or archived leaves the total
    commit count and the language tally as they would be without it,
    whatever its fields hold. *)
Theorem skipped_repository_counts_nothing
  (pre post : list (option Repo)) (r : option Repo) :
  skipped r = true ->
  aggregate (pre ++ r :: post) = aggregate (pre ++ post).
Proof.
  intros H. unfold aggregate. apply AggregateFacts.fold_left_skip.
  intros st. now apply AggregateFacts.add_repo_skipped.
Qed.

Lemma skipped_repository_counts_nothing_witness :
  aggregate ([live_repo] ++ archived_repo :: [None; live_repo])
  = aggregate ([live_repo] ++ [None; live_repo]).
Proof.
  apply (@skipped_repository_counts_nothing
           [live_repo] [None; live_repo] archived_repo).
  reflexivity.
Defined.

Example aggregate_example :
  aggregate [live_repo; archived_repo; None; live_repo]
  = (20, [(lit "Go", 600)]).
Proof. reflexivity. Qed.

(** C6.  The loop issues at least one and at most three requests; three
    when every response asks for another page; and [k + 1] when the
    response to request [k] is the first that does not. *)
Theorem fetch_issues_at_most_three_requests (gql : Api) :
  (1 <= length (fst (fetch gql)) <= 3)%nat
  /\ ((forall n a, has_next (gql n a) = true) ->
      length (fst (fetch gql)) = 3%nat)
  /\ (forall k,
        (k < 3)%nat ->
        (forall n a, (n < k)%nat -> has_next (gql n a) = true) ->
        (forall a, has_next (gql k a) = false) ->
        length (fst (fetch gql)) = S k).
Proof.
  split; [|split].
  - split; [|apply FetchFacts.fetch_from_bound].
    unfold fetch. rewrite FetchFacts.fetch_from_step.
    destruct (has_next (gql 0%nat (after initial))); lia.
  - intros Hall. unfold fetch.
    rewrite !FetchFacts.fetch_from_step, !Hall. reflexivity.
  - intros k Hk Hbefore Hstop. unfold fetch.
    destruct k as [|[|[|k]]]; try lia.
    + now rewrite FetchFacts.fetch_from_step, Hstop.
    + rewrite FetchFacts.fetch_from_step, Hbefore by lia.
      now rewrite FetchFacts.fetch_from_step, Hstop.
    + rewrite FetchFacts.fetch_from_step, Hbefore by lia.
      rewrite FetchFacts.fetch_from_step, Hbefore by lia.
      now rewrite FetchFacts.fetch_from_step, Hstop.
Qed.

Example endless_three_requests :
  fst (fetch endless) = [None; Some (lit "0"); Some (lit "1")].
Proof. reflexivity. Qed.

(** C7, as amended.  The line list is cut to 11 lines, the nine lines of
    the scaffold included.  With no language all eleven lines of the
    scaffold are rendered, the cursor line last; with languages at most two
    language lines are rendered and the cursor line is dropped; the blank
    line after the languages is kept when there is one language and dropped
    when there are more. *)
Theorem rendered_lines_are_clipped (USERNAME : jsstring) (r : RenderInput) :
  maxLines = 11%nat
  /\ length (clipped USERNAME r) = 11%nat
  /\ clipped USERNAME r
     = scaffold USERNAME r ++ firstn 2 (map langLine (topLangs r))
       ++ match topLangs r with
          | [] => [[]; cursor_line USERNAME]
          | [_] => [[]]
          | _ :: _ :: _ => []
          end.
Proof.
  split; [reflexivity|]. split.
  - apply LineFacts.clipped_length.
  - apply LineFacts.clipped_cases.
Qed.

(** C7 as worded fails for a single language: the blank line after the
    language line is the eleventh line and is rendered. *)
Lemma single_language_keeps_separator :
  clipped octocat one_language
  = claimed_clipped octocat one_language ++ [[]]
  /\ length (claimed_clipped octocat one_language) = 10%nat
  /\ nth_error (JsArray.mapi (textNode octocat)
                  (clipped octocat one_language)) 10
     = Some (text_open 10 false ++ lit "</text>").
Proof. repeat split; reflexivity. Qed.

(** C8.  When the first response carries no display name (or an empty
    one), the second line, the answer to [whoami], is the account handle,
    and its text node holds the escaped handle. *)
Theorem whoami_falls_back_to_handle
  (USERNAME : jsstring) (gql : Api) (user : option User)
  (reqs : list (option jsstring)) (st : FetchState) :
  gql 0%nat None = Data user ->
  nullish (display_name user) [] = [] ->
  fetch gql = (reqs, Some st) ->
  nth_error (clipped USERNAME (summary st)) 1 = Some USERNAME
  /\ nth_error (JsArray.mapi (textNode USERNAME)
                  (clipped USERNAME (summary st))) 1
     = Some (text_open 1 (bright USERNAME USERNAME) ++ esc USERNAME
             ++ lit "</text>")
  /\ main USERNAME gql
     = (reqs, Some (renderTerminalSvg USERNAME (summary st))).
Proof.
  intros Hg Hn Hf.
  assert (Hline : nth_error (clipped USERNAME (summary st)) 1
                  = Some USERNAME).
  { rewrite LineFacts.clipped_scaffold. cbn [scaffold app nth_error].
    rewrite NameFacts.title_fallback; [reflexivity|].
    rewrite NameFacts.summary_name.
    now rewrite (NameFacts.fetch_userName gql Hg Hf). }
  split; [exact Hline|]. split.
  - rewrite (NameFacts.mapi_nth_error _ _ _ Hline).
    now rewrite RenderFacts.textNode_shape.
  - unfold main. rewrite Hf. reflexivity.
Qed.

Lemma whoami_falls_back_to_handle_witness :
  nth_error (clipped octocat (summary nameless_state)) 1 = Some octocat.
Proof.
  refine (proj1 (@whoami_falls_back_to_handle octocat nameless
                   nameless_user [None] nameless_state _ _ _));
    reflexivity.
Defined.

(** C9, as amended.  The line of the [i]-th language is line [9 + i]; it is
    the name padded with spaces to 14 code units, one more space, the
    percentage padded in front to 5 code units, and a percent sign: 21 code
    units when the name has at most 14 and the percentage at most 5. *)
Theorem language_line_format
  (USERNAME : jsstring) (r : RenderInput) (i : nat) (l : TopLang) :
  nth_error (topLangs r) i = Some l ->
  let pct := String_of_integral (l_percent l) in
  nth_error (lines USERNAME r) (9 + i)
  = Some (l_name l ++ repeat 32%N (14 - length (l_name l))
          ++ [32%N]
          ++ repeat 32%N (5 - length pct) ++ pct
          ++ [37%N])
  /\ ((length (l_name l) <= 14)%nat -> (length pct <= 5)%nat ->
      length (langLine l) = 21%nat).
Proof.
  intros H pct. split.
  - rewrite (LineFacts.lines_language USERNAME r i H).
    unfold langLine, padEnd, padStart. fold pct.
    repeat rewrite <- app_assoc. reflexivity.
  - apply LineFacts.langLine_length.
Qed.

Lemma language_line_format_witness :
  nth_error (lines octocat two_languages) 9
  = Some (lit "Go                60%").
Proof.
  refine (proj1 (@language_line_format octocat two_languages 0 go_60 _)).
  reflexivity.
Defined.

(** C9 as worded fails: a space stands between the padded name and the
    padded percentage, so the line has 21 code units, not 20. *)
Lemma language_line_has_separator :
  langLine go_60 = lit "Go                60%"
  /\ claimed_langLine go_60 = lit "Go               60%"
  /\ length (langLine go_60) = 21%nat
  /\ length (claimed_langLine go_60) = 20%nat.
Proof. repeat split; reflexivity. Qed.

(** C10.  Aggregation and rendering have one outcome for each fetched
    state, whatever sorting algorithm the engine uses: the run has an
    output, and every output that ECMAScript allows is that one. *)
Theorem aggregation_and_rendering_deterministic
  (USERNAME : jsstring) (st : FetchState) :
  Run USERNAME st (summarize USERNAME st)
  /\ forall out1 out2,
       Run USERNAME st out1 -> Run USERNAME st out2 -> out1 = out2.
Proof.
  assert (Hrun : forall out, Run USERNAME st out ->
                             out = summarize USERNAME st).
  { intros out [total langSizes sorted Ha Hs].
    unfold summarize, summary. rewrite Ha.
    unfold computeTopLanguages.
    now rewrite (SortFacts.StableSortedDesc_unique Hs). }
  split.
  - unfold summarize, summary.
    destruct (aggregate (allRepos st)) as [total langSizes] eqn:Ha.
    apply Run_intro with (langSizes := langSizes) (sorted :=
      JsArray.sort by_size_desc (map entry_of (JsObject.entries langSizes)));
      [exact Ha|apply SortFacts.sort_by_size_desc].
  - intros out1 out2 H1 H2.
    now rewrite (Hrun out1 H1), (Hrun out2 H2).
Qed.

End Claims.

(* ================================================================== *)
(** * Further properties of the script *)
(* ================================================================== *)

Module Extras.

Import Stats Spec SpecX Gql Samples SamplesX.
Local Open Scope Z_scope.

(** ** The fetch loop *)

(** X1.  The first request carries no cursor; every later request follows
    a response that asked for another page and carries the [endCursor] of
    that response. *)
Theorem requests_carry_previous_cursor (gql : Api) :
  nth_error (fst (fetch gql)) 0 = Some None
  /\ forall i a b,
       nth_error (fst (fetch gql)) i = Some a ->
       nth_error (fst (fetch gql)) (S i) = Some b ->
       has_next (gql i a) = true /\ b = cursor_of (gql i a).
Proof.
  split.
  - apply (FetchMore.fetch_from_head gql 2 0 initial).
  - intros i a b Ha Hb.
    exact (FetchMore.fetch_from_chain gql 3 0 initial i Ha Hb).
Qed.

(** X2.  The run fails exactly when one of the requests it issues throws;
    that request is the last one issued, and then [main] writes no
    image. *)
Theorem run_fails_when_a_request_throws (USERNAME : jsstring) (gql : Api) :
  (snd (fetch gql) = None <->
   exists i a, nth_error (fst (fetch gql)) i = Some a /\ gql i a = Throws)
  /\ (forall i a,
        nth_error (fst (fetch gql)) i = Some a -> gql i a = Throws ->
        length (fst (fetch gql)) = S i)
  /\ (snd (main USERNAME gql) = None <-> snd (fetch gql) = None).
Proof.
  destruct (FetchMore.fetch_from_fails gql 3 0 initial) as [H1 H2].
  split; [exact H1|]. split; [exact H2|].
  unfold main. destruct (fetch gql) as [reqs [st|]]; cbn [snd option_map].
  - split; discriminate.
  - tauto.
Qed.

(** X3.  When the run succeeds, the repositories it aggregates are the
    nodes of the responses to its requests, page after page. *)
Theorem fetched_repositories_are_the_pages
  (gql : Api) (reqs : list (option jsstring)) (st : FetchState) :
  fetch gql = (reqs, Some st) ->
  allRepos st = flat_map nodes_of (responses gql reqs).
Proof.
  intros H. exact (FetchMore.fetch_from_allRepos gql 3 0 initial H).
Qed.

Lemma fetched_repositories_are_the_pages_witness :
  allRepos endless_state
  = flat_map nodes_of
      (responses endless [None; Some (lit "0"); Some (lit "1")]).
Proof.
  apply (@fetched_repositories_are_the_pages endless
           [None; Some (lit "0"); Some (lit "1")] endless_state).
  reflexivity.
Defined.

(** X4.  The follower count and the repository count that are rendered are
    those of the first response, 0 standing in for a missing one; later
    pages do not change them. *)
Theorem profile_counts_come_from_first_page
  (gql : Api) (user : option User) (reqs : list (option jsstring))
  (st : FetchState) :
  gql 0%nat None = Data user ->
  fetch gql = (reqs, Some st) ->
  followers (summary st)
  = nullish (match user with
             | Some u => followers_totalCount u
             | None => None
             end) 0
  /\ publicRepos (summary st)
     = nullish (match user_repositories user with
                | Some rs => totalCount rs
                | None => None
                end) 0.
Proof.
  intros Hg H.
  assert (Hs : followers (summary st) = fetchedFollowers st
               /\ publicRepos (summary st) = fetchedPublicRepos st).
  { unfold summary. now destruct (aggregate (allRepos st)). }
  destruct Hs as [-> ->].
  unfold fetch in H. rewrite FetchMore.fetch_from_unfold in H.
  change (after initial) with (@None jsstring) in H. rewrite Hg in H.
  pose proof (FetchMore.page_body_profile 0 user initial) as Hp.
  cbn zeta in Hp. cbn [Nat.eqb] in Hp.
  destruct (has_next (Data user)).
  - destruct (fetch_from gql 2 1 (fst (page_body 0 user initial)))
      as [reqs1 res1] eqn:E1.
    cbn [fst snd] in H. inversion H; subst reqs res1.
    destruct (@FetchMore.fetch_from_profile gql 2 1%nat _ _ _
                (Nat.neq_succ_0 0) E1)
      as [-> ->].
    exact Hp.
  - inversion H; subst. exact Hp.
Qed.

Lemma profile_counts_come_from_first_page_witness :
  followers (summary endless_state) = 7
  /\ publicRepos (summary endless_state) = 500.
Proof.
  apply (@profile_counts_come_from_first_page endless endless_user
           [None; Some (lit "0"); Some (lit "1")] endless_state);
    reflexivity.
Defined.

(** X5.  When no response carries more than 50 nodes, the run aggregates
    at most 150 repositories. *)
Theorem at_most_150_repositories
  (gql : Api) (reqs : list (option jsstring)) (st : FetchState) :
  (forall n a, (length (nodes_of (gql n a)) <= 50)%nat) ->
  fetch gql = (reqs, Some st) ->
  (length (allRepos st) <= 150)%nat.
Proof.
  intros Hpage H.
  rewrite (FetchMore.fetch_from_allRepos gql 3 0 initial H).
  cbn [allRepos initial app].
  assert (Hlen : (length reqs <= 3)%nat).
  { pose proof (FetchFacts.fetch_from_bound gql 3 0 initial) as Hb.
    fold (fetch gql) in Hb. now rewrite H in Hb. }
  assert (Hall : forall page rs,
             Forall (fun r => (length (nodes_of r) <= 50)%nat)
                    (responses_from gql page rs)).
  { intros page rs. revert page.
    induction rs as [|a rs IH]; intros page; cbn [responses_from];
      constructor; [apply Hpage|apply IH]. }
  pose proof (FetchMore.flat_map_length_bound nodes_of (Hall 0%nat reqs))
    as Hb.
  rewrite FetchMore.responses_from_length in Hb. lia.
Qed.

Lemma at_most_150_repositories_witness :
  (length (allRepos endless_state) <= 150)%nat.
Proof.
  apply (@at_most_150_repositories endless
           [None; Some (lit "0"); Some (lit "1")] endless_state).
  - intros n a. cbn. lia.
  - reflexivity.
Defined.

(** X6.  [main] writes an image only when every request it issued was
    answered, with an ok status, without errors and with data. *)
Theorem image_needs_sound_replies
  (USERNAME : jsstring) (net : Network) (reqs : list (option jsstring))
  (svg : jsstring) :
  main USERNAME (api_of net) = (reqs, Some svg) ->
  forall i a,
    nth_error reqs i = Some a ->
    exists r user,
      net i a = Answered r /\ res_ok r = true /\ json_errors r = false
      /\ json_data r = Some user.
Proof.
  intros H i a Hi. unfold main in H.
  destruct (FetchMore.fetch_from_fails (api_of net) 3 0 initial)
    as [[_ Hfail] _]. fold (fetch (api_of net)) in Hfail.
  destruct (fetch (api_of net)) as [reqs' res] eqn:Ef.
  inversion H; subst reqs'. cbn [fst snd] in Hfail.
  destruct (api_of net i a) as [|user] eqn:Ea.
  - assert (Hn : res = None) by (apply Hfail; now exists i, a).
    subst res. discriminate.
  - unfold api_of in Ea. apply GqlMore.gql_data in Ea as (r & Er & Hr).
    now exists r, user.
Qed.

Lemma image_needs_sound_replies_witness :
  exists r user,
    sound_net 0%nat None = Answered r /\ res_ok r = true
    /\ json_errors r = false /\ json_data r = Some user.
Proof.
  apply (@image_needs_sound_replies octocat sound_net [None]
           (renderTerminalSvg octocat (summary nameless_state))
           eq_refl 0%nat None).
  reflexivity.
Defined.

(** ** Aggregation *)

(** X7.  The order of the fetched repositories does not matter to the
    totals: when the counts are added without rounding, a permutation of
    the repositories gives the same commit total and, under every name that
    [Object.prototype] does not define, the same size. *)
Theorem aggregation_ignores_repository_order
  (repos repos' : list (option Repo)) :
  Permutation repos repos' ->
  exact_sum (map commits_of repos) ->
  exact_sum (map snd (counted repos)) ->
  fst (aggregate repos) = fst (aggregate repos')
  /\ forall n,
       PlainObject.ordinary n = true ->
       JsObject.get (snd (aggregate repos)) n
       = JsObject.get (snd (aggregate repos')) n.
Proof.
  intros H _ _. rewrite !AggregateMore.aggregate_counted. cbn [fst snd].
  split.
  - now apply AggregateMore.commits_perm.
  - intros n _. rewrite !AggregateMore.get_count_pairs.
    f_equal. now apply AggregateMore.size_under_perm,
               AggregateMore.counted_perm.
Qed.

Lemma aggregation_ignores_repository_order_witness :
  fst (aggregate [live_repo; archived_repo])
  = fst (aggregate [archived_repo; live_repo])
  /\ forall n,
       PlainObject.ordinary n = true ->
       JsObject.get (snd (aggregate [live_repo; archived_repo])) n
       = JsObject.get (snd (aggregate [archived_repo; live_repo])) n.
Proof.
  apply (@aggregation_ignores_repository_order
           [live_repo; archived_repo] [archived_repo; live_repo]).
  - apply perm_swap.
  - split; [repeat constructor; cbn; lia|reflexivity].
  - split; [repeat constructor; cbn; lia|reflexivity].
Defined.

(** X8.  When the counts are added without rounding, the commit total is
    the sum of the commit counts of the repositories that are not passed
    over, and under every name that [Object.prototype] does not define the
    tally holds the sum of the sizes counted under it, and nothing when no
    counted edge carries the name. *)
Theorem tally_holds_counted_sizes (repos : list (option Repo)) :
  exact_sum (map commits_of repos) ->
  exact_sum (map snd (counted repos)) ->
  fst (aggregate repos) = fold_right (fun r s => commits_of r + s) 0 repos
  /\ forall n,
       PlainObject.ordinary n = true ->
       JsObject.get (snd (aggregate repos)) n
       = size_under n (counted repos).
Proof.
  intros _ _. rewrite AggregateMore.aggregate_counted. cbn [fst snd].
  split; [reflexivity|]. intros n _.
  now rewrite AggregateMore.get_count_pairs.
Qed.

Lemma tally_holds_counted_sizes_witness :
  fst (aggregate [live_repo; archived_repo; None; live_repo])
  = fold_right (fun r s => commits_of r + s) 0
      [live_repo; archived_repo; None; live_repo]
  /\ forall n,
       PlainObject.ordinary n = true ->
       JsObject.get
         (snd (aggregate [live_repo; archived_repo; None; live_repo])) n
       = size_under n (counted [live_repo; archived_repo; None; live_repo]).
Proof.
  apply (@tally_holds_counted_sizes
           [live_repo; archived_repo; None; live_repo]).
  - split; [repeat constructor; cbn; lia|reflexivity].
  - split; [repeat constructor; cbn; lia|reflexivity].
Defined.

(** X9.  When no counted edge is named [__proto__], the names of the tally
    are the names of the counted edges in the order in which they are first
    met, each once. *)
Theorem tally_names_in_first_met_order (repos : list (option Repo)) :
  existsb (eqb PlainObject.proto) (map fst (counted repos)) = false ->
  map fst (snd (aggregate repos)) = keep_first (map fst (counted repos))
  /\ forall n,
       In n (map fst (snd (aggregate repos)))
       <-> In n (map fst (counted repos)).
Proof.
  intros _.
  rewrite AggregateFacts.aggregate_keys, AggregateMore.repo_names_counted.
  split; [apply NamesMore.first_seen_keep_first|].
  intros n. unfold first_seen. rewrite AggregateMore.fold_note_In.
  cbn [In]. tauto.
Qed.

Lemma tally_names_in_first_met_order_witness :
  map fst (snd (aggregate [index_named_repo; live_repo]))
  = keep_first (map fst (counted [index_named_repo; live_repo]))
  /\ forall n,
       In n (map fst (snd (aggregate [index_named_repo; live_repo])))
       <-> In n (map fst (counted [index_named_repo; live_repo])).
Proof.
  apply (@tally_names_in_first_met_order [index_named_repo; live_repo]).
  reflexivity.
Defined.

(** X10.  When every counted edge has a name that [Object.prototype] does
    not define and the sizes are added without rounding, the sizes of the
    tally add up to the sum of all counted sizes: no size is lost or
    counted twice. *)
Theorem tally_total_is_counted_total (repos : list (option Repo)) :
  forallb PlainObject.ordinary (map fst (counted repos)) = true ->
  exact_sum (map snd (counted repos)) ->
  tally_total (snd (aggregate repos))
  = fold_right (fun p s => snd p + s) 0 (counted repos).
Proof.
  intros _ _. rewrite AggregateMore.aggregate_counted. cbn [snd].
  now rewrite AggregateMore.tally_total_count_pairs.
Qed.

Lemma tally_total_is_counted_total_witness :
  tally_total (snd (aggregate [index_named_repo; live_repo]))
  = fold_right (fun p s => snd p + s) 0
      (counted [index_named_repo; live_repo]).
Proof.
  apply (@tally_total_is_counted_total [index_named_repo; live_repo]).
  - reflexivity.
  - split; [repeat constructor; cbn; lia|reflexivity].
Defined.

(** X11.  From the fetched repositories to the rendered record: when every
    counted edge has a name that [Object.prototype] does not define, and
    the counted sizes are non-negative and add up to less than 2^53, every
    percentage handed to the renderer is an integer from 0 to 100. *)
Theorem fetched_percentages_within_bounds (st : FetchState) :
  forallb PlainObject.ordinary (map fst (counted (allRepos st))) = true ->
  Forall (fun p => 0 <= snd p) (counted (allRepos st)) ->
  fold_right (fun p s => snd p + s) 0 (counted (allRepos st)) < 2 ^ 53 ->
  Forall (fun l => exists z, l_percent l = IntVal z /\ 0 <= z <= 100)
         (topLangs (summary st)).
Proof.
  intros _ Hnn Hlt. unfold summary.
  pose proof (AggregateMore.aggregate_counted (allRepos st)) as Ea.
  destruct (aggregate (allRepos st)) as [total o].
  inversion Ea; subst total o. cbn [topLangs].
  set (o := fold_left count_pair (counted (allRepos st)) []).
  assert (Ho : Forall (fun p => 0 <= snd p) o).
  { apply AggregateMore.count_pairs_nonneg; [constructor|assumption]. }
  assert (Ht : tally_total o < 2 ^ 53).
  { unfold o. rewrite AggregateMore.tally_total_count_pairs. cbn. lia. }
  rewrite TallyFacts.computeTopLanguages_retained.
  destruct (TallyFacts.retained_total Ho) as [Hr Hle].
  apply TallyFacts.percentages_range; [assumption|lia].
Qed.

Lemma fetched_percentages_within_bounds_witness :
  Forall (fun l => exists z, l_percent l = IntVal z /\ 0 <= z <= 100)
         (topLangs (summary endless_state)).
Proof.
  apply (@fetched_percentages_within_bounds endless_state).
  - reflexivity.
  - repeat constructor; cbn; lia.
  - reflexivity.
Defined.

(** ** The top languages *)

(** X12.  No language that is left out is larger than one that is
    retained. *)
Theorem retained_entries_dominate (o : JsObject.t) (x y : Entry) :
  In x (retained o) -> In y (first_met o) -> ~ In y (retained o) ->
  e_size y <= e_size x.
Proof.
  intros Hx Hy Hny. unfold retained, JsArray.slice0 in *.
  set (sorted := JsArray.sort by_size_desc
                   (map entry_of (JsObject.entries o))) in *.
  assert (Hs : StronglySorted descending sorted).
  { apply SortFacts.sorted_desc, SortFacts.sort_sorted.
    exact SortFacts.by_size_desc_rank. }
  assert (Hin : In y sorted).
  { eapply Permutation_in; [|exact Hy]. unfold sorted, first_met.
    rewrite SortFacts.sort_perm. symmetry.
    apply Permutation_map, TallyFacts.entries_perm. }
  rewrite <- (firstn_skipn 6 sorted) in Hs, Hin.
  apply in_app_or in Hin as [Hin|Hin]; [contradiction|].
  exact (TopMore.sorted_app_dominates _ _ Hs x y Hx Hin).
Qed.

Lemma retained_entries_dominate_witness :
  e_size {| e_name := lit "g"; e_size := 1 |}
  <= e_size {| e_name := lit "b"; e_size := 6 |}.
Proof.
  apply (@retained_entries_dominate seven_tally).
  - cbn. tauto.
  - cbn. tauto.
  - cbn. intros H.
    repeat destruct H as [H|H]; first [discriminate H | exact H].
Defined.

(** X13.  The languages handed to the renderer have distinct names, and
    each is the name of a counted edge of a fetched repository. *)
Theorem rendered_languages_are_distinct (st : FetchState) :
  NoDup (map l_name (topLangs (summary st)))
  /\ forall n,
       In n (map l_name (topLangs (summary st))) ->
       In n (map fst (counted (allRepos st))).
Proof.
  unfold summary.
  pose proof (AggregateFacts.aggregate_wf (allRepos st)) as Hwf.
  pose proof (AggregateFacts.aggregate_keys (allRepos st)) as Hk.
  destruct (aggregate (allRepos st)) as [total o]. cbn [snd topLangs] in *.
  destruct (TopMore.top_names Hwf) as [Hnd Hin]. split; [exact Hnd|].
  intros n Hn. apply Hin in Hn. rewrite Hk in Hn.
  rewrite AggregateMore.repo_names_counted in Hn.
  unfold first_seen in Hn. rewrite AggregateMore.fold_note_In in Hn.
  destruct Hn as [[]|Hn]. exact Hn.
Qed.

(** X14.  Each shown percentage is the exact percentage of the entry's size
    in the divisor, rounded half up, or one away from it; and it is one
    away only when the exact percentage is within 2^-44 of a tie. *)
Theorem shown_percentage_exact_or_tie (o : JsObject.t) :
  Forall (fun p => 0 <= snd p) o ->
  tally_total o < 2 ^ 53 ->
  let d := or_one (sum_sizes (retained o)) in
  Forall2
    (fun x l =>
       l_name l = e_name x
       /\ exists z,
            l_percent l = IntVal z
            /\ (z = exact_percent (e_size x) d
                \/ (z = exact_percent (e_size x) d - 1
                    /\ 2 ^ 43 * (200 * e_size x
                                 - (2 * exact_percent (e_size x) d - 1) * d)
                       < d)
                \/ (z = exact_percent (e_size x) d + 1
                    /\ 2 ^ 43 * ((2 * exact_percent (e_size x) d + 1) * d
                                 - 200 * e_size x)
                       <= d)))
    (retained o) (computeTopLanguages o).
Proof.
  intros Hnn Hlt d.
  destruct (TopMore.retained_divisor Hnn Hlt) as [Hd Hall]. fold d in Hd, Hall.
  rewrite TallyFacts.computeTopLanguages_retained. unfold percentages.
  fold d. clearbody d.
  induction Hall as [|x l Hx Hall IH]; cbn [map]; constructor;
    [|exact IH].
  cbn [l_name l_percent]. split; [reflexivity|].
  apply RoundingError.percent_of_exact_or_tie; lia.
Qed.

Lemma shown_percentage_exact_or_tie_witness :
  let d := or_one (sum_sizes (retained scenario_C)) in
  Forall2
    (fun x l =>
       l_name l = e_name x
       /\ exists z,
            l_percent l = IntVal z
            /\ (z = exact_percent (e_size x) d
                \/ (z = exact_percent (e_size x) d - 1
                    /\ 2 ^ 43 * (200 * e_size x
                                 - (2 * exact_percent (e_size x) d - 1) * d)
                       < d)
                \/ (z = exact_percent (e_size x) d + 1
                    /\ 2 ^ 43 * ((2 * exact_percent (e_size x) d + 1) * d
                                 - 200 * e_size x)
                       <= d)))
    (retained scenario_C) (computeTopLanguages scenario_C).
Proof.
  apply (@shown_percentage_exact_or_tie scenario_C).
  - repeat constructor; cbn; lia.
  - reflexivity.
Defined.

(** X15.  The shown percentages are not made to add up to 100, but they
    stay near it: with [k] languages shown and a retained total that is
    not zero, twice their sum lies between [200 - k] and [200 + k]; so the
    sum is between 97 and 103, and it is 100 for a single language. *)
Theorem shown_percentages_sum_near_100 (o : JsObject.t) :
  Forall (fun p => 0 <= snd p) o ->
  tally_total o < 2 ^ 53 ->
  0 < total_size (retained o) ->
  let k := Z.of_nat (length (computeTopLanguages o)) in
  200 - k <= 2 * percent_sum (computeTopLanguages o) <= 200 + k
  /\ 1 <= k <= 6.
Proof.
  intros Hnn Hlt Hpos k.
  destruct (TopMore.retained_divisor Hnn Hlt) as [Hd Hall].
  cbn zeta in Hd, Hall.
  assert (Ed : or_one (sum_sizes (retained o)) = total_size (retained o)).
  { rewrite TallyFacts.sum_sizes_total. unfold or_one.
    destruct (Z.eqb_spec (total_size (retained o)) 0); lia. }
  rewrite Ed in Hd, Hall.
  destruct (TopMore.percent_sum_bounds Hd Hall) as [H1 H2].
  cbn zeta in H1, H2.
  assert (Ek : k = Z.of_nat (length (retained o))).
  { unfold k. now rewrite TallyFacts.computeTopLanguages_retained,
                 TallyFacts.percentages_length. }
  assert (Es : computeTopLanguages o
               = map (fun x => {| l_name := e_name x;
                                  l_percent :=
                                    percent_of (e_size x)
                                      (total_size (retained o)) |})
                     (retained o)).
  { rewrite TallyFacts.computeTopLanguages_retained. unfold percentages.
    now rewrite Ed. }
  rewrite <- Es, <- Ek in H1, H2.
  assert (Hk6 : 0 <= k <= 6).
  { rewrite Ek. pose proof (TallyFacts.retained_length o) as Hl.
    lia. }
  assert (Hk1 : 1 <= k).
  { rewrite Ek. destruct (retained o); [cbn in Hpos; lia|].
    cbn [length]. lia. }
  set (t := total_size (retained o)) in *.
  set (S' := percent_sum (computeTopLanguages o)) in *.
  change (2 ^ 43) with 8796093022208 in *.
  assert (Hmono : forall a, 1 <= a -> t <= a * t).
  { intros a Ha.
    replace t with (1 * t) at 1 by lia.
    apply Z.mul_le_mono_nonneg_r; lia. }
  split; [|lia]. split.
  - destruct (Z_le_gt_dec (200 - k) (2 * S')) as [|Hgt]; [assumption|].
    exfalso.
    pose proof (Hmono (8796093022208 * (200 - 2 * S' - k) - k)) as Hm.
    lia.
  - destruct (Z_le_gt_dec (2 * S') (200 + k)) as [|Hgt]; [assumption|].
    exfalso.
    pose proof (Hmono (8796093022208 * (2 * S' - k - 200) - k)) as Hm.
    lia.
Qed.

Lemma shown_percentages_sum_near_100_witness :
  let k := Z.of_nat (length (computeTopLanguages scenario_C)) in
  200 - k <= 2 * percent_sum (computeTopLanguages scenario_C) <= 200 + k
  /\ 1 <= k <= 6.
Proof.
  apply (@shown_percentages_sum_near_100 scenario_C).
  - repeat constructor; cbn; lia.
  - reflexivity.
  - reflexivity.
Defined.

(** ** Escaping *)

(** X16.  [esc] works code unit by code unit, so it distributes over
    concatenation; and it leaves a string as it is exactly when the string
    holds none of the five reserved characters. *)
Theorem esc_distributes_and_fixes_plain_text (s t : jsstring) :
  esc (s ++ t) = esc s ++ esc t
  /\ (esc s = s <-> forallb (fun c => negb (reserved c)) s = true).
Proof.
  split; [apply EscFacts.esc_app|apply EscMore.esc_fixed].
Qed.

(** X17.  Escaping never shortens a string and makes it at most six times
    as long; it makes it longer when it holds a reserved character. *)
Theorem esc_length_bounds (s : jsstring) :
  (length s <= length (esc s) <= 6 * length s)%nat
  /\ (forallb (fun c => negb (reserved c)) s = false ->
      (length s < length (esc s))%nat).
Proof.
  split; [apply EscMore.esc_length|apply EscMore.esc_longer].
Qed.

(** ** Formatted numbers *)

(** X18.  A formatted number reads back as the number, for an integer
    below 2^53 in absolute value (where [Number(n)] is [n]): dropping the
    commas and reading the digits, with the sign, gives [n] again. *)
Theorem formatNumber_round_trip (n : Z) :
  Z.abs n < 2 ^ 53 -> unformat (formatNumber n) = n.
Proof.
  intros _.
  assert (Hval : forall m,
             Z.of_N (JsObject.digits_value
                       (filter (fun c => negb (N.eqb c 44))
                               (group_thousands (decimal m))))
             = Z.of_N m).
  { intros m. rewrite (FormatMore.ungroup (FormatMore.decimal_digits m)).
    now rewrite FormatMore.digits_value_decimal. }
  assert (Hpos : forall m,
             unformat (group_thousands (decimal m)) = Z.of_N m).
  { intros m.
    destruct (FormatMore.group_thousands_head
                (FormatMore.decimal_digits m) (@FormatMore.decimal_nonempty m))
      as (d & rest & E & Hd).
    specialize (Hval m). rewrite E in *. unfold unformat.
    destruct (N.eqb_spec d 45) as [->|_]; [discriminate Hd|exact Hval]. }
  destruct n as [|p|p]; cbn [formatNumber].
  - apply (Hpos 0%N).
  - rewrite Hpos. now rewrite Z2N.id.
  - unfold unformat. cbn [N.eqb Pos.eqb]. rewrite Hval. reflexivity.
Qed.

Lemma formatNumber_round_trip_witness :
  unformat (formatNumber (-1234567)) = -1234567.
Proof.
  apply (@formatNumber_round_trip (-1234567)). reflexivity.
Defined.

(** X19.  For an integer below 2^53 in absolute value, the formatted number
    is a minus sign when the number is negative, and then a body that holds
    the decimal digits of the absolute value and commas: without its commas
    the body is the decimal numeral; counted from the right, every fourth
    code unit is a comma and the others are digits; the first is a digit;
    and [k] digits take [(k - 1) / 3] commas. *)
Theorem formatNumber_groups_of_three (n : Z) :
  Z.abs n < 2 ^ 53 ->
  exists body,
    formatNumber n = (if n <? 0 then [45%N] else []) ++ body
    /\ filter (fun c => negb (N.eqb c 44)) body
       = decimal (Z.to_N (Z.abs n))
    /\ (forall i c,
          nth_error (rev body) i = Some c ->
          if Nat.eqb (i mod 4) 3 then c = 44%N
          else JsObject.is_digit c = true)
    /\ (exists d rest, body = d :: rest /\ JsObject.is_digit d = true)
    /\ length body
       = (length (decimal (Z.to_N (Z.abs n)))
          + (length (decimal (Z.to_N (Z.abs n))) - 1) / 3)%nat.
Proof.
  intros _. set (digits := decimal (Z.to_N (Z.abs n))).
  exists (group_thousands digits).
  pose proof (FormatMore.decimal_digits (Z.to_N (Z.abs n))) as Hd.
  fold digits in Hd.
  split; [|split; [|split; [|split]]].
  - unfold digits. destruct n as [|p|p]; reflexivity.
  - now apply FormatMore.ungroup.
  - exact (@FormatCommas.group_thousands_commas digits Hd).
  - apply FormatMore.group_thousands_head; [exact Hd|].
    apply FormatMore.decimal_nonempty.
  - apply FormatMore.group_thousands_length.
Qed.

Lemma formatNumber_groups_of_three_witness :
  exists body,
    formatNumber 1234567 = (if 1234567 <? 0 then [45%N] else []) ++ body
    /\ filter (fun c => negb (N.eqb c 44)) body
       = decimal (Z.to_N (Z.abs 1234567))
    /\ (forall i c,
          nth_error (rev body) i = Some c ->
          if Nat.eqb (i mod 4) 3 then c = 44%N
          else JsObject.is_digit c = true)
    /\ (exists d rest, body = d :: rest /\ JsObject.is_digit d = true)
    /\ length body
       = (length (decimal (Z.to_N (Z.abs 1234567)))
          + (length (decimal (Z.to_N (Z.abs 1234567))) - 1) / 3)%nat.
Proof.
  apply (@formatNumber_groups_of_three 1234567). reflexivity.
Defined.

(** ** The rendered lines *)

(** X20.  When the first response carries a display name that is not
    empty, the answer to [whoami] is that name, and its text node holds
    the escaped name. *)
Theorem whoami_shows_display_name
  (USERNAME : jsstring) (gql : Api) (user : option User)
  (reqs : list (option jsstring)) (st : FetchState)
  (c : codeunit) (s : jsstring) :
  gql 0%nat None = Data user ->
  display_name user = Some (c :: s) ->
  fetch gql = (reqs, Some st) ->
  nth_error (clipped USERNAME (summary st)) 1 = Some (c :: s)
  /\ nth_error (JsArray.mapi (textNode USERNAME)
                  (clipped USERNAME (summary st))) 1
     = Some (text_open 1 (bright USERNAME (c :: s)) ++ esc (c :: s)
             ++ lit "</text>").
Proof.
  intros Hg Hn Hf.
  assert (Hline : nth_error (clipped USERNAME (summary st)) 1
                  = Some (c :: s)).
  { rewrite LineFacts.clipped_scaffold. cbn [scaffold app nth_error].
    unfold title. rewrite NameFacts.summary_name.
    rewrite (NameFacts.fetch_userName gql Hg Hf), Hn. reflexivity. }
  split; [exact Hline|].
  rewrite (NameFacts.mapi_nth_error _ _ _ Hline).
  now rewrite RenderFacts.textNode_shape.
Qed.

Lemma whoami_shows_display_name_witness :
  nth_error (clipped octocat (summary named_state)) 1 = Some (lit "R&D")
  /\ nth_error (JsArray.mapi (textNode octocat)
                  (clipped octocat (summary named_state))) 1
     = Some (text_open 1 (bright octocat (lit "R&D")) ++ esc (lit "R&D")
             ++ lit "</text>").
Proof.
  apply (@whoami_shows_display_name octocat named named_user [None]
           named_state 82%N (lit "&D"));
    reflexivity.
Defined.

(** X21.  The colours of the lines: the three prompt lines and the cursor
    line are green; the blank lines and the three summary lines are dim,
    whatever the numbers; a language line is dim unless the name of the
    language holds an at sign; and the answer to [whoami] is dim when it
    holds neither an at sign nor an underscore. *)
Theorem line_colours (USERNAME : jsstring) (r : RenderInput) :
  map (color USERNAME) (scaffold USERNAME r)
  = [green; color USERNAME (title USERNAME r); dim; green; dim; dim; dim;
     dim; green]
  /\ color USERNAME (cursor_line USERNAME) = green
  /\ (forall l, ~ In 64%N (l_name l) -> color USERNAME (langLine l) = dim)
  /\ (~ In 64%N (title USERNAME r) -> ~ In 95%N (title USERNAME r) ->
      color USERNAME (title USERNAME r) = dim).
Proof.
  split; [|split; [|split]].
  - unfold scaffold. cbn [map].
    change (lit "@github:~$ whoami")
      with (lit "@github" ++ lit ":~$ whoami").
    change (lit "@github:~$ stats --summary")
      with (lit "@github" ++ lit ":~$ stats --summary").
    change (lit "@github:~$ stats --top-languages")
      with (lit "@github" ++ lit ":~$ stats --top-languages").
    rewrite !ColorMore.color_prompt, ColorMore.color_blank.
    rewrite !ColorMore.color_summary; [reflexivity| | |];
      cbn; intros H; repeat destruct H as [H|H];
      first [discriminate H | exact H].
  - unfold cursor_line.
    change (lit "@github:~$ _") with (lit "@github" ++ lit ":~$ _").
    apply ColorMore.color_prompt.
  - intros l. apply ColorMore.color_langLine.
  - apply ColorMore.color_dim.
Qed.

(** ** The tally as a plain object *)

(** X22.  [langSizes] is a plain object, and its sums are sums of Numbers.
    When neither the commit counts nor the counted sizes are negative or
    add up to 2^53 or more, the loop on the plain object gives the commit
    total of the loop on integers and, under every name that
    [Object.prototype] does not define, what the tally of integers holds;
    it gives that tally as a whole when every counted edge has such a name.
    Its names are the counted names in the order in which they are first
    met, [__proto__] left out. *)
Theorem plain_object_agrees_on_ordinary_names (repos : list (option Repo)) :
  exact_sum (map snd (counted repos)) ->
  exact_sum (map commits_of repos) ->
  fst (PlainObject.aggregate repos) = toNumber (fst (aggregate repos))
  /\ (forall n,
        PlainObject.ordinary n = true ->
        PlainObject.get (snd (PlainObject.aggregate repos)) n
        = match JsObject.get (snd (aggregate repos)) n with
          | Some v => PlainObject.Own (PlainObject.Num (toNumber v))
          | None => PlainObject.Undefined
          end)
  /\ (forallb PlainObject.ordinary (map fst (counted repos)) = true ->
      snd (PlainObject.aggregate repos)
      = PlainObject.embed (snd (aggregate repos)))
  /\ map fst (snd (PlainObject.aggregate repos))
     = first_seen
         (filter (fun n => negb (eqb n PlainObject.proto))
                 (map fst (counted repos))).
Proof.
  intros Hs Hc.
  destruct (@PlainFacts.aggregate_agrees repos Hs Hc) as [Ht Hn].
  split; [exact Ht|]. split; [exact Hn|]. split.
  - intros Ho. now rewrite (@PlainFacts.aggregate_refines repos Ho Hs Hc).
  - apply PlainFacts.plain_aggregate_keys.
Qed.

Lemma plain_object_agrees_on_ordinary_names_witness :
  fst (PlainObject.aggregate [constructor_repo; live_repo])
  = toNumber (fst (aggregate [constructor_repo; live_repo]))
  /\ (forall n,
        PlainObject.ordinary n = true ->
        PlainObject.get
          (snd (PlainObject.aggregate [constructor_repo; live_repo])) n
        = match
            JsObject.get (snd (aggregate [constructor_repo; live_repo])) n
          with
          | Some v => PlainObject.Own (PlainObject.Num (toNumber v))
          | None => PlainObject.Undefined
          end)
  /\ (forallb PlainObject.ordinary
        (map fst (counted [constructor_repo; live_repo])) = true ->
      snd (PlainObject.aggregate [constructor_repo; live_repo])
      = PlainObject.embed (snd (aggregate [constructor_repo; live_repo])))
  /\ map fst (snd (PlainObject.aggregate [constructor_repo; live_repo]))
     = first_seen
         (filter (fun n => negb (eqb n PlainObject.proto))
                 (map fst (counted [constructor_repo; live_repo]))).
Proof.
  apply (@plain_object_agrees_on_ordinary_names
           [constructor_repo; live_repo]).
  - split; [repeat constructor; cbn; lia|reflexivity].
  - split; [repeat constructor; cbn; lia|reflexivity].
Defined.

(** Under a name that [Object.prototype] defines the two part: an edge
    named [constructor] leaves a String in the plain object, and an edge
    named [__proto__] leaves nothing. *)
Example inherited_names_part_from_the_tally :
  snd (PlainObject.aggregate [constructor_repo])
  = [(lit "constructor", PlainObject.Str)]
  /\ snd (aggregate [constructor_repo]) = [(lit "constructor", 5)]
  /\ snd (PlainObject.aggregate [proto_repo]) = []
  /\ snd (aggregate [proto_repo]) = [(lit "__proto__", 5)].
Proof. repeat split; reflexivity. Qed.

End Extras.
